(** * Cuckoo Breeding Ground (CBG) hash table: a shallow embedding of [cbg.hpp]

    The development follows the layering of the header:
    - the build target and [size_t] arithmetic, with [fastrange];
    - the metadata codec of the three layouts (struct of arrays, array of
      structs, array of blocks);
    - the table [CBG_IMPL]: the insertion utilities (minimum label,
      bucket reversal, hopscotch), [rehash], [try_insert], the two
      [find_position] variants and the public operations;
    - the map facade [CBG_MAP_IMPL].

    Unsigned integers are [Z] with the wrap-around written out; the
    metadata and payload arrays are lists indexed through bounds-checked
    accessors; [float] is IEEE binary32 as given by [SpecFloat]. *)

From Stdlib Require Import ZArith Lia Bool String.
From Stdlib Require Import Floats.SpecFloat.
From stdpp Require Import base list.

Local Open Scope Z_scope.

(* ===================================================================== *)
(** * Build target and [size_t] *)
(* ===================================================================== *)

(** The preprocessor branches of [fastrange]/[fastrange64]:
    [SIZE_MAX == UINT32_MAX], [__SIZEOF_INT128__], [_MSC_VER && _WIN64],
    and the last [#else]. *)
Inductive Target : Type :=
| Target32
| Target64_int128
| Target64_msvc
| Target64_other.

Definition SIZE_BITS (tg : Target) : Z :=
  match tg with
  | Target32 => 32
  | _ => 64
  end.

Definition SIZE_MOD (tg : Target) : Z := 2 ^ SIZE_BITS tg.

Definition SIZE_MAX (tg : Target) : Z := SIZE_MOD tg - 1.

(** Reduction of an integer to [size_t]. *)
Definition wrap (tg : Target) (x : Z) : Z := x mod SIZE_MOD tg.

(** [fastrange32]: both arguments are [uint32_t], the product is taken in
    [uint64_t]. *)
Definition fastrange32 (word p : Z) : Z :=
  (Z.shiftr (((word mod 2 ^ 32) * (p mod 2 ^ 32)) mod 2 ^ 64) 32) mod 2 ^ 32.

(** [fastrange64]: the 128-bit product, [__umulh], or [word % p]. *)
Definition fastrange64 (tg : Target) (word p : Z) : Z :=
  let word := word mod 2 ^ 64 in
  let p := p mod 2 ^ 64 in
  match tg with
  | Target64_other => word mod p
  | Target64_msvc => Z.shiftr (word * p) 64
  | _ => (Z.shiftr ((word * p) mod 2 ^ 128) 64) mod 2 ^ 64
  end.

Definition fastrange (tg : Target) (word p : Z) : Z :=
  match tg with
  | Target32 => fastrange32 word p
  | _ => fastrange64 tg word p
  end.

(* ===================================================================== *)
(** * Metadata codec *)
(* ===================================================================== *)

(** Bit layout of a metadata word:
    b7 unlucky bucket, b6 bucket is reversed, b5 item in reversed bucket,
    b4..b3 distance to the entry bin, b2..b0 label.  The struct-of-arrays
    layout keeps a hash byte in b15..b8. *)
Inductive Layout : Type :=
| SoA
| AoS
| AoB (BLOCK_SIZE : Z).

Definition IS_SoA (ly : Layout) : bool :=
  match ly with SoA => true | _ => false end.

Definition META_BITS (ly : Layout) : Z :=
  match ly with SoA => 16 | _ => 8 end.

(** Number of cells actually allocated for [num_bins] cells: the block
    layout rounds up to whole blocks. *)
Definition alloc_bins (ly : Layout) (num_bins : Z) : Z :=
  match ly with
  | AoB bs => ((num_bins + bs - 1) / bs) * bs
  | _ => num_bins
  end.

Module Meta.

Definition L_MAX : Z := 7.

Definition Get_Label (w : Z) : Z := Z.land w 7.

Definition Is_Empty (w : Z) : bool := Get_Label w =? 0.

Definition Set_Empty (w : Z) : Z := Z.land w 192.

Definition Get_Hash (ly : Layout) (w : Z) : Z :=
  match ly with
  | SoA => Z.land w 65280
  | _ => 0
  end.

Definition Is_Item_In_Reverse_Bucket (w : Z) : bool :=
  negb (Z.land w 32 =? 0).

Definition Distance_to_Entry_Bin (w : Z) : Z := Z.land (Z.shiftr w 3) 3.

Definition Is_Unlucky_Bucket (w : Z) : bool := negb (Z.land w 128 =? 0).

Definition Set_Unlucky_Bucket (w : Z) : Z := Z.lor w 128.

Definition Is_Bucket_Reversed (w : Z) : bool := negb (Z.land w 64 =? 0).

Definition Set_Bucket_Reversed (w : Z) : Z := Z.lor w 64.

(** The word written by [Update_Bin_At] over the old word [w]. *)
Definition Update_Bin (tg : Target) (ly : Layout) (w : Z)
    (distance_to_base : Z) (is_reverse_item : bool) (label hash : Z) : Z :=
  let keep := Z.land w 192 in
  let rev := if is_reverse_item then 32 else 0 in
  match ly with
  | SoA =>
      (Z.lor (Z.lor (Z.lor (Z.lor (Z.land hash 65280) keep) rev)
                    (wrap tg (Z.shiftl distance_to_base 3))) label) mod 2 ^ 16
  | AoS =>
      (Z.lor (Z.lor (Z.lor keep rev)
                    (Z.shiftl (distance_to_base mod 2 ^ 8) 3)) label) mod 2 ^ 8
  | AoB _ =>
      (Z.lor (Z.lor (Z.lor keep rev)
                    (wrap tg (Z.shiftl distance_to_base 3))) label) mod 2 ^ 8
  end.

End Meta.

(* ===================================================================== *)
(** * Single-precision arithmetic *)
(* ===================================================================== *)

(** [float] is IEEE binary32: 24 bits of precision, [emax = 128]. *)
Module F32.

Definition prec : Z := 24.
Definition emax : Z := 128.

Definition of_Z (n : Z) : spec_float := binary_normalize prec emax n 0 false.

Definition mul : spec_float -> spec_float -> spec_float := SFmul prec emax.

Definition div : spec_float -> spec_float -> spec_float := SFdiv prec emax.

(** The decimal literal [num / den], both exactly representable. *)
Definition lit (num den : Z) : spec_float := div (of_Z num) (of_Z den).

Definition geb (x y : spec_float) : bool := SFleb y x.

(** Conversion to an integer truncates toward zero; it is undefined on
    infinities and NaN. *)
Definition to_Z (x : spec_float) : option Z :=
  match x with
  | S754_zero _ => Some 0
  | S754_finite s m e =>
      let v := if 0 <=? e then Z.pos m * 2 ^ e else Z.pos m / 2 ^ (- e) in
      Some (if s then - v else v)
  | _ => None
  end.

End F32.

(* ===================================================================== *)
(** * Outcomes and the table monad *)
(* ===================================================================== *)

(** A run ends with a value, hits undefined behaviour (an access outside
    an array, a float conversion out of range), or is still running when
    the loop budget is used up. *)
Inductive result (A : Type) : Type :=
| Ok (a : A)
| UB
| OutOfFuel.

Arguments Ok {A} a.
Arguments UB {A}.
Arguments OutOfFuel {A}.

Definition in_bounds {A : Type} (l : list A) (pos : Z) : bool :=
  (0 <=? pos) && (pos <? Z.of_nat (length l)).

Definition read {A : Type} (l : list A) (pos : Z) : option A :=
  if in_bounds l pos then l !! Z.to_nat pos else None.

Definition write {A : Type} (l : list A) (pos : Z) (x : A) : option (list A) :=
  if in_bounds l pos then Some (<[Z.to_nat pos := x]> l) else None.

(** [realloc]: the old prefix is kept, new cells hold [fill]. *)
Definition resize {A : Type} (l : list A) (n : Z) (fill : A) : list A :=
  take (Z.to_nat n) l ++ replicate (Z.to_nat n - length l)%nat fill.

(* ===================================================================== *)
(** * The table [CBG_IMPL] *)
(* ===================================================================== *)

(** The counters, the parameters and, through [DATA] and [METADATA], the
    two arrays. The payload array stores whole entries ([INSERT_TYPE]): a
    key for the sets, a key and a value for the maps. *)
Record CBG (INSERT_TYPE : Type) : Type := mkCBG {
  metadata : list Z;
  elems : list INSERT_TYPE;
  num_elems : Z;
  num_buckets : Z;
  _max_load_factor : spec_float;
  _grow_factor : spec_float
}.

Arguments mkCBG {INSERT_TYPE}.
Arguments metadata {INSERT_TYPE}.
Arguments elems {INSERT_TYPE}.
Arguments num_elems {INSERT_TYPE}.
Arguments num_buckets {INSERT_TYPE}.
Arguments _max_load_factor {INSERT_TYPE}.
Arguments _grow_factor {INSERT_TYPE}.

(** Member functions are state transformers over the table. *)
Definition M (INSERT_TYPE A : Type) : Type :=
  CBG INSERT_TYPE -> result (A * CBG INSERT_TYPE).

Definition ret {I A : Type} (a : A) : M I A := fun t => Ok (a, t).

Definition bind {I A B : Type} (m : M I A) (k : A -> M I B) : M I B :=
  fun t =>
    match m t with
    | Ok (a, t') => k a t'
    | UB => UB
    | OutOfFuel => OutOfFuel
    end.

Definition undefined {I A : Type} : M I A := fun _ => UB.

Definition diverge {I A : Type} : M I A := fun _ => OutOfFuel.

Definition get {I : Type} : M I (CBG I) := fun t => Ok (t, t).

Notation "'do' x <- c ; k" := (bind c (fun x => k))
  (at level 10, x name, c at level 100, k at level 200,
   format "'[v' 'do'  x  <-  c ; '/' k ']'").
Notation "'do' ( x , y ) <- c ; k" := (bind c (fun '(x, y) => k))
  (at level 10, x name, y name, c at level 100, k at level 200,
   format "'[v' 'do'  ( x ,  y )  <-  c ; '/' k ']'").
Notation "'run' c ; k" := (bind c (fun _ => k))
  (at level 10, c at level 100, k at level 200,
   format "'[v' 'run'  c ; '/' k ']'").

Fixpoint foldM {I A S : Type} (f : S -> A -> M I S) (s : S) (l : list A) : M I S :=
  match l with
  | [] => ret s
  | a :: l' => do s' <- f s a; foldM f s' l'
  end.

(** The outcome of one iteration of the [while (true)] of [try_insert]. *)
Inductive Round (INSERT_TYPE : Type) : Type :=
| Inserted
| Failed
| Evicted (victim : INSERT_TYPE).

Arguments Inserted {INSERT_TYPE}.
Arguments Failed {INSERT_TYPE}.
Arguments Evicted {INSERT_TYPE} victim.

Section CBG_IMPL.

Context {INSERT_TYPE KEY_TYPE : Type}.

(** Template parameters and collaborators. *)
Variable tg : Target.
Variable ly : Layout.
Variable NUM_ELEMS_BUCKET : Z.
Variable key_of : INSERT_TYPE -> KEY_TYPE.
Variable HASHER : KEY_TYPE -> Z * Z.
Variable EQ : KEY_TYPE -> KEY_TYPE -> bool.
(** What a freshly allocated payload cell holds. *)
Variable junk : INSERT_TYPE.

Abbreviation T := (CBG INSERT_TYPE).
Abbreviation Mt := (M INSERT_TYPE).
Abbreviation wrp := (wrap tg).

Definition L_MAX : Z := Meta.L_MAX.
Definition MIN_BINS_SIZE : Z := wrp (2 * NUM_ELEMS_BUCKET - 2).

(** ** Storage access *)

Definition md_at (pos : Z) : Mt Z :=
  fun t => match read (metadata t) pos with
           | Some w => Ok (w, t)
           | None => UB
           end.

Definition md_store (pos w : Z) : Mt unit :=
  fun t => match write (metadata t) pos w with
           | Some md => Ok (tt, mkCBG md (elems t) (num_elems t) (num_buckets t)
                                      (_max_load_factor t) (_grow_factor t))
           | None => UB
           end.

Definition GetElem (pos : Z) : Mt INSERT_TYPE :=
  fun t => match read (elems t) pos with
           | Some e => Ok (e, t)
           | None => UB
           end.

Definition SaveElem (pos : Z) (elem : INSERT_TYPE) : Mt unit :=
  fun t => match write (elems t) pos elem with
           | Some es => Ok (tt, mkCBG (metadata t) es (num_elems t) (num_buckets t)
                                      (_max_load_factor t) (_grow_factor t))
           | None => UB
           end.

Definition GetKey (pos : Z) : Mt KEY_TYPE :=
  do e <- GetElem pos; ret (key_of e).

Definition MoveElem (dest orig : Z) : Mt unit :=
  do e <- GetElem orig; SaveElem dest e.

Definition hash_elem (k : KEY_TYPE) : Z * Z :=
  let '(h0, h1) := HASHER k in (wrp h0, wrp h1).

Definition get_num_buckets : Mt Z := fun t => Ok (num_buckets t, t).

Definition get_num_elems : Mt Z := fun t => Ok (num_elems t, t).

Definition set_num_elems (n : Z) : Mt unit :=
  fun t => Ok (tt, mkCBG (metadata t) (elems t) n (num_buckets t)
                         (_max_load_factor t) (_grow_factor t)).

Definition set_num_buckets (n : Z) : Mt unit :=
  fun t => Ok (tt, mkCBG (metadata t) (elems t) (num_elems t) n
                         (_max_load_factor t) (_grow_factor t)).

(** [num_elems++] *)
Definition incr_num_elems : Mt unit :=
  do n <- get_num_elems; set_num_elems (wrp (n + 1)).

(** ** Metadata accessors *)

Definition Get_Label (pos : Z) : Mt Z :=
  do w <- md_at pos; ret (Meta.Get_Label w).

Definition Is_Empty (pos : Z) : Mt bool :=
  do l <- Get_Label pos; ret (l =? 0).

Definition Set_Empty (pos : Z) : Mt unit :=
  do w <- md_at pos; md_store pos (Meta.Set_Empty w).

Definition Get_Hash (pos : Z) : Mt Z :=
  match ly with
  | SoA => do w <- md_at pos; ret (Meta.Get_Hash ly w)
  | _ => ret 0
  end.

Definition Update_Bin_At (pos distance_to_base : Z) (is_reverse_item : bool)
    (label hash : Z) : Mt unit :=
  do w <- md_at pos;
  md_store pos (Meta.Update_Bin tg ly w distance_to_base is_reverse_item label hash).

Definition Is_Item_In_Reverse_Bucket (pos : Z) : Mt bool :=
  do w <- md_at pos; ret (Meta.Is_Item_In_Reverse_Bucket w).

Definition Distance_to_Entry_Bin (pos : Z) : Mt Z :=
  do w <- md_at pos; ret (Meta.Distance_to_Entry_Bin w).

Definition Set_Unlucky_Bucket (pos : Z) : Mt unit :=
  do w <- md_at pos; md_store pos (Meta.Set_Unlucky_Bucket w).

Definition Is_Bucket_Reversed (pos : Z) : Mt bool :=
  do w <- md_at pos; ret (Meta.Is_Bucket_Reversed w).

Definition Set_Bucket_Reversed (pos : Z) : Mt unit :=
  do w <- md_at pos; md_store pos (Meta.Set_Bucket_Reversed w).

(** [Clear]: zero [size_in_bins] words from [initial_pos] on. *)
Definition Clear (initial_pos size_in_bins : Z) : Mt unit :=
  foldM (fun (_ : unit) i => md_store (initial_pos + i) 0) tt
        (seqZ 0 size_in_bins).

Definition cmp_elems (pos : Z) (r : KEY_TYPE) : Mt bool :=
  do k <- GetKey pos; ret (EQ k r).

(** ** Insertion utilities *)

Definition Calculate_Minimum (bucket_pos : Z) : Mt (Z * Z) :=
  do minimum <- Get_Label bucket_pos;
  foldM (fun '(minimum, pos) i =>
           if minimum =? 0 then ret (minimum, pos)
           else
             do label_value <- Get_Label (wrp (bucket_pos + i));
             if label_value <? minimum
             then ret (label_value, wrp (bucket_pos + i))
             else ret (minimum, pos))
        (minimum, bucket_pos) (seqZ 1 (NUM_ELEMS_BUCKET - 1)).

Definition Belong_to_Bucket (elem_pos : Z) : Mt Z :=
  do e <- Is_Empty elem_pos;
  if e then ret (SIZE_MAX tg)
  else
    do r <- Is_Item_In_Reverse_Bucket elem_pos;
    do d <- Distance_to_Entry_Bin elem_pos;
    ret (wrp (elem_pos + (if r then NUM_ELEMS_BUCKET - 1 else 0) - d)).

Definition Count_Empty (pos : Z) : Mt Z :=
  do e <- Is_Empty pos;
  foldM (fun count i =>
           do e <- Is_Empty (wrp (pos + i));
           ret (if e then wrp (count + 1) else count))
        (if e then 1 else 0) (seqZ 1 (NUM_ELEMS_BUCKET - 1)).

Definition Count_Elems_In_Bucket_Non_Reversed (bucket_pos : Z) : Mt Z :=
  do r <- Is_Item_In_Reverse_Bucket bucket_pos;
  do d <- (if r then ret 0 else Distance_to_Entry_Bin bucket_pos);
  foldM (fun count i =>
           let pos := wrp (bucket_pos + i) in
           do r <- Is_Item_In_Reverse_Bucket pos;
           if r then ret count
           else
             do d <- Distance_to_Entry_Bin pos;
             ret (if i =? d then wrp (count + 1) else count))
        (if negb r && (0 =? d) then 1 else 0) (seqZ 1 (NUM_ELEMS_BUCKET - 1)).

(** [for (; !Is_Empty(bucket_pos - j); j--)]: the probed position moves
    up by one cell per step, so [fuel] above the array length is never
    used up before the scan stops or leaves the array. *)
Fixpoint scan_empty (fuel : nat) (bucket_pos j : Z) : Mt Z :=
  match fuel with
  | O => diverge
  | S fuel' =>
      do e <- Is_Empty (wrp (bucket_pos - j));
      if e then ret j else scan_empty fuel' bucket_pos (wrp (j - 1))
  end.

Definition loop_fuel : Mt nat := fun t => Ok (S (length (metadata t)), t).

Definition Reverse_Bucket (bucket_pos : Z) : Mt unit :=
  run Set_Bucket_Reversed bucket_pos;
  run foldM (fun j i =>
           do b <- Belong_to_Bucket (wrp (bucket_pos + i));
           if b =? bucket_pos then
             do fuel <- loop_fuel;
             do j <- scan_empty fuel bucket_pos j;
             do label <- Get_Label (wrp (bucket_pos + i));
             do hash <- Get_Hash (wrp (bucket_pos + i));
             run Update_Bin_At (wrp (bucket_pos - j)) (wrp (NUM_ELEMS_BUCKET - 1 - j))
                               true label hash;
             run Set_Empty (wrp (bucket_pos + i));
             run MoveElem (wrp (bucket_pos - j)) (wrp (bucket_pos + i));
             ret j
           else ret j)
        (wrp (NUM_ELEMS_BUCKET - 1)) (seqZ 0 NUM_ELEMS_BUCKET);
  ret tt.

(** The credit of one empty cell when the anchor cell itself holds an
    element of the bucket. *)
Definition credit_empty (bucket_pos count_empty : Z) : Mt Z :=
  do b <- Belong_to_Bucket bucket_pos;
  ret (if (b =? bucket_pos) && (0 <? count_empty)
       then wrp (count_empty + 1) else count_empty).

(** First part of [Find_Empty_Pos_Hopscotch]: try to reverse the
    bucket. [inl pos] is an early [return pos]; [inr bucket_init]
    carries the (possibly updated) window start on. *)
Definition hopscotch_reverse_bucket (bucket_pos bucket_init : Z) : Mt (Z + Z) :=
  do rev <- Is_Bucket_Reversed bucket_pos;
  if negb rev && (NUM_ELEMS_BUCKET <=? bucket_pos) then
    do count_empty <- Count_Empty (wrp (bucket_pos + 1 - NUM_ELEMS_BUCKET));
    if count_empty =? 0 then ret (inr bucket_init)
    else
      do count_elems <- Count_Elems_In_Bucket_Non_Reversed bucket_pos;
      do count_empty <- credit_empty bucket_pos count_empty;
      if count_elems <? count_empty then
        run Reverse_Bucket bucket_pos;
        do rev' <- Is_Bucket_Reversed bucket_pos;
        let bucket_init :=
          wrp (bucket_pos + (if rev' then wrp (1 - NUM_ELEMS_BUCKET) else 0)) in
        do (min1, pos1) <- Calculate_Minimum bucket_init;
        if min1 =? 0 then ret (inl pos1) else ret (inr bucket_init)
      else ret (inr bucket_init)
  else ret (inr bucket_init).

(** Second part: try to reverse the bucket of a resident element.
    [Some pos] is [return pos]; [None] falls through (loop end or
    [break]). *)
Fixpoint hopscotch_reverse_elems (bucket_pos bucket_init : Z) (offsets : list Z)
    : Mt (option Z) :=
  match offsets with
  | [] => ret None
  | i :: rest =>
      let pos_elem := wrp (bucket_init + i) in
      do r <- Is_Item_In_Reverse_Bucket pos_elem;
      if r then hopscotch_reverse_elems bucket_pos bucket_init rest
      else
        do d <- Distance_to_Entry_Bin pos_elem;
        let bucket_elem := wrp (pos_elem - d) in
        if bucket_elem =? bucket_pos
        then hopscotch_reverse_elems bucket_pos bucket_init rest
        else
          do count_empty <- Count_Empty (wrp (bucket_elem + 1 - NUM_ELEMS_BUCKET));
          if count_empty =? 0
          then hopscotch_reverse_elems bucket_pos bucket_init rest
          else
            do count_elems <- Count_Elems_In_Bucket_Non_Reversed bucket_elem;
            do count_empty <- credit_empty bucket_elem count_empty;
            if count_elems <=? count_empty then
              run Reverse_Bucket bucket_elem;
              do (min1, pos1) <- Calculate_Minimum bucket_init;
              if min1 =? 0 then ret (Some pos1) else ret None
            else hopscotch_reverse_elems bucket_pos bucket_init rest
  end.

(** The search for the element to swap with the blank:
    [for (; (pos_blank - pos_swap) > (B - 1 - Distance(pos_swap)); pos_swap++)]. *)
Fixpoint find_swap (fuel : nat) (pos_blank pos_swap : Z) : Mt Z :=
  do d <- Distance_to_Entry_Bin pos_swap;
  if wrp (NUM_ELEMS_BUCKET - 1 - d) <? wrp (pos_blank - pos_swap) then
    match fuel with
    | O => diverge
    | S fuel' => find_swap fuel' pos_blank (wrp (pos_swap + 1))
    end
  else ret pos_swap.

(** [while ((pos_blank - bucket_init) >= B)]: walk the blank toward the
    bucket. When the swap candidate is the blank itself the source
    makes no progress; the budget then runs out. *)
Fixpoint move_blank (fuel : nat) (bucket_init pos_blank : Z) : Mt Z :=
  if NUM_ELEMS_BUCKET <=? wrp (pos_blank - bucket_init) then
    match fuel with
    | O => diverge
    | S fuel' =>
        do pos_swap <- find_swap (Z.to_nat NUM_ELEMS_BUCKET) pos_blank
                              (wrp (pos_blank + 1 - NUM_ELEMS_BUCKET));
        run MoveElem pos_blank pos_swap;
        do d <- Distance_to_Entry_Bin pos_swap;
        do r <- Is_Item_In_Reverse_Bucket pos_swap;
        do label <- Get_Label pos_swap;
        do hash <- Get_Hash pos_swap;
        run Update_Bin_At pos_blank (wrp (d + wrp (pos_blank - pos_swap))) r label hash;
        move_blank fuel' bucket_init pos_swap
    end
  else ret pos_blank.

(** Third part: the hopscotch scan
    [for (i = 0; i <= max_dist_to_move && bucket_init + i < num_buckets; i++)]. *)
Fixpoint hopscotch_scan (fuel : nat) (bucket_init i max_dist_to_move : Z) : Mt Z :=
  do n <- get_num_buckets;
  if (i <=? max_dist_to_move) && (wrp (bucket_init + i) <? n) then
    match fuel with
    | O => diverge
    | S fuel' =>
        do e <- Is_Empty (wrp (bucket_init + i));
        if e then
          do mfuel <- loop_fuel;
          move_blank mfuel bucket_init (wrp (bucket_init + i))
        else
          do d <- Distance_to_Entry_Bin (wrp (bucket_init + i));
          let current_max_move := wrp (i + NUM_ELEMS_BUCKET - 1 - d) in
          hopscotch_scan fuel' bucket_init (wrp (i + 1))
            (if max_dist_to_move <? current_max_move
             then current_max_move else max_dist_to_move)
    end
  else ret (SIZE_MAX tg).

Definition Find_Empty_Pos_Hopscotch (bucket_pos bucket_init : Z) : Mt Z :=
  do r1 <- hopscotch_reverse_bucket bucket_pos bucket_init;
  match r1 with
  | inl pos => ret pos
  | inr bucket_init =>
      do r2 <- (if 2 * NUM_ELEMS_BUCKET <=? bucket_init
             then hopscotch_reverse_elems bucket_pos bucket_init
                    (seqZ 0 NUM_ELEMS_BUCKET)
             else ret None);
      match r2 with
      | Some pos => ret pos
      | None =>
          do fuel <- loop_fuel;
          hopscotch_scan fuel bucket_init 0 (wrp (NUM_ELEMS_BUCKET - 1))
      end
  end.

(** ** [try_insert] *)

(** Start of the window of the bucket anchored at [bucket_pos]. *)
Definition bucket_init_of (bucket_pos : Z) (is_reversed : bool) : Z :=
  wrp (bucket_pos + (if is_reversed then wrp (1 - NUM_ELEMS_BUCKET) else 0)).

(** The joint scan for the minimum label of both windows. *)
Definition minimum_labels (bucket1_init bucket2_init : Z)
    : Mt ((Z * Z) * (Z * Z)) :=
  do min1 <- Get_Label bucket1_init;
  do min2 <- Get_Label bucket2_init;
  foldM (fun '((min1, pos1), (min2, pos2)) i =>
           let current_pos1 := wrp (bucket1_init + i) in
           let current_pos2 := wrp (bucket2_init + i) in
           do label_value1 <- Get_Label current_pos1;
           do label_value2 <- Get_Label current_pos2;
           ret (if label_value1 <? min1 then (label_value1, current_pos1)
                else (min1, pos1),
                if label_value2 <? min2 then (label_value2, current_pos2)
                else (min2, pos2)))
        ((min1, bucket1_init), (min2, bucket2_init))
        (seqZ 1 (NUM_ELEMS_BUCKET - 1)).

(** [Update_Bin_At; SaveElem; num_elems++; return true]. *)
Definition place (pos bucket_init : Z) (is_reversed : bool) (label hash : Z)
    (elem : INSERT_TYPE) : Mt (Round INSERT_TYPE) :=
  run Update_Bin_At pos (wrp (pos - bucket_init)) is_reversed label hash;
  run SaveElem pos elem;
  run incr_num_elems;
  ret Inserted.

(** [Update_Bin_At; victim = GetElem; SaveElem; elem = victim]. *)
Definition evict (pos bucket_init : Z) (is_reversed : bool) (label hash : Z)
    (elem : INSERT_TYPE) : Mt (Round INSERT_TYPE) :=
  run Update_Bin_At pos (wrp (pos - bucket_init)) is_reversed label hash;
  do victim <- GetElem pos;
  run SaveElem pos elem;
  ret (Evicted victim).

(** The secondary hopscotch, tried above 90% load. [true] when the
    element was placed. *)
Definition secondary_hopscotch (bucket1_pos bucket2_pos bucket2_init min1 hash0 : Z)
    (elem : INSERT_TYPE) : Mt bool :=
  do n <- get_num_buckets;
  do ne <- get_num_elems;
  if wrp (9 * n) <? wrp (ne * 10) then
    do empty_pos <- Find_Empty_Pos_Hopscotch bucket2_pos bucket2_init;
    if empty_pos =? SIZE_MAX tg then ret false
    else
      run Set_Unlucky_Bucket bucket1_pos;
      do is_reversed_bucket2 <- Is_Bucket_Reversed bucket2_pos;
      let bucket2_init := bucket_init_of bucket2_pos is_reversed_bucket2 in
      run place empty_pos bucket2_init is_reversed_bucket2
                (Z.min (min1 + 1) L_MAX) hash0 elem;
      ret true
  else ret false.

(** The terminating condition and the eviction that ends an iteration. *)
Definition evict_or_fail (bucket1_pos bucket1_init bucket2_init : Z)
    (is_reversed_bucket1 is_reversed_bucket2 : bool)
    (min1 pos1 min2 pos2 hash0 hash1 : Z) (elem : INSERT_TYPE)
    : Mt (Round INSERT_TYPE) :=
  if L_MAX <=? Z.min min1 min2 then ret Failed
  else if min1 <=? min2 then
    evict pos1 bucket1_init is_reversed_bucket1 (Z.min (min2 + 1) L_MAX) hash1 elem
  else
    run Set_Unlucky_Bucket bucket1_pos;
    evict pos2 bucket2_init is_reversed_bucket2 (Z.min (min1 + 1) L_MAX) hash0 elem.

(** One iteration of the [while (true)] of [try_insert]. *)
Definition try_insert_round (elem : INSERT_TYPE) : Mt (Round INSERT_TYPE) :=
  let '(hash0, hash1) := hash_elem (key_of elem) in
  do n <- get_num_buckets;
  let bucket1_pos := fastrange tg hash0 n in
  let bucket2_pos := fastrange tg hash1 n in
  do is_reversed_bucket1 <- Is_Bucket_Reversed bucket1_pos;
  do is_reversed_bucket2 <- Is_Bucket_Reversed bucket2_pos;
  let bucket1_init := bucket_init_of bucket1_pos is_reversed_bucket1 in
  let bucket2_init := bucket_init_of bucket2_pos is_reversed_bucket2 in
  do mins <- minimum_labels bucket1_init bucket2_init;
  let '((min1, pos1), (min2, pos2)) := mins in
  if min1 =? 0 then
    place pos1 bucket1_init is_reversed_bucket1 (Z.min (min2 + 1) L_MAX) hash1 elem
  else
    do empty_pos <- Find_Empty_Pos_Hopscotch bucket1_pos bucket1_init;
    if negb (empty_pos =? SIZE_MAX tg) then
      do is_reversed_bucket1 <- Is_Bucket_Reversed bucket1_pos;
      let bucket1_init := bucket_init_of bucket1_pos is_reversed_bucket1 in
      place empty_pos bucket1_init is_reversed_bucket1
            (Z.min (min2 + 1) L_MAX) hash1 elem
    else if min2 =? 0 then
      run Set_Unlucky_Bucket bucket1_pos;
      place pos2 bucket2_init is_reversed_bucket2 (Z.min (min1 + 1) L_MAX) hash0 elem
    else
      do placed <- secondary_hopscotch bucket1_pos bucket2_pos bucket2_init
                                       min1 hash0 elem;
      if placed then ret Inserted
      else
        evict_or_fail bucket1_pos bucket1_init bucket2_init
                      is_reversed_bucket1 is_reversed_bucket2
                      min1 pos1 min2 pos2 hash0 hash1 elem.

(** [try_insert]: the result and the final content of the reference
    parameter [elem]. [fuel] bounds the number of iterations. *)
Fixpoint try_insert (fuel : nat) (elem : INSERT_TYPE) : Mt (bool * INSERT_TYPE) :=
  match fuel with
  | O => diverge
  | S fuel' =>
      do r <- try_insert_round elem;
      match r with
      | Inserted => ret (true, elem)
      | Failed => ret (false, elem)
      | Evicted victim => try_insert fuel' victim
      end
  end.

(** ** [rehash] *)

Definition realloc_arrays (new_num_bins : Z) : Mt unit :=
  fun t => Ok (tt, mkCBG (resize (metadata t) (alloc_bins ly new_num_bins) 0)
                         (resize (elems t) (alloc_bins ly new_num_bins) junk)
                         (num_elems t) (num_buckets t)
                         (_max_load_factor t) (_grow_factor t)).

(** [for (i = 0; i < B - 1; i++) Set_Bucket_Reversed(num_buckets - 1 - i)] *)
Definition reverse_last_buckets : Mt unit :=
  do n <- get_num_buckets;
  foldM (fun (_ : unit) i => Set_Bucket_Reversed (wrp (n - 1 - i))) tt
        (seqZ 0 (wrp (NUM_ELEMS_BUCKET - 1))).

(** The body of the sweep for an occupied cell [i]: move it to its
    primary bucket in the new table when that lies above [i], else put
    it on the temporary list. *)
Definition rehash_cell (i : Z) (secondary_tmp : list INSERT_TYPE)
    : Mt (list INSERT_TYPE) :=
  do k <- GetKey i;
  let '(hash0, hash1) := hash_elem k in
  do n <- get_num_buckets;
  let bucket1_pos := fastrange tg hash0 n in
  do rev <- Is_Bucket_Reversed bucket1_pos;
  let bucket1_pos_init := bucket_init_of bucket1_pos rev in
  do item_is_moved <-
    (if i <? bucket1_pos_init then
       do (min1, pos1) <- Calculate_Minimum bucket1_pos_init;
       if min1 =? 0 then
         run Update_Bin_At pos1 (wrp (pos1 - bucket1_pos_init)) false 1 hash1;
         run MoveElem pos1 i;
         run incr_num_elems;
         ret true
       else ret false
     else ret false);
  if item_is_moved then ret secondary_tmp
  else do e <- GetElem i; ret (e :: secondary_tmp).

(** [for (i = old_num_buckets - 1; i > 0; i--)] *)
Fixpoint rehash_sweep (fuel : nat) (i : Z) (secondary_tmp : list INSERT_TYPE)
    : Mt (list INSERT_TYPE) :=
  if 0 <? i then
    match fuel with
    | O => diverge
    | S fuel' =>
        do e <- Is_Empty i;
        do secondary_tmp <-
          (if e then ret secondary_tmp else rehash_cell i secondary_tmp);
        run Clear i 1;
        rehash_sweep fuel' (wrp (i - 1)) secondary_tmp
    end
  else ret secondary_tmp.

(** [while (!secondary_tmp.empty() && !need_rehash)]; the head of the
    list is [secondary_tmp.back()]. *)
Fixpoint rehash_drain (fuel : nat) (secondary_tmp : list INSERT_TYPE)
    : Mt (list INSERT_TYPE * bool) :=
  match secondary_tmp with
  | [] => ret ([], false)
  | elem :: rest =>
      do (ok, elem') <- try_insert fuel elem;
      if ok then rehash_drain fuel rest
      else ret (elem' :: rest, true)
  end.

(** [while (need_rehash)] *)
Fixpoint rehash_loop (fuel tfuel : nat) (new_num_buckets : Z)
    (secondary_tmp : list INSERT_TYPE) : Mt unit :=
  match fuel with
  | O => diverge
  | S fuel' =>
      do old_num_buckets <- get_num_buckets;
      run set_num_buckets new_num_buckets;
      let next_num_buckets :=
        wrp (new_num_buckets + Z.max 1 (new_num_buckets / 128)) in
      run realloc_arrays new_num_buckets;
      run (if old_num_buckets =? 0 then Clear 0 new_num_buckets
           else Clear old_num_buckets (wrp (new_num_buckets - old_num_buckets)));
      run set_num_elems 0;
      run reverse_last_buckets;
      do secondary_tmp <-
        rehash_sweep (S (Z.to_nat old_num_buckets)) (wrp (old_num_buckets - 1))
                     secondary_tmp;
      do e <- Is_Empty 0;
      do secondary_tmp <-
        (if e then ret secondary_tmp
         else do el <- GetElem 0; ret (el :: secondary_tmp));
      run Clear 0 1;
      do (secondary_tmp, need_rehash) <- rehash_drain tfuel secondary_tmp;
      if need_rehash
      then rehash_loop fuel' tfuel next_num_buckets secondary_tmp
      else ret tt
  end.

Definition rehash (fuel : nat) (new_num_buckets : Z) : Mt unit :=
  do n <- get_num_buckets;
  if new_num_buckets <=? n then ret tt
  else rehash_loop fuel fuel new_num_buckets [].

Definition get_grow_size : Mt Z :=
  fun t =>
    let n := num_buckets t in
    match F32.to_Z (F32.mul (F32.of_Z n) (_grow_factor t)) with
    | Some grown =>
        if (0 <=? grown) && (grown <? SIZE_MOD tg) then
          let new_num_buckets := Z.max (wrp (n + MIN_BINS_SIZE)) grown in
          Ok (if new_num_buckets <? n then SIZE_MAX tg else new_num_buckets, t)
        else UB
    | None => UB
    end.

(** ** Constructors *)

Definition default_max_load_factor : spec_float := F32.lit 9001 10000.
Definition default_grow_factor : spec_float := F32.lit 11 10.

Definition CBG_IMPL_default : T :=
  mkCBG [] [] 0 0 default_max_load_factor default_grow_factor.

Definition CBG_IMPL_sized (expected_num_elems : Z) : result T :=
  let n := Z.max MIN_BINS_SIZE (wrp expected_num_elems) in
  let t := mkCBG (replicate (Z.to_nat (alloc_bins ly n)) 0)
                 (replicate (Z.to_nat (alloc_bins ly n)) junk)
                 0 n default_max_load_factor default_grow_factor in
  match reverse_last_buckets t with
  | Ok (_, t') => Ok t'
  | UB => UB
  | OutOfFuel => OutOfFuel
  end.

(** ** Lookup *)

(** The test applied to a probed cell. In the struct-of-arrays variant
    the stored hash byte is compared first; the order of the remaining
    two tests differs between the first and the second bucket. *)
Definition hit_SoA_first (h cc pos : Z) (elem : KEY_TYPE) : Mt bool :=
  if Z.land (Z.lxor cc h) 65280 =? 0 then
    do c <- cmp_elems pos elem;
    ret (c && negb (Z.land cc 7 =? 0))
  else ret false.

Definition hit_SoA_second (h cc pos : Z) (elem : KEY_TYPE) : Mt bool :=
  if (Z.land (Z.lxor cc h) 65280 =? 0) && negb (Z.land cc 7 =? 0)
  then cmp_elems pos elem
  else ret false.

Definition hit_AoS (cc pos : Z) (elem : KEY_TYPE) : Mt bool :=
  do c <- cmp_elems pos elem;
  ret (c && negb (Z.land cc 7 =? 0)).

(** [pos += reverse_sum; cc = at(pos); if (hit) return pos;] *)
Definition probe_next (hit : Z -> Z -> KEY_TYPE -> Mt bool)
    (pos reverse_sum : Z) (elem : KEY_TYPE) : Mt (Z * bool) :=
  let pos := wrp (pos + reverse_sum) in
  do cc <- md_at pos;
  do b <- hit cc pos elem;
  ret (pos, b).

(** The probe of one bucket: the anchor cell, then up to [B - 1] more
    cells in the direction given by the anchor's reversed bit. The
    result is the position of the hit, or [SIZE_MAX], together with the
    anchor's metadata word. *)
Definition probe_bucket (hit : Z -> Z -> KEY_TYPE -> Mt bool)
    (pos : Z) (elem : KEY_TYPE) : Mt (Z * Z) :=
  do c0 <- md_at pos;
  do b <- hit c0 pos elem;
  if b then ret (pos, c0)
  else
    let reverse_sum := if Z.land c0 64 =? 0 then 1 else SIZE_MAX tg in
    do (pos, b) <- probe_next hit pos reverse_sum elem;
    if b then ret (pos, c0)
    else
      do (pos, b) <- (if 2 <? NUM_ELEMS_BUCKET
                      then probe_next hit pos reverse_sum elem
                      else ret (pos, false));
      if b then ret (pos, c0)
      else
        do (pos, b) <- (if 3 <? NUM_ELEMS_BUCKET
                        then probe_next hit pos reverse_sum elem
                        else ret (pos, false));
        if b then ret (pos, c0)
        else ret (SIZE_MAX tg, c0).

(** The common shape of both variants: the first bucket, and the second
    one only when the first anchor carries the unlucky bit. *)
Definition find_two_buckets (hit1 hit2 : Z -> Z -> KEY_TYPE -> Mt bool)
    (hash0 hash1 : Z) (elem : KEY_TYPE) : Mt Z :=
  do n <- get_num_buckets;
  do (pos, c0) <- probe_bucket hit1 (fastrange tg hash0 n) elem;
  if negb (pos =? SIZE_MAX tg) then ret pos
  else if negb (Z.land c0 128 =? 0) then
    do (pos, _cc) <- probe_bucket hit2 (fastrange tg hash1 n) elem;
    ret pos
  else ret (SIZE_MAX tg).

Definition find_position_SoA (elem : KEY_TYPE) : Mt Z :=
  let '(hash0, hash1) := hash_elem elem in
  find_two_buckets (hit_SoA_first (hash1 mod 2 ^ 16))
                   (hit_SoA_second (hash0 mod 2 ^ 16)) hash0 hash1 elem.

Definition find_position_AoS (elem : KEY_TYPE) : Mt Z :=
  let '(hash0, hash1) := hash_elem elem in
  find_two_buckets hit_AoS hit_AoS hash0 hash1 elem.

Definition find_position (elem : KEY_TYPE) : Mt Z :=
  if IS_SoA ly then find_position_SoA elem else find_position_AoS elem.

(** ** Public operations *)

Definition capacity : Mt Z := get_num_buckets.

Definition size : Mt Z := get_num_elems.

Definition empty : Mt bool := do n <- get_num_elems; ret (n =? 0).

Definition clear : Mt unit :=
  run set_num_elems 0;
  do n <- get_num_buckets;
  run Clear 0 n;
  reverse_last_buckets.


Definition set_max_load_factor (value : spec_float) : Mt unit :=
  fun t => Ok (tt, mkCBG (metadata t) (elems t) (num_elems t) (num_buckets t)
                         value (_grow_factor t)).

Definition max_load_factor : Mt spec_float :=
  fun t => Ok (_max_load_factor t, t).

Definition set_grow_factor (value : spec_float) : Mt unit :=
  fun t => Ok (tt, mkCBG (metadata t) (elems t) (num_elems t) (num_buckets t)
                         (_max_load_factor t) value).

Definition grow_factor : Mt spec_float :=
  fun t => Ok (_grow_factor t, t).


(** [num_elems >= num_buckets * _max_load_factor] *)
Definition load_reached : Mt bool :=
  fun t => Ok (F32.geb (F32.of_Z (num_elems t))
                       (F32.mul (F32.of_Z (num_buckets t)) (_max_load_factor t)), t).

(** [while (!try_insert(elem)) rehash(get_grow_size());] *)
Fixpoint insert_loop (fuel tfuel : nat) (elem : INSERT_TYPE) : Mt unit :=
  match fuel with
  | O => diverge
  | S fuel' =>
      do (ok, elem') <- try_insert tfuel elem;
      if ok then ret tt
      else
        do g <- get_grow_size;
        run rehash tfuel g;
        insert_loop fuel' tfuel elem'
  end.

Definition insert (fuel : nat) (to_insert_elem : INSERT_TYPE) : Mt unit :=
  do full <- load_reached;
  run (if full then do g <- get_grow_size; rehash fuel g else ret tt);
  insert_loop fuel fuel to_insert_elem.

Definition count (elem : KEY_TYPE) : Mt Z :=
  do pos <- find_position elem;
  ret (if negb (pos =? SIZE_MAX tg) then 1 else 0).

Definition erase (elem : KEY_TYPE) : Mt Z :=
  do elem_pos <- find_position elem;
  if negb (elem_pos =? SIZE_MAX tg) then
    run Set_Empty elem_pos;
    ret 1
  else ret 0.

(** The destructor called by [shrink]: the arrays are freed. *)
Definition shrink : Mt unit :=
  fun t => Ok (tt, mkCBG [] [] 0 0 (_max_load_factor t) (_grow_factor t)).

(** ** Observations used by the specifications *)

(** Number of cells whose label is not zero. *)
Definition occupied_cells (t : T) : Z :=
  Z.of_nat (length (filter (fun w => Meta.Get_Label w <> 0) (metadata t))).

(** Sum of the labels of all cells. *)
Definition sum_labels (md : list Z) : Z :=
  foldr (fun w acc => Meta.Get_Label w + acc) 0 md.

End CBG_IMPL.

(* ===================================================================== *)
(** * The map facade [CBG_MAP_IMPL] *)
(* ===================================================================== *)

Section CBG_MAP_IMPL.

Context {KEY VALUE : Type}.

Variable tg : Target.
Variable ly : Layout.
Variable NUM_ELEMS_BUCKET : Z.
Variable HASHER : KEY -> Z * Z.
Variable EQ : KEY -> KEY -> bool.
Variable junk : KEY * VALUE.
(** The value-initialised [T()]. *)
Variable T_default : VALUE.

Abbreviation Mm := (M (KEY * VALUE)).

Definition map_find_position : KEY -> Mm Z :=
  find_position tg ly NUM_ELEMS_BUCKET fst HASHER EQ.

Definition map_insert (fuel : nat) : KEY * VALUE -> Mm unit :=
  insert tg ly NUM_ELEMS_BUCKET fst HASHER junk fuel.

(** [*DATA::GetValue(pos)] read as a value. *)
Definition GetValue (pos : Z) : Mm VALUE :=
  do e <- GetElem pos; ret (snd e).

(** [operator[]]: the position of the cell the returned reference
    designates. *)
Definition index (fuel : nat) (key : KEY) : Mm Z :=
  do key_pos <- map_find_position key;
  if key_pos =? SIZE_MAX tg then
    run map_insert fuel (key, T_default);
    map_find_position key
  else ret key_pos.

(** [at], with the returned reference read on the spot; [None] stands
    for the [std::out_of_range] exception. *)
Definition at_ (key : KEY) : Mm (option VALUE) :=
  do key_pos <- map_find_position key;
  if key_pos =? SIZE_MAX tg then ret None
  else do v <- GetValue key_pos; ret (Some v).

End CBG_MAP_IMPL.

(* ===================================================================== *)
(** * Specification vocabulary *)
(* ===================================================================== *)

(** Sequencing of calls on a table that may already have failed. *)
Definition and_then {I A : Type} (r : result (CBG I)) (m : M I A)
    : result (A * CBG I) :=
  match r with
  | Ok t => m t
  | UB => UB
  | OutOfFuel => OutOfFuel
  end.

Definition state_of {I A : Type} (r : result (A * CBG I)) : result (CBG I) :=
  match r with
  | Ok (_, t) => Ok t
  | UB => UB
  | OutOfFuel => OutOfFuel
  end.

Definition value_of {I A : Type} (r : result (A * CBG I)) : option A :=
  match r with
  | Ok (a, _) => Some a
  | _ => None
  end.

(** An observation of the table a run ended with. *)
Definition table_view {I A : Type} (f : CBG I -> A) (r : result (CBG I)) : option A :=
  match r with
  | Ok t => Some (f t)
  | _ => None
  end.

(** The metadata word of cell [pos], [0] outside the array. *)
Definition word_at {I : Type} (t : CBG I) (pos : Z) : Z :=
  default 0 (read (metadata t) pos).

Definition label_at {I : Type} (t : CBG I) (pos : Z) : Z :=
  Meta.Get_Label (word_at t pos).

(** The window of the bucket anchored at [p] lies inside the table. *)
Definition window_in_range (NUM_ELEMS_BUCKET n p w : Z) : bool :=
  if Meta.Is_Bucket_Reversed w
  then NUM_ELEMS_BUCKET - 1 <=? p
  else p + NUM_ELEMS_BUCKET - 1 <? n.

(** The shape every operation relies on: a legal bucket width, arrays
    that cover the table, and every bucket window inside the table. *)
Definition well_formed {I : Type} (tg : Target) (NUM_ELEMS_BUCKET : Z)
    (t : CBG I) : bool :=
  (2 <=? NUM_ELEMS_BUCKET) && (NUM_ELEMS_BUCKET <=? 4)
  && (0 <? num_buckets t) && (num_buckets t <? SIZE_MOD tg)
  && (num_buckets t <=? Z.of_nat (length (metadata t)))
  && (num_buckets t <=? Z.of_nat (length (elems t)))
  && forallb (fun p => match read (metadata t) p with
                       | Some w => window_in_range NUM_ELEMS_BUCKET (num_buckets t) p w
                       | None => false
                       end)
             (seqZ 0 (num_buckets t)).

(** No cell of the table is empty. *)
Definition full_table {I : Type} (t : CBG I) : bool :=
  forallb (fun p => negb (label_at t p =? 0)) (seqZ 0 (num_buckets t)).

(** [pos] is one of the [B] cells from [start] on. *)
Definition in_window (NUM_ELEMS_BUCKET start pos : Z) : Prop :=
  start <= pos < start + NUM_ELEMS_BUCKET.

(** [m] is the least label among the [B] cells from [start] on, and one
    of them carries it. *)
Definition window_min_label {I : Type} (tg : Target) (NUM_ELEMS_BUCKET : Z)
    (t : CBG I) (start m : Z) : Prop :=
  (exists i, 0 <= i < NUM_ELEMS_BUCKET /\ label_at t (wrap tg (start + i)) = m) /\
  (forall i, 0 <= i < NUM_ELEMS_BUCKET -> m <= label_at t (wrap tg (start + i))).


(** The probe of the first bucket as [find_position] performs it: the
    position of the hit or [SIZE_MAX], and the anchor's metadata word. *)
Definition first_bucket_probe {I K : Type} (tg : Target) (ly : Layout)
    (NUM_ELEMS_BUCKET : Z) (key_of : I -> K) (HASHER : K -> Z * Z)
    (EQ : K -> K -> bool) (elem : K) : M I (Z * Z) :=
  let '(hash0, hash1) := hash_elem tg HASHER elem in
  do n <- get_num_buckets;
  probe_bucket tg NUM_ELEMS_BUCKET
    (if IS_SoA ly then hit_SoA_first key_of EQ (hash1 mod 2 ^ 16)
     else hit_AoS key_of EQ)
    (fastrange tg hash0 n) elem.


(** The element in hand and the table after [k] iterations of
    [try_insert] that all ended in an eviction. *)
Fixpoint after_evictions {I K : Type} (tg : Target) (ly : Layout)
    (NUM_ELEMS_BUCKET : Z) (key_of : I -> K) (HASHER : K -> Z * Z)
    (k : nat) (elem : I) (t : CBG I) : option (I * CBG I) :=
  match k with
  | O => Some (elem, t)
  | S k' =>
      match try_insert_round tg ly NUM_ELEMS_BUCKET key_of HASHER elem t with
      | Ok (Evicted victim, t') =>
          after_evictions tg ly NUM_ELEMS_BUCKET key_of HASHER k' victim t'
      | _ => None
      end
  end.

(** A set filled by inserting the given keys one after the other. *)
Definition set_of_keys (tg : Target) (ly : Layout) (NUM_ELEMS_BUCKET : Z)
    (HASHER : Z -> Z * Z) (fuel : nat) (start : result (CBG Z)) (keys : list Z)
    : result (CBG Z) :=
  fold_left (fun r k =>
               state_of (and_then r (insert tg ly NUM_ELEMS_BUCKET id HASHER 0 fuel k)))
            keys start.

(** ** Properties of computations and of single steps *)

(** A computation that never changes the table. *)
Definition readonly {I A : Type} (m : M I A) : Prop :=
  forall t a t', m t = Ok (a, t') -> t' = t.

(** A computation that never runs out of loop budget. *)
Definition fuel_free {I A : Type} (m : M I A) : Prop :=
  forall t, m t <> OutOfFuel.

(** A cell test that succeeds on every cell of the payload array. *)
Definition hit_total {I K : Type} (hit : Z -> Z -> K -> M I bool) (e : K)
    (t : CBG I) : Prop :=
  forall cc pos, 0 <= pos < Z.of_nat (length (elems t)) ->
    exists b, hit cc pos e t = Ok (b, t).

(** The running minimum of one window. *)
Definition min_so_far {I : Type} (tg : Target) (t : CBG I) (start : Z) (done : list Z) (m p : Z) : Prop :=
  label_at t p = m /\
  (p = start \/ exists i, i ∈ done /\ p = wrap tg (start + i)) /\
  m <= label_at t start /\
  (forall i, i ∈ done -> m <= label_at t (wrap tg (start + i))).

(** What a placement or an eviction at [pos] leaves behind: the cell
    holds [elem] under the label [label], no other cell has changed. *)
Definition written {I : Type} (tg : Target) (ly : Layout) (t t' : CBG I)
    (pos label : Z) (elem : I) : Prop :=
  (exists w d r hash,
     read (metadata t) pos = Some w /\
     read (metadata t') pos = Some (Meta.Update_Bin tg ly w d r label hash)) /\
  read (elems t') pos = Some elem /\
  (forall q, q <> pos -> read (metadata t') q = read (metadata t) q /\
                         read (elems t') q = read (elems t) q) /\
  num_buckets t' = num_buckets t.

(** The cases of one iteration of [try_insert], in source order. *)
Inductive round_case {I : Type} (tg : Target) (ly : Layout) (B : Z)
    (elem : I) (t t' : CBG I) (r : Round I)
    (b1p b2p b1i b2i : Z) (rev1 rev2 : bool) (min1 pos1 min2 pos2 h0 h1 : Z) : Prop :=
| case_primary_free :
    min1 = 0 ->
    place tg ly pos1 b1i rev1 (Z.min (min2 + 1) L_MAX) h1 elem t = Ok (r, t') ->
    round_case tg ly B elem t t' r b1p b2p b1i b2i rev1 rev2 min1 pos1 min2 pos2 h0 h1
| case_primary_hopscotch empty_pos t1 rev1' :
    min1 <> 0 ->
    Find_Empty_Pos_Hopscotch tg ly B b1p b1i t = Ok (empty_pos, t1) ->
    empty_pos <> SIZE_MAX tg ->
    Is_Bucket_Reversed b1p t1 = Ok (rev1', t1) ->
    place tg ly empty_pos (bucket_init_of tg B b1p rev1') rev1'
          (Z.min (min2 + 1) L_MAX) h1 elem t1 = Ok (r, t') ->
    round_case tg ly B elem t t' r b1p b2p b1i b2i rev1 rev2 min1 pos1 min2 pos2 h0 h1
| case_secondary_free t1 t2 :
    min1 <> 0 ->
    Find_Empty_Pos_Hopscotch tg ly B b1p b1i t = Ok (SIZE_MAX tg, t1) ->
    min2 = 0 ->
    Set_Unlucky_Bucket b1p t1 = Ok (tt, t2) ->
    place tg ly pos2 b2i rev2 (Z.min (min1 + 1) L_MAX) h0 elem t2 = Ok (r, t') ->
    round_case tg ly B elem t t' r b1p b2p b1i b2i rev1 rev2 min1 pos1 min2 pos2 h0 h1
| case_secondary_hopscotch t1 :
    min1 <> 0 ->
    Find_Empty_Pos_Hopscotch tg ly B b1p b1i t = Ok (SIZE_MAX tg, t1) ->
    min2 <> 0 ->
    secondary_hopscotch tg ly B b1p b2p b2i min1 h0 elem t1 = Ok (true, t') ->
    r = Inserted ->
    round_case tg ly B elem t t' r b1p b2p b1i b2i rev1 rev2 min1 pos1 min2 pos2 h0 h1
| case_evict_or_fail t1 t2 :
    min1 <> 0 ->
    Find_Empty_Pos_Hopscotch tg ly B b1p b1i t = Ok (SIZE_MAX tg, t1) ->
    min2 <> 0 ->
    secondary_hopscotch tg ly B b1p b2p b2i min1 h0 elem t1 = Ok (false, t2) ->
    evict_or_fail tg ly b1p b1i b2i rev1 rev2 min1 pos1 min2 pos2 h0 h1 elem t2
      = Ok (r, t') ->
    round_case tg ly B elem t t' r b1p b2p b1i b2i rev1 rev2 min1 pos1 min2 pos2 h0 h1.

(** ** Further vocabulary: shapes, probes and frames *)

(** The table [t] with its metadata array replaced. *)
Definition with_metadata {I : Type} (t : CBG I) (md : list Z) : CBG I :=
  mkCBG md (elems t) (num_elems t) (num_buckets t) (_max_load_factor t) (_grow_factor t).

(** The layouts that can be instantiated: a block holds at least one cell. *)
Definition layout_ok (ly : Layout) : Prop :=
  match ly with
  | AoB bs => 1 <= bs
  | _ => True
  end.

(** No cell of the table is occupied. *)
Definition no_cell_occupied {I : Type} (t : CBG I) : Prop :=
  forall p, label_at t p = 0.

(** The cell [pos] holds an element whose key compares equal to [k]
    under a non-zero label; in the struct-of-arrays layout its hash byte
    is moreover that of [h]. This is the test [find_position] applies to
    a probed cell. *)
Definition cell_matches {I K : Type} (ly : Layout) (key_of : I -> K)
    (EQ : K -> K -> bool) (h : Z) (t : CBG I) (pos : Z) (k : K) : Prop :=
  exists cc el,
    read (metadata t) pos = Some cc /\ read (elems t) pos = Some el /\
    Meta.Get_Label cc <> 0 /\ EQ (key_of el) k = true /\
    (IS_SoA ly = true -> Z.land (Z.lxor cc h) 65280 = 0).

(** The [k]-th cell the probe of the bucket anchored at [b] looks at:
    the anchor, then one cell up or, for a reversed bucket, down at a
    time. *)
Definition probe_cell {I : Type} (tg : Target) (t : CBG I) (b k : Z) : Z :=
  if k =? 0 then b
  else wrap tg (b + k * (if Meta.Is_Bucket_Reversed (word_at t b)
                         then SIZE_MAX tg else 1)).

(** What only [rehash] and the setters may change: the capacity, the
    sizes of the two arrays and the two parameters. *)
Definition table_shape {I : Type} (t : CBG I) : Z * nat * nat * spec_float * spec_float :=
  (num_buckets t, length (metadata t), length (elems t),
   _max_load_factor t, _grow_factor t).

(** A computation that hands back a table on which the observation [f]
    has not changed. *)
Definition preserves {I A X : Type} (f : CBG I -> X) (m : M I A) : Prop :=
  forall t a t', m t = Ok (a, t') -> f t' = f t.

(** ** Sample collaborators and tables *)

Module Sample.

Definition tgt : Target := Target64_msvc.

(** The identity hasher of the end-to-end scenarios,
    [H(x) = (x, x * 0x9E3779B97F4A7C15)]. *)
Definition H_id (x : Z) : Z * Z := (x, x * 11400714819323198485).

(** A hasher that spells the two anchors out of the key: in a table of
    [n = 2^k] cells the key [tag * n * n + a * n + b] has primary anchor
    [a] and secondary anchor [b]. *)
Definition H_anchor (k : Z) (key : Z) : Z * Z :=
  (((key / 2 ^ k) mod 2 ^ k) * 2 ^ (64 - k), (key mod 2 ^ k) * 2 ^ (64 - k)).

Definition anchored (k tag a b : Z) : Z := tag * 2 ^ k * 2 ^ k + a * 2 ^ k + b.

(** A hasher with primary anchor [key mod n] and secondary anchor
    [(key + n / 2) mod n], [n = 2^k]. *)
Definition H_shift (k : Z) (key : Z) : Z * Z :=
  ((key mod 2 ^ k) * 2 ^ (64 - k), ((key + 2 ^ (k - 1)) mod 2 ^ k) * 2 ^ (64 - k)).

Definition fuel : nat := 1000.

(** *** A map of 8 cells with buckets of 3, one insertion, one erasure *)

Definition map8 : result (CBG (Z * string)) :=
  CBG_IMPL_sized tgt AoS 3 (0, EmptyString) 8.

Definition map8_insert (kv : Z * string) : M (Z * string) unit :=
  map_insert tgt AoS 3 H_id (0, EmptyString) fuel kv.

Definition map8_erase (k : Z) : M (Z * string) Z :=
  erase tgt AoS 3 fst H_id Z.eqb k.

Definition map8_at (k : Z) : M (Z * string) (option string) :=
  at_ tgt AoS 3 H_id Z.eqb k.

Definition map8_size : M (Z * string) Z := size.

Definition map8_inserted : result (CBG (Z * string)) :=
  state_of (and_then map8 (map8_insert (7, "a"%string))).

Definition map8_erased : result (CBG (Z * string)) :=
  state_of (and_then map8_inserted (map8_erase 7)).

(** *** A map of 8 cells where a key is inserted twice

    The keys [8] and [73] share the primary anchor 1. *)

Definition dup_insert (kv : Z * Z) : M (Z * Z) unit :=
  map_insert tgt AoS 3 (H_anchor 3) (0, 0) fuel kv.

Definition dup_erase (k : Z) : M (Z * Z) Z :=
  erase tgt AoS 3 fst (H_anchor 3) Z.eqb k.


Definition dup_count (k : Z) : M (Z * Z) Z :=
  count tgt AoS 3 fst (H_anchor 3) Z.eqb k.

Definition dup_before : result (CBG (Z * Z)) :=
  let t0 := CBG_IMPL_sized tgt AoS 3 (0, 0) 8 in
  let t1 := state_of (and_then t0 (dup_insert (anchored 3 0 1 0, 10))) in
  let t2 := state_of (and_then t1 (dup_insert (anchored 3 1 1 1, 20))) in
  state_of (and_then t2 (dup_erase (anchored 3 0 1 0))).

Definition dup_after : result (CBG (Z * Z)) :=
  state_of (and_then dup_before (dup_insert (anchored 3 1 1 1, 30))).

(** *** A set of two cells holding one key *)


(** *** A full set of 4 cells with buckets of 2

    [max_load_factor(2.0f)] keeps [insert] from growing the table; the
    keys 0..3 fill it. *)

Definition tiny_full : result (CBG Z) :=
  set_of_keys tgt AoS 2 (H_shift 2) fuel
    (state_of (and_then (CBG_IMPL_sized tgt AoS 2 0 4)
                        (set_max_load_factor (F32.of_Z 2))))
    [0; 1; 2; 3].


(** The table twelve evictions into the insertion of the key 4, which
    is then the element in hand again. *)
Definition tiny_at_max : CBG Z :=
  mkCBG [135; 15; 143; 110] [2; 0; 1; 3] 4 4 (F32.of_Z 2) (F32.lit 11 10).

(** One eviction later, with the key 3 in hand. *)
Definition tiny_at_end : CBG Z :=
  mkCBG [135; 15; 143; 79] [2; 0; 1; 4] 4 4 (F32.of_Z 2) (F32.lit 11 10).

(** *** A full set of 16 cells with buckets of 3 *)

Definition full16 : result (CBG Z) :=
  set_of_keys tgt AoS 3 (H_shift 4) fuel
    (state_of (and_then (CBG_IMPL_sized tgt AoS 3 0 16)
                        (set_max_load_factor (F32.of_Z 2))))
    (seqZ 0 16).


(** The table [full16], written out. *)
Definition full16_table : CBG Z :=
  mkCBG [1; 1; 1; 1; 1; 1; 1; 1; 2; 2; 2; 2; 2; 2; 114; 114]
        [0; 1; 2; 3; 4; 5; 6; 7; 8; 9; 10; 11; 12; 13; 14; 15]
        16 16 (F32.of_Z 2) (F32.lit 11 10).

(** *** A set of 16 cells where a failed hopscotch reverses a neighbour

    Eleven insertions; the anchors of each key are spelled out. *)




(** *** A set of 4 cells grown to 8 by [reserve]

    In the table of 8 cells the key [c] has the primary anchor 4 and the
    secondary anchor 6; [a] and [b] have the primary anchor 6. *)




(** The table [dup_before], written out. *)
Definition dup_before_table : CBG (Z * Z) :=
  mkCBG [0; 0; 9; 0; 0; 0; 64; 64]
        [(0, 0); (8, 10); (73, 20); (0, 0); (0, 0); (0, 0); (0, 0); (0, 0)]
        2 8 (F32.lit 9001 10000) (F32.lit 11 10).

(** The table [dup_after], written out. *)
Definition dup_table : CBG (Z * Z) :=
  mkCBG [0; 1; 9; 0; 0; 0; 64; 64]
        [(0, 0); (73, 30); (73, 20); (0, 0); (0, 0); (0, 0); (0, 0); (0, 0)]
        3 8 (F32.lit 9001 10000) (F32.lit 11 10).

(** *** A fresh set of 4 cells, and the same grown to 5 by [reserve] *)

Definition fresh4 : CBG Z :=
  mkCBG [0; 0; 64; 64] [0; 0; 0; 0] 0 4 default_max_load_factor default_grow_factor.


End Sample.

(* ===================================================================== *)
(** * Arrays and the monad: basic facts *)
(* ===================================================================== *)

Lemma in_bounds_spec {A : Type} (l : list A) (pos : Z) :
  in_bounds l pos = true <-> 0 <= pos < Z.of_nat (length l).
Proof. unfold in_bounds. rewrite andb_true_iff. lia. Qed.

Lemma read_Some {A : Type} (l : list A) (pos : Z) (x : A) :
  read l pos = Some x <-> 0 <= pos < Z.of_nat (length l) /\ l !! Z.to_nat pos = Some x.
Proof.
  unfold read. destruct (in_bounds l pos) eqn:E.
  - apply in_bounds_spec in E. tauto.
  - split; [discriminate|]. intros [H _]. apply in_bounds_spec in H. congruence.
Qed.

Lemma read_in_range {A : Type} (l : list A) (pos : Z) :
  0 <= pos < Z.of_nat (length l) -> exists x, read l pos = Some x.
Proof.
  intros H. destruct (lookup_lt_is_Some_2 l (Z.to_nat pos)) as [x Hx]; [lia|].
  exists x. apply read_Some. auto.
Qed.

Lemma read_None {A : Type} (l : list A) (pos : Z) :
  read l pos = None <-> ~ (0 <= pos < Z.of_nat (length l)).
Proof.
  split.
  - intros H Hr. destruct (read_in_range l pos Hr) as [x Hx]. congruence.
  - intros H. destruct (read l pos) eqn:E; [|done].
    apply read_Some in E. tauto.
Qed.

Lemma write_Some {A : Type} (l l' : list A) (pos : Z) (x : A) :
  write l pos x = Some l' <->
  0 <= pos < Z.of_nat (length l) /\ l' = <[Z.to_nat pos := x]> l.
Proof.
  unfold write. destruct (in_bounds l pos) eqn:E.
  - apply in_bounds_spec in E. split; [intros [= <-]; auto | intros [_ ->]; auto].
  - split; [discriminate|]. intros [H _]. apply in_bounds_spec in H. congruence.
Qed.

Lemma write_in_range {A : Type} (l : list A) (pos : Z) (x : A) :
  0 <= pos < Z.of_nat (length l) -> write l pos x = Some (<[Z.to_nat pos := x]> l).
Proof. intros H. apply write_Some. auto. Qed.

Lemma write_length {A : Type} (l l' : list A) (pos : Z) (x : A) :
  write l pos x = Some l' -> length l' = length l.
Proof. intros H. apply write_Some in H as [_ ->]. apply length_insert. Qed.

Lemma read_write_same {A : Type} (l l' : list A) (pos : Z) (x : A) :
  write l pos x = Some l' -> read l' pos = Some x.
Proof.
  intros H. pose proof (write_length _ _ _ _ H) as Hl.
  apply write_Some in H as [Hr ->]. apply read_Some. split.
  - rewrite length_insert. lia.
  - apply list_lookup_insert_eq. lia.
Qed.

Lemma read_write_other {A : Type} (l l' : list A) (pos q : Z) (x : A) :
  write l pos x = Some l' -> q <> pos -> read l' q = read l q.
Proof.
  intros H Hq. apply write_Some in H as [Hr ->]. unfold read, in_bounds.
  rewrite length_insert.
  destruct ((0 <=? q) && (q <? Z.of_nat (length l))) eqn:E; [|done].
  apply andb_true_iff in E. apply list_lookup_insert_ne. lia.
Qed.

Lemma bind_Ok {I A B : Type} (m : M I A) (k : A -> M I B) t a t1 :
  m t = Ok (a, t1) -> bind m k t = k a t1.
Proof. unfold bind. intros ->. reflexivity. Qed.

Lemma bind_Ok_inv {I A B : Type} (m : M I A) (k : A -> M I B) t b t' :
  bind m k t = Ok (b, t') ->
  exists a t1, m t = Ok (a, t1) /\ k a t1 = Ok (b, t').
Proof.
  unfold bind. destruct (m t) as [[a t1]| |]; [|discriminate|discriminate].
  intros H. exists a, t1. auto.
Qed.

Lemma readonly_ret {I A : Type} (a : A) : readonly (ret (I:=I) a).
Proof. intros t a' t' [= _ <-]. reflexivity. Qed.

Lemma readonly_bind {I A B : Type} (m : M I A) (k : A -> M I B) :
  readonly m -> (forall a, readonly (k a)) -> readonly (bind m k).
Proof.
  intros Hm Hk t b t' H. apply bind_Ok_inv in H as (a & t1 & H1 & H2).
  apply Hm in H1 as ->. eapply Hk; eauto.
Qed.

Lemma fuel_free_ret {I A : Type} (a : A) : fuel_free (ret (I:=I) a).
Proof. intros t. discriminate. Qed.

Lemma fuel_free_bind {I A B : Type} (m : M I A) (k : A -> M I B) :
  fuel_free m -> (forall a, fuel_free (k a)) -> fuel_free (bind m k).
Proof.
  intros Hm Hk t. unfold bind. specialize (Hm t).
  destruct (m t) as [[a t1]| |]; [apply Hk|discriminate|congruence].
Qed.

Lemma readonly_md_at {I : Type} (pos : Z) : readonly (md_at (INSERT_TYPE:=I) pos).
Proof.
  intros t a t'. unfold md_at. destruct (read _ _); [|discriminate].
  intros [= _ <-]. reflexivity.
Qed.

Lemma fuel_free_md_at {I : Type} (pos : Z) : fuel_free (md_at (INSERT_TYPE:=I) pos).
Proof. intros t. unfold md_at. destruct (read _ _); discriminate. Qed.

Lemma readonly_GetElem {I : Type} (pos : Z) : readonly (GetElem (INSERT_TYPE:=I) pos).
Proof.
  intros t a t'. unfold GetElem. destruct (read _ _); [|discriminate].
  intros [= _ <-]. reflexivity.
Qed.

Lemma fuel_free_GetElem {I : Type} (pos : Z) : fuel_free (GetElem (INSERT_TYPE:=I) pos).
Proof. intros t. unfold GetElem. destruct (read _ _); discriminate. Qed.

Lemma md_at_Ok {I : Type} (t : CBG I) (pos w : Z) :
  read (metadata t) pos = Some w -> md_at pos t = Ok (w, t).
Proof. unfold md_at. intros ->. reflexivity. Qed.

Lemma md_at_inv {I : Type} (t t' : CBG I) (pos w : Z) :
  md_at pos t = Ok (w, t') -> read (metadata t) pos = Some w /\ t' = t.
Proof.
  unfold md_at. destruct (read _ _); [|discriminate]. intros [= -> <-]. auto.
Qed.

Lemma GetElem_Ok {I : Type} (t : CBG I) (pos : Z) (e : I) :
  read (elems t) pos = Some e -> GetElem pos t = Ok (e, t).
Proof. unfold GetElem. intros ->. reflexivity. Qed.

Lemma md_store_inv {I : Type} (t t' : CBG I) (pos w : Z) (u : unit) :
  md_store pos w t = Ok (u, t') ->
  write (metadata t) pos w = Some (metadata t') /\ elems t' = elems t /\
  num_elems t' = num_elems t /\ num_buckets t' = num_buckets t /\
  _max_load_factor t' = _max_load_factor t /\ _grow_factor t' = _grow_factor t.
Proof.
  unfold md_store. destruct (write _ _ _); [|discriminate].
  intros [= _ <-]. simpl. auto 10.
Qed.

Lemma SaveElem_inv {I : Type} (t t' : CBG I) (pos : Z) (e : I) (u : unit) :
  SaveElem pos e t = Ok (u, t') ->
  write (elems t) pos e = Some (elems t') /\ metadata t' = metadata t /\
  num_elems t' = num_elems t /\ num_buckets t' = num_buckets t /\
  _max_load_factor t' = _max_load_factor t /\ _grow_factor t' = _grow_factor t.
Proof.
  unfold SaveElem. destruct (write _ _ _); [|discriminate].
  intros [= _ <-]. simpl. auto 10.
Qed.

(* ===================================================================== *)
(** * The metadata codec: bit-level facts *)
(* ===================================================================== *)

Lemma land_pow2_testbit (w k : Z) :
  0 <= k -> Z.land w (2 ^ k) = if Z.testbit w k then 2 ^ k else 0.
Proof.
  intros Hk. apply Z.bits_inj'. intros n Hn.
  rewrite Z.land_spec, Z.pow2_bits_eqb by lia.
  destruct (Z.eqb_spec k n) as [->|Hne].
  - destruct (Z.testbit w n) eqn:E; simpl.
    + rewrite Z.pow2_bits_true by lia. reflexivity.
    + rewrite Z.bits_0. reflexivity.
  - rewrite andb_false_r. destruct (Z.testbit w k).
    + rewrite Z.pow2_bits_false by lia. reflexivity.
    + rewrite Z.bits_0. reflexivity.
Qed.

Lemma flag_testbit (w k : Z) :
  0 <= k -> negb (Z.land w (2 ^ k) =? 0) = Z.testbit w k.
Proof.
  intros Hk. rewrite land_pow2_testbit by lia.
  assert (0 < 2 ^ k) by (apply Z.pow_pos_nonneg; lia).
  destruct (Z.testbit w k); [|reflexivity].
  destruct (Z.eqb_spec (2 ^ k) 0); [lia|reflexivity].
Qed.

Lemma Is_Bucket_Reversed_testbit (w : Z) :
  Meta.Is_Bucket_Reversed w = Z.testbit w 6.
Proof. apply (flag_testbit w 6). lia. Qed.

Lemma Is_Unlucky_Bucket_testbit (w : Z) :
  Meta.Is_Unlucky_Bucket w = Z.testbit w 7.
Proof. apply (flag_testbit w 7). lia. Qed.

Lemma Is_Item_In_Reverse_Bucket_testbit (w : Z) :
  Meta.Is_Item_In_Reverse_Bucket w = Z.testbit w 5.
Proof. apply (flag_testbit w 5). lia. Qed.

Lemma Get_Label_range (w : Z) : 0 <= Meta.Get_Label w <= 7.
Proof.
  unfold Meta.Get_Label.
  replace (Z.land w 7) with (w mod 2 ^ 3) by (rewrite <- Z.land_ones by lia; reflexivity).
  pose proof (Z.mod_pos_bound w (2 ^ 3)). lia.
Qed.

Lemma Distance_to_Entry_Bin_range (w : Z) : 0 <= Meta.Distance_to_Entry_Bin w <= 3.
Proof.
  unfold Meta.Distance_to_Entry_Bin.
  replace (Z.land (Z.shiftr w 3) 3) with (Z.shiftr w 3 mod 2 ^ 2)
    by (rewrite <- Z.land_ones by lia; reflexivity).
  pose proof (Z.mod_pos_bound (Z.shiftr w 3) (2 ^ 2)). lia.
Qed.

Lemma testbit_small (x n k : Z) :
  0 <= x < 2 ^ k -> 0 <= k <= n -> Z.testbit x n = false.
Proof.
  intros Hx Hk. destruct (Z.eq_dec x 0) as [->|Hne]; [apply Z.bits_0|].
  apply Z.bits_above_log2; [lia|].
  assert (Z.log2 x < k) by (apply Z.log2_lt_pow2; lia). lia.
Qed.

Lemma Set_Empty_low_bits (w i : Z) :
  0 <= i <= 5 -> Z.testbit (Meta.Set_Empty w) i = false.
Proof.
  intros Hi. unfold Meta.Set_Empty. rewrite Z.land_spec.
  assert (i = 0 \/ i = 1 \/ i = 2 \/ i = 3 \/ i = 4 \/ i = 5) as H by lia.
  destruct H as [->|[->|[->|[->|[->| ->]]]]]; apply andb_false_r.
Qed.

Lemma Set_Empty_high_bits (w i : Z) :
  i = 6 \/ i = 7 -> Z.testbit (Meta.Set_Empty w) i = Z.testbit w i.
Proof.
  intros [-> | ->]; unfold Meta.Set_Empty; rewrite Z.land_spec; apply andb_true_r.
Qed.

Lemma Set_Empty_label (w : Z) : Meta.Get_Label (Meta.Set_Empty w) = 0.
Proof.
  unfold Meta.Get_Label, Meta.Set_Empty. rewrite <- Z.land_assoc. apply Z.land_0_r.
Qed.

Lemma Set_Empty_bucket_reversed (w : Z) :
  Meta.Is_Bucket_Reversed (Meta.Set_Empty w) = Meta.Is_Bucket_Reversed w.
Proof. rewrite !Is_Bucket_Reversed_testbit. apply Set_Empty_high_bits. auto. Qed.

Lemma Set_Empty_unlucky (w : Z) :
  Meta.Is_Unlucky_Bucket (Meta.Set_Empty w) = Meta.Is_Unlucky_Bucket w.
Proof. rewrite !Is_Unlucky_Bucket_testbit. apply Set_Empty_high_bits. auto. Qed.

Lemma Set_Unlucky_label (w : Z) :
  Meta.Get_Label (Meta.Set_Unlucky_Bucket w) = Meta.Get_Label w.
Proof.
  unfold Meta.Get_Label, Meta.Set_Unlucky_Bucket.
  rewrite Z.land_lor_distr_l. change (Z.land 128 7) with 0. apply Z.lor_0_r.
Qed.

Lemma Set_Unlucky_bucket_reversed (w : Z) :
  Meta.Is_Bucket_Reversed (Meta.Set_Unlucky_Bucket w) = Meta.Is_Bucket_Reversed w.
Proof.
  rewrite !Is_Bucket_Reversed_testbit. unfold Meta.Set_Unlucky_Bucket.
  rewrite Z.lor_spec. apply orb_false_r.
Qed.

(** The bits of the word written by [Update_Bin_At], below bit 8, for a
    legal distance and label. *)
Lemma Update_Bin_testbit tg ly w d r label hash n :
  0 <= d <= 3 -> 0 <= label <= 7 -> 0 <= n < 8 ->
  Z.testbit (Meta.Update_Bin tg ly w d r label hash) n =
  if n <? 3 then Z.testbit label n
  else if n <? 5 then Z.testbit d (n - 3)
  else if n =? 5 then r
  else Z.testbit w n.
Proof.
  intros Hd Hl Hn.
  assert (Hsh : Z.testbit (wrap tg (Z.shiftl d 3)) n = Z.testbit d (n - 3)).
  { unfold wrap, SIZE_MOD. rewrite Z.mod_pow2_bits_low by (destruct tg; simpl; lia).
    apply Z.shiftl_spec. lia. }
  assert (Hsh8 : Z.testbit (Z.shiftl (d mod 2 ^ 8) 3) n = Z.testbit d (n - 3)).
  { rewrite Z.mod_small by lia. apply Z.shiftl_spec. lia. }
  assert (Hlab : 3 <= n -> Z.testbit label n = false).
  { intros Hm. apply (testbit_small label n 3); lia. }
  assert (Hdis : n < 3 \/ 5 <= n -> Z.testbit d (n - 3) = false).
  { intros [Hm|Hm]; [apply Z.testbit_neg_r; lia|].
    apply (testbit_small d (n - 3) 2); lia. }
  assert (Hrev : Z.testbit (if r then 32 else 0) n = (n =? 5) && r).
  { destruct r; [|rewrite Z.bits_0, andb_false_r; reflexivity].
    change 32 with (2 ^ 5). rewrite Z.pow2_bits_eqb by lia.
    rewrite andb_true_r. apply Z.eqb_sym. }
  assert (Hkeep : Z.testbit (Z.land w 192) n = Z.testbit w n && (5 <? n)).
  { rewrite Z.land_spec. f_equal.
    assert (n = 0 \/ n = 1 \/ n = 2 \/ n = 3 \/ n = 4 \/ n = 5 \/ n = 6 \/ n = 7)
      as [->|[->|[->|[->|[->|[->|[->| ->]]]]]]] by lia; reflexivity. }
  assert (Hhash : Z.testbit (Z.land hash 65280) n = false).
  { rewrite Z.land_spec.
    assert (n = 0 \/ n = 1 \/ n = 2 \/ n = 3 \/ n = 4 \/ n = 5 \/ n = 6 \/ n = 7)
      as [->|[->|[->|[->|[->|[->|[->| ->]]]]]]] by lia; apply andb_false_r. }
  unfold Meta.Update_Bin.
  destruct ly; rewrite Z.mod_pow2_bits_low by lia;
    rewrite ?Z.lor_spec, ?Hsh, ?Hsh8, ?Hkeep, ?Hhash, ?Hrev;
    destruct (Z.ltb_spec n 3); destruct (Z.ltb_spec n 5);
    destruct (Z.eqb_spec n 5); destruct (Z.ltb_spec 5 n); try lia;
    rewrite ?Hlab, ?Hdis by lia;
    rewrite ?andb_false_r, ?andb_true_r, ?orb_false_r, ?andb_false_l, ?andb_true_l,
            ?orb_false_l;
    reflexivity.
Qed.

Lemma Update_Bin_label tg ly w d r label hash :
  0 <= d <= 3 -> 0 <= label <= 7 ->
  Meta.Get_Label (Meta.Update_Bin tg ly w d r label hash) = label.
Proof.
  intros Hd Hl. unfold Meta.Get_Label. apply Z.bits_inj'. intros n Hn.
  rewrite Z.land_spec. destruct (Z.ltb_spec n 3) as [H3|H3].
  - rewrite Update_Bin_testbit by lia.
    destruct (Z.ltb_spec n 3); [|lia].
    assert (n = 0 \/ n = 1 \/ n = 2) as [->|[->| ->]] by lia; apply andb_true_r.
  - rewrite (testbit_small 7 n 3), (testbit_small label n 3) by lia.
    apply andb_false_r.
Qed.

Lemma Update_Bin_bucket_reversed tg ly w d r label hash :
  0 <= d <= 3 -> 0 <= label <= 7 ->
  Meta.Is_Bucket_Reversed (Meta.Update_Bin tg ly w d r label hash) =
  Meta.Is_Bucket_Reversed w.
Proof.
  intros Hd Hl. rewrite !Is_Bucket_Reversed_testbit.
  rewrite Update_Bin_testbit by lia. reflexivity.
Qed.

(* ===================================================================== *)
(** * [fastrange] *)
(* ===================================================================== *)

Lemma Target_eq_dec (a b : Target) : {a = b} + {a <> b}.
Proof. decide equality. Defined.

Lemma SIZE_MOD_pos (tg : Target) : 0 < SIZE_MOD tg.
Proof. destruct tg; reflexivity. Qed.

Lemma wrap_small (tg : Target) (x : Z) : 0 <= x < SIZE_MOD tg -> wrap tg x = x.
Proof. apply Z.mod_small. Qed.

Lemma wrap_range (tg : Target) (x : Z) : 0 <= wrap tg x < SIZE_MOD tg.
Proof. apply Z.mod_pos_bound, SIZE_MOD_pos. Qed.

Lemma mul_high_bound (h n k : Z) :
  0 <= h < 2 ^ k -> 0 < n -> 0 <= k -> 0 <= h * n / 2 ^ k < n.
Proof.
  intros Hh Hn Hk. assert (0 < 2 ^ k) by (apply Z.pow_pos_nonneg; lia). split.
  - apply Z.div_pos; nia.
  - apply Z.div_lt_upper_bound; nia.
Qed.

Lemma fastrange_multiply_high (tg : Target) (h n : Z) :
  tg <> Target64_other ->
  0 <= h < SIZE_MOD tg -> 0 <= n < SIZE_MOD tg ->
  fastrange tg h n = h * n / 2 ^ SIZE_BITS tg.
Proof.
  intros Htg Hh Hn.
  destruct tg; try congruence;
    unfold SIZE_MOD, SIZE_BITS, fastrange, fastrange32, fastrange64 in *.
  - rewrite (Z.mod_small h), (Z.mod_small n) by lia.
    assert (0 <= h * n < 2 ^ 64) by nia.
    rewrite (Z.mod_small (h * n)) by lia. rewrite Z.shiftr_div_pow2 by lia.
    apply Z.mod_small.
    destruct (Z.eq_dec n 0) as [->|Hne]; [rewrite Z.mul_0_r, Z.div_0_l; lia|].
    pose proof (mul_high_bound h n 32). lia.
  - rewrite (Z.mod_small h), (Z.mod_small n) by lia.
    assert (0 <= h * n < 2 ^ 128) by nia.
    rewrite (Z.mod_small (h * n)) by lia. rewrite Z.shiftr_div_pow2 by lia.
    apply Z.mod_small.
    destruct (Z.eq_dec n 0) as [->|Hne]; [rewrite Z.mul_0_r, Z.div_0_l; lia|].
    pose proof (mul_high_bound h n 64). lia.
  - rewrite (Z.mod_small h), (Z.mod_small n) by lia.
    apply Z.shiftr_div_pow2. lia.
Qed.

Lemma fastrange_range (tg : Target) (h n : Z) :
  0 <= h < SIZE_MOD tg -> 0 < n < SIZE_MOD tg -> 0 <= fastrange tg h n < n.
Proof.
  intros Hh Hn. destruct (Target_eq_dec tg Target64_other) as [->|Hne].
  - unfold SIZE_MOD, SIZE_BITS, fastrange, fastrange64 in *.
    rewrite (Z.mod_small h), (Z.mod_small n) by lia. apply Z.mod_pos_bound. lia.
  - rewrite fastrange_multiply_high by (auto; lia).
    unfold SIZE_MOD in *. apply mul_high_bound; [lia|lia|destruct tg; simpl; lia].
Qed.

(** C9 (as amended): on the builds that take the upper half of the double
    width product (32-bit [size_t], [__uint128_t], [__umulh]) the
    reduction of a hash [h] to a table of [n > 0] cells is
    [floor (h * n / 2^w)]; on every build, the last [#else] with its
    [word % p] included, it lies in [[0, n)]. *)
Theorem fastrange_reduction (tg : Target) (h n : Z) :
  0 <= h < SIZE_MOD tg -> 0 < n < SIZE_MOD tg ->
  (tg <> Target64_other -> fastrange tg h n = h * n / 2 ^ SIZE_BITS tg) /\
  0 <= fastrange tg h n < n.
Proof.
  intros Hh Hn. split.
  - intros Htg. apply fastrange_multiply_high; auto; lia.
  - apply fastrange_range; auto.
Qed.

Lemma fastrange_reduction_witness :
  fastrange Target64_msvc (7 * 2 ^ 61) 8 = 7 * 2 ^ 61 * 8 / 2 ^ SIZE_BITS Target64_msvc /\
  0 <= fastrange Target64_msvc (7 * 2 ^ 61) 8 < 8.
Proof.
  destruct (fastrange_reduction Target64_msvc (7 * 2 ^ 61) 8) as [H1 H2].
  - vm_compute. split; [discriminate 1|reflexivity].
  - vm_compute. split; reflexivity.
  - split; [apply H1; discriminate|exact H2].
Defined.

(** C9, the claim as stated, fails on the build that takes the last
    [#else] of [fastrange64]: there [fastrange(5, 3) = 5 % 3 = 2], while
    [floor (5 * 3 / 2^64) = 0]. *)
Lemma fastrange_fallback_not_multiply_high :
  fastrange Target64_other 5 3 = 2 /\
  5 * 3 / 2 ^ SIZE_BITS Target64_other = 0 /\
  fastrange Target64_other 5 3 <> 5 * 3 / 2 ^ SIZE_BITS Target64_other.
Proof. vm_compute. repeat split; discriminate. Qed.

(* ===================================================================== *)
(** * Lookup: it only reads, and on a well-formed table it returns *)
(* ===================================================================== *)

Ltac readonly_step :=
  first
    [ apply readonly_ret
    | apply readonly_md_at
    | apply readonly_GetElem
    | solve [auto]
    | apply readonly_bind; [|intros ?]
    | match goal with
      | |- readonly (if ?b then _ else _) => destruct b
      | |- readonly (match ?x with _ => _ end) => destruct x
      end ].

Ltac fuel_free_step :=
  first
    [ apply fuel_free_ret
    | apply fuel_free_md_at
    | apply fuel_free_GetElem
    | solve [auto]
    | apply fuel_free_bind; [|intros ?]
    | match goal with
      | |- fuel_free (if ?b then _ else _) => destruct b
      | |- fuel_free (match ?x with _ => _ end) => destruct x
      end ].

Lemma readonly_get_num_buckets {I : Type} : readonly (get_num_buckets (INSERT_TYPE:=I)).
Proof. intros t a t' [= _ <-]. reflexivity. Qed.

Lemma fuel_free_get_num_buckets {I : Type} : fuel_free (get_num_buckets (INSERT_TYPE:=I)).
Proof. intros t. discriminate. Qed.

Lemma readonly_get_num_elems {I : Type} : readonly (get_num_elems (INSERT_TYPE:=I)).
Proof. intros t a t' [= _ <-]. reflexivity. Qed.

Section Lookup.

Context {INSERT_TYPE KEY_TYPE : Type}.
Variable tg : Target.
Variable ly : Layout.
Variable B : Z.
Variable key_of : INSERT_TYPE -> KEY_TYPE.
Variable HASHER : KEY_TYPE -> Z * Z.
Variable EQ : KEY_TYPE -> KEY_TYPE -> bool.

Abbreviation Tbl := (CBG INSERT_TYPE).
Abbreviation hitT := (Z -> Z -> KEY_TYPE -> M INSERT_TYPE bool).

Lemma readonly_cmp_elems pos r : readonly (cmp_elems (INSERT_TYPE:=INSERT_TYPE) key_of EQ pos r).
Proof. unfold cmp_elems, GetKey. repeat readonly_step. Qed.

Lemma fuel_free_cmp_elems pos r : fuel_free (cmp_elems (INSERT_TYPE:=INSERT_TYPE) key_of EQ pos r).
Proof. unfold cmp_elems, GetKey. repeat fuel_free_step. Qed.

Lemma readonly_hit_SoA_first h cc pos e : readonly (hit_SoA_first key_of EQ h cc pos e).
Proof. unfold hit_SoA_first. pose proof readonly_cmp_elems. repeat readonly_step. Qed.

Lemma readonly_hit_SoA_second h cc pos e : readonly (hit_SoA_second key_of EQ h cc pos e).
Proof. unfold hit_SoA_second. pose proof readonly_cmp_elems. repeat readonly_step. Qed.

Lemma readonly_hit_AoS cc pos e : readonly (hit_AoS key_of EQ cc pos e).
Proof. unfold hit_AoS. pose proof readonly_cmp_elems. repeat readonly_step. Qed.

Lemma fuel_free_hit_SoA_first h cc pos e : fuel_free (hit_SoA_first key_of EQ h cc pos e).
Proof. unfold hit_SoA_first. pose proof fuel_free_cmp_elems. repeat fuel_free_step. Qed.

Lemma fuel_free_hit_SoA_second h cc pos e : fuel_free (hit_SoA_second key_of EQ h cc pos e).
Proof. unfold hit_SoA_second. pose proof fuel_free_cmp_elems. repeat fuel_free_step. Qed.

Lemma fuel_free_hit_AoS cc pos e : fuel_free (hit_AoS key_of EQ cc pos e).
Proof. unfold hit_AoS. pose proof fuel_free_cmp_elems. repeat fuel_free_step. Qed.

Lemma readonly_probe_bucket (hit : hitT) pos e :
  (forall cc p, readonly (hit cc p e)) -> readonly (probe_bucket tg B hit pos e).
Proof. intros Hh. unfold probe_bucket, probe_next. repeat readonly_step. Qed.

Lemma fuel_free_probe_bucket (hit : hitT) pos e :
  (forall cc p, fuel_free (hit cc p e)) -> fuel_free (probe_bucket tg B hit pos e).
Proof. intros Hh. unfold probe_bucket, probe_next. repeat fuel_free_step. Qed.

Lemma readonly_find_two_buckets (hit1 hit2 : hitT) h0 h1 e :
  (forall cc p, readonly (hit1 cc p e)) -> (forall cc p, readonly (hit2 cc p e)) ->
  readonly (find_two_buckets tg B hit1 hit2 h0 h1 e).
Proof.
  intros H1 H2. unfold find_two_buckets.
  pose proof (fun p => readonly_probe_bucket hit1 p e H1).
  pose proof (fun p => readonly_probe_bucket hit2 p e H2).
  pose proof (@readonly_get_num_buckets INSERT_TYPE).
  repeat readonly_step.
Qed.

Lemma fuel_free_find_two_buckets (hit1 hit2 : hitT) h0 h1 e :
  (forall cc p, fuel_free (hit1 cc p e)) -> (forall cc p, fuel_free (hit2 cc p e)) ->
  fuel_free (find_two_buckets tg B hit1 hit2 h0 h1 e).
Proof.
  intros H1 H2. unfold find_two_buckets.
  pose proof (fun p => fuel_free_probe_bucket hit1 p e H1).
  pose proof (fun p => fuel_free_probe_bucket hit2 p e H2).
  pose proof (@fuel_free_get_num_buckets INSERT_TYPE).
  repeat fuel_free_step.
Qed.

Lemma readonly_find_position e :
  readonly (find_position (INSERT_TYPE:=INSERT_TYPE) tg ly B key_of HASHER EQ e).
Proof.
  unfold find_position, find_position_SoA, find_position_AoS.
  destruct (IS_SoA ly), (hash_elem tg HASHER e);
    apply readonly_find_two_buckets; intros;
    auto using readonly_hit_SoA_first, readonly_hit_SoA_second, readonly_hit_AoS.
Qed.

Lemma fuel_free_find_position e :
  fuel_free (find_position (INSERT_TYPE:=INSERT_TYPE) tg ly B key_of HASHER EQ e).
Proof.
  unfold find_position, find_position_SoA, find_position_AoS.
  destruct (IS_SoA ly), (hash_elem tg HASHER e);
    apply fuel_free_find_two_buckets; intros;
    auto using fuel_free_hit_SoA_first, fuel_free_hit_SoA_second, fuel_free_hit_AoS.
Qed.

End Lookup.

Lemma well_formed_spec {I : Type} (tg : Target) (B : Z) (t : CBG I) :
  well_formed tg B t = true ->
  2 <= B <= 4 /\ 0 < num_buckets t < SIZE_MOD tg /\
  num_buckets t <= Z.of_nat (length (metadata t)) /\
  num_buckets t <= Z.of_nat (length (elems t)) /\
  forall p, 0 <= p < num_buckets t ->
    exists w, read (metadata t) p = Some w /\
              window_in_range B (num_buckets t) p w = true.
Proof.
  unfold well_formed. rewrite !andb_true_iff.
  intros [[[[[[H1 H2] H3] H4] H5] H6] H7].
  repeat split; try lia.
  intros p Hp. rewrite forallb_forall in H7.
  specialize (H7 p). destruct (read (metadata t) p) as [w|].
  - exists w. split; [reflexivity|]. apply H7.
    apply list_elem_of_In, elem_of_seqZ. lia.
  - discriminate H7. apply list_elem_of_In, elem_of_seqZ. lia.
Qed.

Lemma wrap_succ (tg : Target) (q : Z) :
  0 <= q -> q + 1 < SIZE_MOD tg -> wrap tg (q + 1) = q + 1.
Proof. intros. apply wrap_small. lia. Qed.

Lemma wrap_pred (tg : Target) (q : Z) :
  1 <= q < SIZE_MOD tg -> wrap tg (q + SIZE_MAX tg) = q - 1.
Proof.
  intros H. unfold wrap, SIZE_MAX.
  replace (q + (SIZE_MOD tg - 1)) with (q - 1 + 1 * SIZE_MOD tg) by lia.
  rewrite Z.mod_add by lia. apply Z.mod_small. lia.
Qed.

Lemma wrap_sub (tg : Target) (a b : Z) :
  0 <= b <= a -> a < SIZE_MOD tg -> wrap tg (a - b) = a - b.
Proof. intros. apply wrap_small. lia. Qed.

Lemma wrap_add_wrap_neg (tg : Target) (p k : Z) :
  0 <= k <= p -> p < SIZE_MOD tg -> wrap tg (p + wrap tg (- k)) = p - k.
Proof.
  intros Hk Hp. unfold wrap. rewrite Zplus_mod_idemp_r.
  replace (p + - k) with (p - k) by lia. apply Z.mod_small. lia.
Qed.

Ltac inv_monad :=
  repeat match goal with
  | H : bind _ _ _ = Ok _ |- _ =>
      let a := fresh "a" in let t1 := fresh "t" in
      let H1 := fresh "Hm" in let H2 := fresh "Hk" in
      apply bind_Ok_inv in H as (a & t1 & H1 & H2)
  | H : ret _ _ = Ok _ |- _ => unfold ret in H; inversion H; clear H; subst
  | H : Ok _ = Ok _ |- _ => inversion H; clear H; subst
  | H : UB = Ok _ |- _ => discriminate H
  | H : OutOfFuel = Ok _ |- _ => discriminate H
  | H : md_at _ _ = Ok _ |- _ => apply md_at_inv in H as [? ?]; subst
  | H : get_num_buckets _ = Ok _ |- _ => unfold get_num_buckets in H
  | H : get_num_elems _ = Ok _ |- _ => unfold get_num_elems in H
  end.

Section LookupTotal.

Context {INSERT_TYPE KEY_TYPE : Type}.
Variable tg : Target.
Variable ly : Layout.
Variable B : Z.
Variable key_of : INSERT_TYPE -> KEY_TYPE.
Variable HASHER : KEY_TYPE -> Z * Z.
Variable EQ : KEY_TYPE -> KEY_TYPE -> bool.

Abbreviation hitTy := (Z -> Z -> KEY_TYPE -> M INSERT_TYPE bool).

Lemma cmp_elems_total pos (e : KEY_TYPE) (t : CBG INSERT_TYPE) :
  0 <= pos < Z.of_nat (length (elems t)) ->
  exists b, cmp_elems key_of EQ pos e t = Ok (b, t).
Proof.
  intros H. destruct (read_in_range _ _ H) as [x Hx].
  exists (EQ (key_of x) e). unfold cmp_elems, GetKey.
  rewrite (bind_Ok _ _ _ _ _ (bind_Ok _ _ _ _ _ (GetElem_Ok _ _ _ Hx))).
  reflexivity.
Qed.

Lemma hit_AoS_total (e : KEY_TYPE) (t : CBG INSERT_TYPE) : hit_total (hit_AoS key_of EQ) e t.
Proof.
  intros cc pos H. destruct (cmp_elems_total pos e t H) as [b Hb].
  unfold hit_AoS. rewrite (bind_Ok _ _ _ _ _ Hb). eexists. reflexivity.
Qed.

Lemma hit_SoA_first_total h (e : KEY_TYPE) (t : CBG INSERT_TYPE) : hit_total (hit_SoA_first key_of EQ h) e t.
Proof.
  intros cc pos H. destruct (cmp_elems_total pos e t H) as [b Hb].
  unfold hit_SoA_first. destruct (_ =? 0); [|eexists; reflexivity].
  rewrite (bind_Ok _ _ _ _ _ Hb). eexists. reflexivity.
Qed.

Lemma hit_SoA_second_total h (e : KEY_TYPE) (t : CBG INSERT_TYPE) : hit_total (hit_SoA_second key_of EQ h) e t.
Proof.
  intros cc pos H. destruct (cmp_elems_total pos e t H) as [b Hb].
  unfold hit_SoA_second. destruct (_ && _); [|eexists; reflexivity].
  eexists. exact Hb.
Qed.

Lemma probe_next_total (hit : hitTy) pos rs (e : KEY_TYPE) (t : CBG INSERT_TYPE) q :
  hit_total hit e t ->
  wrap tg (pos + rs) = q ->
  0 <= q < num_buckets t ->
  num_buckets t <= Z.of_nat (length (metadata t)) ->
  num_buckets t <= Z.of_nat (length (elems t)) ->
  exists b, probe_next tg hit pos rs e t = Ok ((q, b), t).
Proof.
  intros Hhit Hq Hr Hmd Hel. unfold probe_next. rewrite Hq.
  destruct (read_in_range (metadata t) q) as [cc Hcc]; [lia|].
  rewrite (bind_Ok _ _ _ _ _ (md_at_Ok _ _ _ Hcc)).
  destruct (Hhit cc q) as [b Hb]; [lia|].
  rewrite (bind_Ok _ _ _ _ _ Hb). exists b. reflexivity.
Qed.

Lemma probe_bucket_anchor_word (hit : hitTy) p (e : KEY_TYPE) (t t' : CBG INSERT_TYPE) pos c0 :
  probe_bucket tg B hit p e t = Ok ((pos, c0), t') ->
  read (metadata t) p = Some c0.
Proof.
  unfold probe_bucket. intros H.
  apply bind_Ok_inv in H as (w & t1 & Hw & H).
  apply md_at_inv in Hw as [Hw ->].
  apply bind_Ok_inv in H as (b & t2 & _ & H).
  destruct b; [inv_monad; assumption|].
  apply bind_Ok_inv in H as ([q1 b1] & t3 & _ & H).
  destruct b1; [inv_monad; assumption|].
  apply bind_Ok_inv in H as ([q2 b2] & t4 & _ & H).
  destruct b2; [inv_monad; assumption|].
  apply bind_Ok_inv in H as ([q3 b3] & t5 & _ & H).
  destruct b3; inv_monad; assumption.
Qed.

Lemma probe_bucket_total (hit : hitTy) p (e : KEY_TYPE) (t : CBG INSERT_TYPE) :
  well_formed tg B t = true -> hit_total hit e t ->
  0 <= p < num_buckets t ->
  exists pos c0, probe_bucket tg B hit p e t = Ok ((pos, c0), t).
Proof.
  intros Hwf Hhit Hp.
  destruct (well_formed_spec _ _ _ Hwf) as (HB & Hn & Hmd & Hel & Hwin).
  destruct (Hwin p Hp) as (c0 & Hc0 & Hw).
  unfold window_in_range in Hw.
  unfold Meta.Is_Bucket_Reversed in Hw.
  unfold probe_bucket.
  rewrite (bind_Ok _ _ _ _ _ (md_at_Ok _ _ _ Hc0)).
  destruct (Hhit c0 p) as [b Hb]; [lia|]. rewrite (bind_Ok _ _ _ _ _ Hb).
  destruct b; [eexists _, _; reflexivity|].
  set (rs := if Z.land c0 64 =? 0 then 1 else SIZE_MAX tg).
  set (d := if Z.land c0 64 =? 0 then 1 else -1).
  assert (Hstep : forall q, 0 <= q < num_buckets t -> 0 <= q + d < num_buckets t ->
                    wrap tg (q + rs) = q + d).
  { intros q Hq Hqd. unfold rs, d in *. destruct (Z.land c0 64 =? 0).
    - apply wrap_succ; lia.
    - rewrite wrap_pred by lia. lia. }
  assert (Hrange : forall k, 0 <= k <= B - 1 -> 0 <= p + k * d < num_buckets t).
  { intros k Hk. unfold d. destruct (Z.land c0 64 =? 0); simpl in Hw; lia. }
  destruct (probe_next_total hit p rs e t (p + d)) as [b1 Hb1]; auto.
  { apply Hstep; [lia|]. specialize (Hrange 1). lia. }
  { specialize (Hrange 1). lia. }
  rewrite (bind_Ok _ _ _ _ _ Hb1).
  destruct b1; [eexists _, _; reflexivity|].
  destruct (Z.ltb_spec 2 B) as [H2|H2].
  - destruct (probe_next_total hit (p + d) rs e t (p + 2 * d)) as [b2 Hb2]; auto.
    { rewrite Hstep; [lia| |]; [specialize (Hrange 1)|specialize (Hrange 2)]; lia. }
    { specialize (Hrange 2). lia. }
    rewrite (bind_Ok _ _ _ _ _ Hb2).
    destruct b2; [eexists _, _; reflexivity|].
    destruct (Z.ltb_spec 3 B) as [H3|H3].
    + destruct (probe_next_total hit (p + 2 * d) rs e t (p + 3 * d)) as [b3 Hb3]; auto.
      { rewrite Hstep; [lia| |]; [specialize (Hrange 2)|specialize (Hrange 3)]; lia. }
      { specialize (Hrange 3). lia. }
      rewrite (bind_Ok _ _ _ _ _ Hb3).
      destruct b3; eexists _, _; reflexivity.
    + eexists _, _; reflexivity.
  - destruct (Z.ltb_spec 3 B) as [H3|H3]; [lia|].
    eexists _, _; reflexivity.
Qed.

Lemma hash_elem_range (e : KEY_TYPE) :
  0 <= fst (hash_elem tg HASHER e) < SIZE_MOD tg /\
  0 <= snd (hash_elem tg HASHER e) < SIZE_MOD tg.
Proof.
  unfold hash_elem. destruct (HASHER e) as [h0 h1]. simpl.
  split; apply wrap_range.
Qed.

Lemma find_two_buckets_total (hit1 hit2 : hitTy) h0 h1 (e : KEY_TYPE) (t : CBG INSERT_TYPE) :
  well_formed tg B t = true -> hit_total hit1 e t -> hit_total hit2 e t ->
  0 <= h0 < SIZE_MOD tg -> 0 <= h1 < SIZE_MOD tg ->
  exists pos, find_two_buckets tg B hit1 hit2 h0 h1 e t = Ok (pos, t).
Proof.
  intros Hwf H1 H2 Hh0 Hh1.
  destruct (well_formed_spec _ _ _ Hwf) as (HB & Hn & _).
  unfold find_two_buckets, bind at 1, get_num_buckets.
  destruct (probe_bucket_total hit1 (fastrange tg h0 (num_buckets t)) e t)
    as (pos & c0 & Hp); auto using fastrange_range.
  rewrite (bind_Ok _ _ _ _ _ Hp).
  destruct (negb (pos =? SIZE_MAX tg)); [eexists; reflexivity|].
  destruct (negb (Z.land c0 128 =? 0)); [|eexists; reflexivity].
  destruct (probe_bucket_total hit2 (fastrange tg h1 (num_buckets t)) e t)
    as (pos2 & c2 & Hp2); auto using fastrange_range.
  rewrite (bind_Ok _ _ _ _ _ Hp2). eexists; reflexivity.
Qed.

Lemma find_position_total (e : KEY_TYPE) (t : CBG INSERT_TYPE) :
  well_formed tg B t = true ->
  exists pos, find_position tg ly B key_of HASHER EQ e t = Ok (pos, t).
Proof.
  intros Hwf. pose proof (hash_elem_range e) as [Hr0 Hr1].
  unfold find_position, find_position_SoA, find_position_AoS.
  destruct (hash_elem tg HASHER e) as [h0 h1]. simpl in Hr0, Hr1.
  destruct (IS_SoA ly); apply find_two_buckets_total;
    auto using hit_AoS_total, hit_SoA_first_total, hit_SoA_second_total.
Qed.

End LookupTotal.

(* ===================================================================== *)
(** * [count], [erase] and [Set_Empty] *)
(* ===================================================================== *)

Section CountErase.

Context {INSERT_TYPE KEY_TYPE : Type}.
Variable tg : Target.
Variable ly : Layout.
Variable B : Z.
Variable key_of : INSERT_TYPE -> KEY_TYPE.
Variable HASHER : KEY_TYPE -> Z * Z.
Variable EQ : KEY_TYPE -> KEY_TYPE -> bool.

Lemma Set_Empty_inv pos (t t' : CBG INSERT_TYPE) (u : unit) :
  Set_Empty pos t = Ok (u, t') ->
  exists w, read (metadata t) pos = Some w /\
            write (metadata t) pos (Meta.Set_Empty w) = Some (metadata t') /\
            elems t' = elems t /\ num_elems t' = num_elems t /\
            num_buckets t' = num_buckets t.
Proof.
  unfold Set_Empty. intros H. apply bind_Ok_inv in H as (w & t1 & Hw & H).
  apply md_at_inv in Hw as [Hw ->]. apply md_store_inv in H.
  exists w. tauto.
Qed.

Lemma Set_Empty_total pos w (t : CBG INSERT_TYPE) :
  read (metadata t) pos = Some w ->
  exists t', Set_Empty pos t = Ok (tt, t').
Proof.
  intros Hw. unfold Set_Empty. rewrite (bind_Ok _ _ _ _ _ (md_at_Ok _ _ _ Hw)).
  unfold md_store. apply read_Some in Hw as [Hr _].
  rewrite write_in_range by lia. eexists. reflexivity.
Qed.

Lemma erase_inv (elem : KEY_TYPE) (t t' : CBG INSERT_TYPE) r :
  erase tg ly B key_of HASHER EQ elem t = Ok (r, t') ->
  exists pos, find_position tg ly B key_of HASHER EQ elem t = Ok (pos, t) /\
    ((pos = SIZE_MAX tg /\ r = 0 /\ t' = t) \/
     (pos <> SIZE_MAX tg /\ r = 1 /\ Set_Empty pos t = Ok (tt, t'))).
Proof.
  unfold erase. intros H. apply bind_Ok_inv in H as (pos & t1 & Hf & H).
  pose proof (readonly_find_position tg ly B key_of HASHER EQ elem _ _ _ Hf) as ->.
  exists pos. split; [exact Hf|].
  destruct (Z.eqb_spec pos (SIZE_MAX tg)) as [Heq|Hne]; simpl in H.
  - left. inv_monad. auto.
  - right. apply bind_Ok_inv in H as ([] & t2 & Hs & H). inv_monad. auto.
Qed.

(** [erase] never touches the element counter. *)
Lemma erase_keeps_num_elems (elem : KEY_TYPE) (t t' : CBG INSERT_TYPE) r :
  erase tg ly B key_of HASHER EQ elem t = Ok (r, t') ->
  num_elems t' = num_elems t.
Proof.
  intros H. apply erase_inv in H as (pos & _ & [(_ & _ & ->)|(_ & _ & H)]);
    [reflexivity|].
  apply Set_Empty_inv in H as (w & _ & _ & _ & H & _). exact H.
Qed.

(** C7: for every cell position inside the metadata array and every
    word [w] stored there, [Set_Empty] rewrites that cell to a word whose
    bits 0..5 (label, distance, reversed item) are clear and whose bits 6
    (bucket reversed) and 7 (unlucky bucket) are those of [w]; no other
    cell, no payload and no counter changes. A successful [erase] is
    [Set_Empty] at the position found, so it keeps the two flags of the
    erased cell. *)
Theorem Set_Empty_keeps_bucket_flags (pos w : Z) (t : CBG INSERT_TYPE) :
  read (metadata t) pos = Some w ->
  (exists t', Set_Empty pos t = Ok (tt, t') /\
     read (metadata t') pos = Some (Meta.Set_Empty w) /\
     (forall q, q <> pos -> read (metadata t') q = read (metadata t) q) /\
     elems t' = elems t /\ num_buckets t' = num_buckets t) /\
  (forall i, 0 <= i <= 5 -> Z.testbit (Meta.Set_Empty w) i = false) /\
  Z.testbit (Meta.Set_Empty w) 6 = Z.testbit w 6 /\
  Z.testbit (Meta.Set_Empty w) 7 = Z.testbit w 7 /\
  Meta.Is_Bucket_Reversed (Meta.Set_Empty w) = Meta.Is_Bucket_Reversed w /\
  Meta.Is_Unlucky_Bucket (Meta.Set_Empty w) = Meta.Is_Unlucky_Bucket w /\
  (forall elem t'',
     find_position tg ly B key_of HASHER EQ elem t = Ok (pos, t) ->
     erase tg ly B key_of HASHER EQ elem t = Ok (1, t'') ->
     read (metadata t'') pos = Some (Meta.Set_Empty w)).
Proof.
  intros Hw. repeat split.
  - destruct (Set_Empty_total pos w t Hw) as [t' Ht']. exists t'.
    split; [exact Ht'|].
    apply Set_Empty_inv in Ht' as (w' & Hw' & Hwr & He & _ & Hn).
    assert (w' = w) as -> by congruence.
    repeat split; auto.
    + eapply read_write_same; eauto.
    + intros q Hq. eapply read_write_other; eauto.
  - apply Set_Empty_low_bits.
  - apply Set_Empty_high_bits. auto.
  - apply Set_Empty_high_bits. auto.
  - apply Set_Empty_bucket_reversed.
  - apply Set_Empty_unlucky.
  - intros elem t'' Hf He.
    apply erase_inv in He as (pos' & Hf' & [(_ & Hr & _)|(_ & _ & Hs)]);
      [discriminate|].
    assert (pos' = pos) as -> by congruence.
    apply Set_Empty_inv in Hs as (w' & Hw' & Hwr & _).
    assert (w' = w) as -> by congruence.
    eapply read_write_same; eauto.
Qed.

(** C10: [count] answers 0 or 1 and hands the table back as it got it,
    however many cells store the key; it has no loop that could run on;
    and on a well-formed table it does return. *)
Theorem count_zero_or_one_readonly (elem : KEY_TYPE) (t : CBG INSERT_TYPE) :
  (forall r t', count tg ly B key_of HASHER EQ elem t = Ok (r, t') ->
     (r = 0 \/ r = 1) /\ t' = t) /\
  count tg ly B key_of HASHER EQ elem t <> OutOfFuel /\
  (well_formed tg B t = true ->
   exists r, count tg ly B key_of HASHER EQ elem t = Ok (r, t) /\ (r = 0 \/ r = 1)).
Proof.
  assert (Hro : forall r t', count tg ly B key_of HASHER EQ elem t = Ok (r, t') ->
            (r = 0 \/ r = 1) /\ t' = t).
  { unfold count. intros r t' H. apply bind_Ok_inv in H as (pos & t1 & Hf & H).
    apply readonly_find_position in Hf as ->. inv_monad.
    split; [|reflexivity]. destruct (negb _); auto. }
  split; [exact Hro|]. split.
  - unfold count. apply fuel_free_bind.
    + apply fuel_free_find_position.
    + intros pos. apply fuel_free_ret.
  - intros Hwf.
    destruct (find_position_total tg ly B key_of HASHER EQ elem t Hwf) as [pos Hp].
    unfold count. rewrite (bind_Ok _ _ _ _ _ Hp).
    eexists. split; [reflexivity|]. destruct (negb _); auto.
Qed.

(** C4: when the probe of the first bucket misses, the word [c0] it
    read at the anchor [p0] decides: with the unlucky bit clear
    [find_position] answers [SIZE_MAX] on the spot, whatever the rest of
    the table holds; so a hit that the first bucket did not give implies
    the unlucky bit of [p0]. *)
Theorem find_position_unlucky_bit (elem : KEY_TYPE) (t t1 : CBG INSERT_TYPE) (c0 : Z) :
  first_bucket_probe tg ly B key_of HASHER EQ elem t = Ok ((SIZE_MAX tg, c0), t1) ->
  read (metadata t)
       (fastrange tg (fst (hash_elem tg HASHER elem)) (num_buckets t)) = Some c0 /\
  (Meta.Is_Unlucky_Bucket c0 = false ->
   find_position tg ly B key_of HASHER EQ elem t = Ok (SIZE_MAX tg, t)) /\
  (forall pos t',
     find_position tg ly B key_of HASHER EQ elem t = Ok (pos, t') ->
     pos <> SIZE_MAX tg -> Meta.Is_Unlucky_Bucket c0 = true).
Proof.
  unfold first_bucket_probe, find_position, find_position_SoA, find_position_AoS.
  destruct (hash_elem tg HASHER elem) as [h0 h1]. simpl fst.
  intros H. apply bind_Ok_inv in H as (n & t0 & Hn & H).
  unfold get_num_buckets in Hn. injection Hn as <- <-.
  assert (t1 = t) as ->.
  { eapply readonly_probe_bucket; [|exact H].
    intros cc p. destruct (IS_SoA ly);
      auto using readonly_hit_SoA_first, readonly_hit_AoS. }
  split; [eapply probe_bucket_anchor_word; exact H|].
  assert (Hfind : forall hit2,
    find_two_buckets tg B
      (if IS_SoA ly then hit_SoA_first key_of EQ (h1 mod 2 ^ 16) else hit_AoS key_of EQ)
      hit2 h0 h1 elem t =
    if Meta.Is_Unlucky_Bucket c0
    then (do (pos, _cc) <- probe_bucket tg B hit2 (fastrange tg h1 (num_buckets t)) elem;
          ret pos) t
    else Ok (SIZE_MAX tg, t)).
  { intros hit2. unfold find_two_buckets, bind at 1, get_num_buckets.
    rewrite (bind_Ok _ _ _ _ _ H). rewrite Z.eqb_refl. cbn [negb].
    unfold Meta.Is_Unlucky_Bucket. destruct (negb (Z.land c0 128 =? 0)); reflexivity. }
  split.
  - intros Hu. destruct (IS_SoA ly); rewrite Hfind, Hu; reflexivity.
  - intros pos t' Hf Hne.
    destruct (Meta.Is_Unlucky_Bucket c0) eqn:Hu; [reflexivity|].
    destruct (IS_SoA ly); rewrite Hfind in Hf; injection Hf as <- _; congruence.
Qed.

End CountErase.

Lemma Set_Empty_keeps_bucket_flags_witness :
  read (metadata Sample.dup_table) 6 = Some 64 /\
  exists t', Set_Empty 6 Sample.dup_table = Ok (tt, t') /\
             read (metadata t') 6 = Some (Meta.Set_Empty 64).
Proof.
  split; [reflexivity|].
  destruct (Set_Empty_keeps_bucket_flags Sample.tgt AoS 3 fst (Sample.H_anchor 3) Z.eqb
              6 64 Sample.dup_table) as [(t' & H1 & H2 & _) _]; [reflexivity|].
  exists t'. split; assumption.
Defined.

Lemma dup_after_is_dup_table : Sample.dup_after = Ok Sample.dup_table.
Proof. vm_compute. reflexivity. Qed.

(** The key 73 sits in two cells of [dup_table]; [count] answers 1. *)
Lemma count_duplicate_key :
  read (elems Sample.dup_table) 1 = Some (73, 30) /\
  read (elems Sample.dup_table) 2 = Some (73, 20) /\
  label_at Sample.dup_table 1 <> 0 /\ label_at Sample.dup_table 2 <> 0 /\
  Sample.dup_count 73 Sample.dup_table = Ok (1, Sample.dup_table).
Proof. vm_compute. repeat split; discriminate. Qed.

Lemma count_zero_or_one_readonly_witness :
  well_formed Sample.tgt 3 Sample.dup_table = true /\
  exists r, Sample.dup_count 73 Sample.dup_table = Ok (r, Sample.dup_table) /\
            (r = 0 \/ r = 1).
Proof.
  split; [reflexivity|].
  apply (count_zero_or_one_readonly Sample.tgt AoS 3 fst (Sample.H_anchor 3) Z.eqb
           73 Sample.dup_table).
  reflexivity.
Defined.

Lemma find_position_unlucky_bit_witness :
  first_bucket_probe Sample.tgt AoS 3 fst (Sample.H_anchor 3) Z.eqb 137 Sample.dup_table
    = Ok ((SIZE_MAX Sample.tgt, 1), Sample.dup_table) /\
  find_position Sample.tgt AoS 3 fst (Sample.H_anchor 3) Z.eqb 137 Sample.dup_table
    = Ok (SIZE_MAX Sample.tgt, Sample.dup_table).
Proof.
  assert (H : first_bucket_probe Sample.tgt AoS 3 fst (Sample.H_anchor 3) Z.eqb 137
                Sample.dup_table = Ok ((SIZE_MAX Sample.tgt, 1), Sample.dup_table))
    by (vm_compute; reflexivity).
  split; [exact H|].
  apply (find_position_unlucky_bit Sample.tgt AoS 3 fst (Sample.H_anchor 3) Z.eqb
           137 Sample.dup_table Sample.dup_table 1 H).
  reflexivity.
Defined.

(* ===================================================================== *)
(** * The element counter and [erase] *)
(* ===================================================================== *)

(** C1, on the code: a map of 8 cells with buckets of 3 and the identity
    hasher; [insert (7, "a")] stores the entry and counts it, [erase 7]
    finds it, answers 1 and empties the cell, and afterwards the key is
    gone and no cell is occupied, yet [size()] is still 1: [erase] has no
    [num_elems--]. *)
Theorem erase_leaves_size_unchanged :
  value_of (and_then Sample.map8_inserted (Sample.map8_at 7)) = Some (Some "a"%string) /\
  value_of (and_then Sample.map8_inserted Sample.map8_size) = Some 1 /\
  table_view occupied_cells Sample.map8_inserted = Some 1 /\
  value_of (and_then Sample.map8_inserted (Sample.map8_erase 7)) = Some 1 /\
  value_of (and_then Sample.map8_erased (Sample.map8_at 7)) = Some None /\
  table_view occupied_cells Sample.map8_erased = Some 0 /\
  value_of (and_then Sample.map8_erased Sample.map8_size) = Some 1.
Proof. vm_compute. repeat split; reflexivity. Qed.

(* ===================================================================== *)
(** * Inserting a key that is already stored *)
(* ===================================================================== *)


(* ===================================================================== *)
(** * [load_factor] *)
(* ===================================================================== *)






(* ===================================================================== *)
(** * Loops over a table that is only read *)
(* ===================================================================== *)

Lemma readonly_foldM {I A S : Type} (f : S -> A -> M I S) (l : list A) :
  (forall s a, readonly (f s a)) -> forall s, readonly (foldM f s l).
Proof.
  intros Hf. induction l as [|a l IH]; intros s; simpl.
  - apply readonly_ret.
  - apply readonly_bind; auto.
Qed.

(** An invariant of a read-only fold, indexed by the items done. *)
Lemma foldM_invariant {I A S : Type} (f : S -> A -> M I S) (t : CBG I)
    (P : list A -> S -> Prop) :
  (forall s a, readonly (f s a)) ->
  (forall done a s s', P done s -> f s a t = Ok (s', t) -> P (done ++ [a]) s') ->
  forall l done s s' t',
    P done s -> foldM f s l t = Ok (s', t') -> P (done ++ l) s' /\ t' = t.
Proof.
  intros Hro Hstep. induction l as [|a l IH]; intros done s s' t' HP H; simpl in H.
  - inv_monad. rewrite app_nil_r. auto.
  - apply bind_Ok_inv in H as (s1 & t1 & H1 & H2).
    pose proof (Hro _ _ _ _ _ H1) as ->.
    replace (done ++ a :: l) with ((done ++ [a]) ++ l) by (rewrite <- app_assoc; reflexivity).
    eapply IH; [|exact H2]. eapply Hstep; eauto.
Qed.

(** A read-only fold returns when each step does. *)
Lemma foldM_total {I A S : Type} (f : S -> A -> M I S) (t : CBG I) (l : list A) :
  (forall s a, a ∈ l -> exists s', f s a t = Ok (s', t)) ->
  forall s, exists s', foldM f s l t = Ok (s', t).
Proof.
  induction l as [|a l IH]; intros Hf s; simpl.
  - eexists. reflexivity.
  - destruct (Hf s a) as [s1 H1]; [left|].
    rewrite (bind_Ok _ _ _ _ _ H1). apply IH.
    intros s2 a2 Ha2. apply Hf. right. exact Ha2.
Qed.

Section Accessors.

Context {INSERT_TYPE : Type}.
Variable tg : Target.
Variable ly : Layout.

Abbreviation Tb := (CBG INSERT_TYPE).

Lemma Get_Label_Ok (t : Tb) pos w :
  read (metadata t) pos = Some w -> Get_Label pos t = Ok (Meta.Get_Label w, t).
Proof. intros H. unfold Get_Label. rewrite (bind_Ok _ _ _ _ _ (md_at_Ok _ _ _ H)). reflexivity. Qed.

Lemma Get_Label_inv (t t' : Tb) pos l :
  Get_Label pos t = Ok (l, t') ->
  t' = t /\ l = label_at t pos /\ exists w, read (metadata t) pos = Some w.
Proof.
  unfold Get_Label. intros H. inv_monad.
  unfold label_at, word_at. rewrite H. simpl. eauto.
Qed.

Lemma Is_Empty_Ok (t : Tb) pos w :
  read (metadata t) pos = Some w -> Is_Empty pos t = Ok (Meta.Get_Label w =? 0, t).
Proof. intros H. unfold Is_Empty. rewrite (bind_Ok _ _ _ _ _ (Get_Label_Ok _ _ _ H)). reflexivity. Qed.

Lemma Is_Bucket_Reversed_Ok (t : Tb) pos w :
  read (metadata t) pos = Some w ->
  Is_Bucket_Reversed pos t = Ok (Meta.Is_Bucket_Reversed w, t).
Proof. intros H. unfold Is_Bucket_Reversed. rewrite (bind_Ok _ _ _ _ _ (md_at_Ok _ _ _ H)). reflexivity. Qed.

Lemma Is_Bucket_Reversed_inv (t t' : Tb) pos b :
  Is_Bucket_Reversed pos t = Ok (b, t') ->
  t' = t /\ exists w, read (metadata t) pos = Some w /\ b = Meta.Is_Bucket_Reversed w.
Proof. unfold Is_Bucket_Reversed. intros H. inv_monad. eauto. Qed.

Lemma Is_Item_In_Reverse_Bucket_Ok (t : Tb) pos w :
  read (metadata t) pos = Some w ->
  Is_Item_In_Reverse_Bucket pos t = Ok (Meta.Is_Item_In_Reverse_Bucket w, t).
Proof.
  intros H. unfold Is_Item_In_Reverse_Bucket.
  rewrite (bind_Ok _ _ _ _ _ (md_at_Ok _ _ _ H)). reflexivity.
Qed.

Lemma Distance_to_Entry_Bin_Ok (t : Tb) pos w :
  read (metadata t) pos = Some w ->
  Distance_to_Entry_Bin pos t = Ok (Meta.Distance_to_Entry_Bin w, t).
Proof.
  intros H. unfold Distance_to_Entry_Bin.
  rewrite (bind_Ok _ _ _ _ _ (md_at_Ok _ _ _ H)). reflexivity.
Qed.

Lemma readonly_Get_Label pos : readonly (Get_Label (INSERT_TYPE:=INSERT_TYPE) pos).
Proof. unfold Get_Label. repeat readonly_step. Qed.

Lemma readonly_Is_Bucket_Reversed pos :
  readonly (Is_Bucket_Reversed (INSERT_TYPE:=INSERT_TYPE) pos).
Proof. unfold Is_Bucket_Reversed. repeat readonly_step. Qed.

Lemma Update_Bin_At_inv (t t' : Tb) pos d r label hash (u : unit) :
  Update_Bin_At tg ly pos d r label hash t = Ok (u, t') ->
  exists w, read (metadata t) pos = Some w /\
    write (metadata t) pos (Meta.Update_Bin tg ly w d r label hash) = Some (metadata t') /\
    elems t' = elems t /\ num_elems t' = num_elems t /\ num_buckets t' = num_buckets t.
Proof.
  unfold Update_Bin_At. intros H. apply bind_Ok_inv in H as (w & t1 & Hw & H).
  apply md_at_inv in Hw as [Hw ->]. apply md_store_inv in H.
  exists w. tauto.
Qed.

Lemma Set_Unlucky_Bucket_inv (t t' : Tb) pos (u : unit) :
  Set_Unlucky_Bucket pos t = Ok (u, t') ->
  exists w, read (metadata t) pos = Some w /\
    write (metadata t) pos (Meta.Set_Unlucky_Bucket w) = Some (metadata t') /\
    elems t' = elems t /\ num_elems t' = num_elems t /\ num_buckets t' = num_buckets t.
Proof.
  unfold Set_Unlucky_Bucket. intros H. apply bind_Ok_inv in H as (w & t1 & Hw & H).
  apply md_at_inv in Hw as [Hw ->]. apply md_store_inv in H.
  exists w. tauto.
Qed.

Lemma incr_num_elems_inv (t t' : Tb) (u : unit) :
  incr_num_elems tg t = Ok (u, t') ->
  metadata t' = metadata t /\ elems t' = elems t /\
  num_elems t' = wrap tg (num_elems t + 1) /\ num_buckets t' = num_buckets t.
Proof.
  unfold incr_num_elems, bind, get_num_elems, set_num_elems.
  intros [= <- <-]. simpl. repeat split; reflexivity.
Qed.

End Accessors.

(* ===================================================================== *)
(** * One iteration of [try_insert], taken apart *)
(* ===================================================================== *)

Lemma Update_Bin_label_any tg ly w d r label hash :
  0 <= label <= 7 ->
  Meta.Get_Label (Meta.Update_Bin tg ly w d r label hash) = label.
Proof.
  intros Hl. unfold Meta.Get_Label. apply Z.bits_inj'. intros n Hn.
  rewrite Z.land_spec. destruct (Z.ltb_spec n 3) as [H3|H3].
  - replace (Z.testbit 7 n) with true
      by (assert (n = 0 \/ n = 1 \/ n = 2) as [->|[->| ->]] by lia; reflexivity).
    rewrite andb_true_r.
    assert (Hsh : Z.testbit (wrap tg (Z.shiftl d 3)) n = false).
    { unfold wrap, SIZE_MOD. rewrite Z.mod_pow2_bits_low by (destruct tg; simpl; lia).
      rewrite Z.shiftl_spec by lia. apply Z.testbit_neg_r. lia. }
    assert (Hsh8 : Z.testbit (Z.shiftl (d mod 2 ^ 8) 3) n = false).
    { rewrite Z.shiftl_spec by lia. apply Z.testbit_neg_r. lia. }
    assert (Hrev : Z.testbit (if r then 32 else 0) n = false).
    { destruct r; [|apply Z.bits_0].
      assert (n = 0 \/ n = 1 \/ n = 2) as [->|[->| ->]] by lia; reflexivity. }
    assert (Hkeep : Z.testbit (Z.land w 192) n = false).
    { rewrite Z.land_spec.
      assert (n = 0 \/ n = 1 \/ n = 2) as [->|[->| ->]] by lia; apply andb_false_r. }
    assert (Hhash : Z.testbit (Z.land hash 65280) n = false).
    { rewrite Z.land_spec.
      assert (n = 0 \/ n = 1 \/ n = 2) as [->|[->| ->]] by lia; apply andb_false_r. }
    unfold Meta.Update_Bin.
    destruct ly; rewrite Z.mod_pow2_bits_low by lia;
      rewrite ?Z.lor_spec, ?Hsh, ?Hsh8, ?Hkeep, ?Hhash, ?Hrev; reflexivity.
  - rewrite (testbit_small 7 n 3), (testbit_small label n 3) by lia.
    apply andb_false_r.
Qed.


Lemma Set_Unlucky_is_unlucky (w : Z) :
  Meta.Is_Unlucky_Bucket (Meta.Set_Unlucky_Bucket w) = true.
Proof.
  rewrite Is_Unlucky_Bucket_testbit. unfold Meta.Set_Unlucky_Bucket.
  rewrite Z.lor_spec. apply orb_true_r.
Qed.

Section Round.

Context {INSERT_TYPE KEY_TYPE : Type}.
Variable tg : Target.
Variable ly : Layout.
Variable B : Z.
Variable key_of : INSERT_TYPE -> KEY_TYPE.
Variable HASHER : KEY_TYPE -> Z * Z.

Abbreviation Tr := (CBG INSERT_TYPE).

Lemma min_so_far_step (t : Tr) start done m p i :
  min_so_far tg t start done m p ->
  let l := label_at t (wrap tg (start + i)) in
  min_so_far tg t start (done ++ [i])
             (fst (if l <? m then (l, wrap tg (start + i)) else (m, p)))
             (snd (if l <? m then (l, wrap tg (start + i)) else (m, p))).
Proof.
  intros (H1 & H2 & H3 & H4) l. unfold min_so_far.
  destruct (Z.ltb_spec l m) as [Hlt|Hge]; simpl.
  - split; [reflexivity|]. split.
    + right. exists i. split; [apply elem_of_app; right; apply list_elem_of_singleton; reflexivity|reflexivity].
    + split; [lia|]. intros j Hj. apply elem_of_app in Hj as [Hj|Hj].
      * specialize (H4 j Hj). lia.
      * apply list_elem_of_singleton in Hj as ->. fold l. lia.
  - split; [exact H1|]. split.
    + destruct H2 as [H2|(j & Hj & H2)]; [left; exact H2|].
      right. exists j. split; [apply elem_of_app; left; exact Hj|exact H2].
    + split; [exact H3|]. intros j Hj. apply elem_of_app in Hj as [Hj|Hj].
      * apply H4. exact Hj.
      * apply list_elem_of_singleton in Hj as ->. fold l. lia.
Qed.

Lemma min_so_far_window (t : Tr) start m p :
  1 <= B -> wrap tg start = start ->
  min_so_far tg t start (seqZ 1 (B - 1)) m p ->
  window_min_label tg B t start m /\
  exists i, 0 <= i < B /\ p = wrap tg (start + i) /\ label_at t p = m.
Proof.
  intros HB Hs (H1 & H2 & H3 & H4).
  assert (Hp : exists i, 0 <= i < B /\ p = wrap tg (start + i)).
  { destruct H2 as [->|(i & Hi & ->)].
    - exists 0. rewrite Z.add_0_r, Hs. split; [lia|reflexivity].
    - apply elem_of_seqZ in Hi. exists i. split; [lia|reflexivity]. }
  split.
  - split.
    + destruct Hp as (i & Hi & ->). exists i. auto.
    + intros i Hi. destruct (Z.eq_dec i 0) as [->|Hne].
      * rewrite Z.add_0_r, Hs. exact H3.
      * apply H4. apply elem_of_seqZ. lia.
  - destruct Hp as (i & Hi & Hp). exists i. auto.
Qed.

Lemma readonly_minimum_labels b1 b2 :
  readonly (minimum_labels (INSERT_TYPE:=INSERT_TYPE) tg B b1 b2).
Proof.
  unfold minimum_labels. pose proof (@readonly_Get_Label INSERT_TYPE).
  apply readonly_bind; [auto|]. intros m1. apply readonly_bind; [auto|]. intros m2.
  apply readonly_foldM. intros [[? ?] [? ?]] i. repeat readonly_step.
Qed.

Lemma minimum_labels_spec (t t' : Tr) b1 b2 min1 pos1 min2 pos2 :
  1 <= B -> wrap tg b1 = b1 -> wrap tg b2 = b2 ->
  minimum_labels tg B b1 b2 t = Ok (((min1, pos1), (min2, pos2)), t') ->
  t' = t /\
  window_min_label tg B t b1 min1 /\ window_min_label tg B t b2 min2 /\
  (exists i, 0 <= i < B /\ pos1 = wrap tg (b1 + i) /\ label_at t pos1 = min1) /\
  (exists i, 0 <= i < B /\ pos2 = wrap tg (b2 + i) /\ label_at t pos2 = min2).
Proof.
  intros HB Hb1 Hb2 H.
  pose proof (readonly_minimum_labels b1 b2 _ _ _ H) as ->.
  split; [reflexivity|].
  unfold minimum_labels in H.
  apply bind_Ok_inv in H as (m1 & t1 & Hm1 & H).
  apply Get_Label_inv in Hm1 as (-> & -> & _).
  apply bind_Ok_inv in H as (m2 & t2 & Hm2 & H).
  apply Get_Label_inv in Hm2 as (-> & -> & _).
  eapply (foldM_invariant _ t
            (fun done '((m1, p1), (m2, p2)) =>
               min_so_far tg t b1 done m1 p1 /\ min_so_far tg t b2 done m2 p2)
            ) with (done := []) in H.
  - destruct H as [[Ha Hb] _]. simpl in Ha, Hb.
    apply min_so_far_window in Ha as [Ha1 Ha2]; auto.
    apply min_so_far_window in Hb as [Hb1' Hb2']; auto.
  - intros [[? ?] [? ?]] i. pose proof (@readonly_Get_Label INSERT_TYPE).
    repeat readonly_step.
  - intros done i [[m1 p1] [m2 p2]] [[m1' p1'] [m2' p2']] [Ha Hb] Hstep.
    apply bind_Ok_inv in Hstep as (l1 & t1 & Hl1 & Hstep).
    apply Get_Label_inv in Hl1 as (-> & -> & _).
    apply bind_Ok_inv in Hstep as (l2 & t2 & Hl2 & Hstep).
    apply Get_Label_inv in Hl2 as (-> & -> & _).
    unfold ret in Hstep. injection Hstep as Hs1 Hs2.
    pose proof (min_so_far_step t b1 done m1 p1 i Ha) as Ha'.
    pose proof (min_so_far_step t b2 done m2 p2 i Hb) as Hb'.
    simpl in Ha', Hb'. rewrite Hs1 in Ha'. rewrite Hs2 in Hb'. simpl in Ha', Hb'.
    split; assumption.
  - split; unfold min_so_far; repeat split; try lia; try (left; reflexivity);
      intros i Hi; apply elem_of_nil in Hi; contradiction.
Qed.

End Round.

Section RoundAnatomy.

Context {INSERT_TYPE KEY_TYPE : Type}.
Variable tg : Target.
Variable ly : Layout.
Variable B : Z.
Variable key_of : INSERT_TYPE -> KEY_TYPE.
Variable HASHER : KEY_TYPE -> Z * Z.

Abbreviation Ta := (CBG INSERT_TYPE).


Lemma place_inv (t t' : Ta) pos bucket_init rev label hash elem r :
  place tg ly pos bucket_init rev label hash elem t = Ok (r, t') ->
  r = Inserted /\ written tg ly t t' pos label elem /\
  num_elems t' = wrap tg (num_elems t + 1).
Proof.
  unfold place. intros H.
  apply bind_Ok_inv in H as ([] & t1 & Hu & H).
  apply bind_Ok_inv in H as ([] & t2 & Hs & H).
  apply bind_Ok_inv in H as ([] & t3 & Hi & H).
  inv_monad.
  apply Update_Bin_At_inv in Hu as (w & Hw & Hwr & He1 & Hn1 & Hb1).
  apply SaveElem_inv in Hs as (Hes & Hm2 & Hn2 & Hb2 & _).
  apply incr_num_elems_inv in Hi as (Hm3 & He3 & Hn3 & Hb3).
  split; [reflexivity|]. split.
  - unfold written. rewrite Hm3, Hm2, He3. repeat split.
    + exists w, (wrap tg (pos - bucket_init)), rev, hash. split; [exact Hw|].
      eapply read_write_same; eauto.
    + eapply read_write_same; eauto.
    + eapply read_write_other; eauto.
    + rewrite <- He1. eapply read_write_other; eauto.
    + congruence.
  - congruence.
Qed.

Lemma evict_inv (t t' : Ta) pos bucket_init rev label hash elem r :
  evict tg ly pos bucket_init rev label hash elem t = Ok (r, t') ->
  exists victim, r = Evicted victim /\ read (elems t) pos = Some victim /\
    written tg ly t t' pos label elem /\ num_elems t' = num_elems t.
Proof.
  unfold evict. intros H.
  apply bind_Ok_inv in H as ([] & t1 & Hu & H).
  apply bind_Ok_inv in H as (victim & t2 & Hg & H).
  apply bind_Ok_inv in H as ([] & t3 & Hs & H).
  inv_monad.
  apply Update_Bin_At_inv in Hu as (w & Hw & Hwr & He1 & Hn1 & Hb1).
  unfold GetElem in Hg. destruct (read (elems t1) pos) as [v|] eqn:Hv; [|discriminate].
  injection Hg as -> <-.
  apply SaveElem_inv in Hs as (Hes & Hm2 & Hn2 & Hb2 & _).
  exists victim. split; [reflexivity|]. split; [congruence|]. split.
  - unfold written. rewrite Hm2. repeat split.
    + exists w, (wrap tg (pos - bucket_init)), rev, hash. split; [exact Hw|].
      eapply read_write_same; eauto.
    + eapply read_write_same; eauto.
    + eapply read_write_other; eauto.
    + rewrite <- He1. eapply read_write_other; eauto.
    + congruence.
  - congruence.
Qed.


Lemma try_insert_round_anatomy (elem : INSERT_TYPE) (t t' : Ta) r :
  try_insert_round tg ly B key_of HASHER elem t = Ok (r, t') ->
  let h0 := fst (hash_elem tg HASHER (key_of elem)) in
  let h1 := snd (hash_elem tg HASHER (key_of elem)) in
  let b1p := fastrange tg h0 (num_buckets t) in
  let b2p := fastrange tg h1 (num_buckets t) in
  exists rev1 rev2 min1 pos1 min2 pos2,
    Is_Bucket_Reversed b1p t = Ok (rev1, t) /\
    Is_Bucket_Reversed b2p t = Ok (rev2, t) /\
    minimum_labels tg B (bucket_init_of tg B b1p rev1) (bucket_init_of tg B b2p rev2) t
      = Ok (((min1, pos1), (min2, pos2)), t) /\
    round_case tg ly B elem t t' r b1p b2p
               (bucket_init_of tg B b1p rev1) (bucket_init_of tg B b2p rev2)
               rev1 rev2 min1 pos1 min2 pos2 h0 h1.
Proof.
  unfold try_insert_round.
  destruct (hash_elem tg HASHER (key_of elem)) as [h0 h1]. simpl fst. simpl snd.
  intros H. unfold bind at 1, get_num_buckets in H.
  apply bind_Ok_inv in H as (rev1 & t1 & Hr1 & H).
  pose proof (readonly_Is_Bucket_Reversed _ _ _ _ Hr1) as ->.
  apply bind_Ok_inv in H as (rev2 & t2 & Hr2 & H).
  pose proof (readonly_Is_Bucket_Reversed _ _ _ _ Hr2) as ->.
  apply bind_Ok_inv in H as ([[min1 pos1] [min2 pos2]] & t3 & Hm & H).
  pose proof (readonly_minimum_labels _ _ _ _ _ _ _ Hm) as ->.
  exists rev1, rev2, min1, pos1, min2, pos2.
  split; [exact Hr1|]. split; [exact Hr2|]. split; [exact Hm|].
  destruct (Z.eqb_spec min1 0) as [H1|H1].
  { apply case_primary_free; assumption. }
  apply bind_Ok_inv in H as (empty_pos & t4 & Hh & H).
  destruct (Z.eqb_spec empty_pos (SIZE_MAX tg)) as [He|He]; simpl in H.
  - subst empty_pos. destruct (Z.eqb_spec min2 0) as [H2|H2].
    + apply bind_Ok_inv in H as ([] & t5 & Hu & H).
      eapply case_secondary_free; eauto.
    + apply bind_Ok_inv in H as (placed & t5 & Hs & H).
      destruct placed.
      * inv_monad. eapply case_secondary_hopscotch; eauto.
      * eapply case_evict_or_fail; eauto.
  - apply bind_Ok_inv in H as (rev1' & t5 & Hr & H).
    pose proof (readonly_Is_Bucket_Reversed _ _ _ _ Hr) as ->.
    eapply case_primary_hopscotch; eauto.
Qed.

End RoundAnatomy.

(* ===================================================================== *)
(** * The terminating condition of [try_insert] *)
(* ===================================================================== *)

Section Termination.

Context {INSERT_TYPE KEY_TYPE : Type}.
Variable tg : Target.
Variable ly : Layout.
Variable B : Z.
Variable key_of : INSERT_TYPE -> KEY_TYPE.
Variable HASHER : KEY_TYPE -> Z * Z.

Abbreviation Tt := (CBG INSERT_TYPE).

Lemma try_insert_round_last_step (elem : INSERT_TYPE) (t t1 t2 : Tt)
    rev1 rev2 min1 pos1 min2 pos2 :
  let h0 := fst (hash_elem tg HASHER (key_of elem)) in
  let h1 := snd (hash_elem tg HASHER (key_of elem)) in
  let b1p := fastrange tg h0 (num_buckets t) in
  let b2p := fastrange tg h1 (num_buckets t) in
  let b1i := bucket_init_of tg B b1p rev1 in
  let b2i := bucket_init_of tg B b2p rev2 in
  Is_Bucket_Reversed b1p t = Ok (rev1, t) ->
  Is_Bucket_Reversed b2p t = Ok (rev2, t) ->
  minimum_labels tg B b1i b2i t = Ok (((min1, pos1), (min2, pos2)), t) ->
  min1 <> 0 -> min2 <> 0 ->
  Find_Empty_Pos_Hopscotch tg ly B b1p b1i t = Ok (SIZE_MAX tg, t1) ->
  secondary_hopscotch tg ly B b1p b2p b2i min1 h0 elem t1 = Ok (false, t2) ->
  try_insert_round tg ly B key_of HASHER elem t =
  evict_or_fail tg ly b1p b1i b2i rev1 rev2 min1 pos1 min2 pos2 h0 h1 elem t2.
Proof.
  intros h0 h1 b1p b2p b1i b2i Hr1 Hr2 Hm H1 H2 Hh Hs.
  unfold try_insert_round. subst h0 h1 b1p b2p b1i b2i.
  destruct (hash_elem tg HASHER (key_of elem)) as [h0 h1]. simpl fst in *. simpl snd in *.
  unfold bind at 1, get_num_buckets.
  rewrite (bind_Ok _ _ _ _ _ Hr1), (bind_Ok _ _ _ _ _ Hr2), (bind_Ok _ _ _ _ _ Hm).
  destruct (Z.eqb_spec min1 0); [contradiction|].
  rewrite (bind_Ok _ _ _ _ _ Hh). rewrite Z.eqb_refl. cbn [negb].
  destruct (Z.eqb_spec min2 0); [contradiction|].
  rewrite (bind_Ok _ _ _ _ _ Hs). reflexivity.
Qed.


End Termination.

Lemma tiny_at_max_reached :
  table_view (after_evictions Sample.tgt AoS 2 id (Sample.H_shift 2) 12 4) Sample.tiny_full
  = Some (Some (4, Sample.tiny_at_max)).
Proof. vm_compute. reflexivity. Qed.

Lemma tiny_at_end_reached :
  table_view (after_evictions Sample.tgt AoS 2 id (Sample.H_shift 2) 13 4) Sample.tiny_full
  = Some (Some (3, Sample.tiny_at_end)).
Proof. vm_compute. reflexivity. Qed.



(* ===================================================================== *)
(** * The label written by a placement *)
(* ===================================================================== *)

Section Labels.

Context {INSERT_TYPE KEY_TYPE : Type}.
Variable tg : Target.
Variable ly : Layout.
Variable B : Z.
Variable key_of : INSERT_TYPE -> KEY_TYPE.
Variable HASHER : KEY_TYPE -> Z * Z.

Abbreviation Tl := (CBG INSERT_TYPE).









End Labels.





(* ===================================================================== *)
(** * [insert] and [operator[]] on a key that is already stored *)
(* ===================================================================== *)

Section Duplicates.

Context {KEY VALUE : Type}.
Variable tg : Target.
Variable ly : Layout.
Variable B : Z.
Variable HASHER : KEY -> Z * Z.
Variable EQ : KEY -> KEY -> bool.
Variable junk : KEY * VALUE.
Variable T_default : VALUE.

Abbreviation Td := (CBG (KEY * VALUE)).




End Duplicates.

Lemma dup_before_is_dup_before_table : Sample.dup_before = Ok Sample.dup_before_table.
Proof. vm_compute. reflexivity. Qed.


(* ===================================================================== *)
(** * Evictions on a table without empty cells *)
(* ===================================================================== *)

(** A fold whose steps all hand the accumulator back. *)
Lemma foldM_fixed {I A S : Type} (f : S -> A -> M I S) (t : CBG I) (l : list A) (s : S) :
  (forall a, a ∈ l -> f s a t = Ok (s, t)) -> foldM f s l t = Ok (s, t).
Proof.
  induction l as [|a l IH]; intros Hf; simpl; [reflexivity|].
  rewrite (bind_Ok _ _ _ _ _ (Hf a ltac:(left))). apply IH.
  intros b Hb. apply Hf. right. exact Hb.
Qed.

Lemma sum_labels_insert (md : list Z) (i : nat) (w w' : Z) :
  md !! i = Some w ->
  sum_labels (<[i := w']> md) = sum_labels md - Meta.Get_Label w + Meta.Get_Label w'.
Proof.
  revert i. induction md as [|x md IH]; intros [|i] H; simpl in *; try discriminate.
  - injection H as ->. lia.
  - rewrite (IH i H). lia.
Qed.


Lemma well_formed_intro {I : Type} (tg : Target) (B : Z) (t : CBG I) :
  2 <= B <= 4 -> 0 < num_buckets t < SIZE_MOD tg ->
  num_buckets t <= Z.of_nat (length (metadata t)) ->
  num_buckets t <= Z.of_nat (length (elems t)) ->
  (forall p, 0 <= p < num_buckets t ->
     exists w, read (metadata t) p = Some w /\
               window_in_range B (num_buckets t) p w = true) ->
  well_formed tg B t = true.
Proof.
  intros HB Hn Hm He Hw. unfold well_formed. rewrite !andb_true_iff.
  repeat split; try (apply Z.leb_le; lia); try (apply Z.ltb_lt; lia).
  apply forallb_forall. intros p Hp. apply list_elem_of_In, elem_of_seqZ in Hp.
  destruct (Hw p ltac:(lia)) as (w & -> & Hok). exact Hok.
Qed.

Lemma full_table_spec {I : Type} (t : CBG I) :
  full_table t = true <-> forall p, 0 <= p < num_buckets t -> label_at t p <> 0.
Proof.
  unfold full_table. rewrite forallb_forall. split.
  - intros H p Hp. specialize (H p). 
    assert (Hin : In p (seqZ 0 (num_buckets t))) by (apply list_elem_of_In, elem_of_seqZ; lia).
    specialize (H Hin). destruct (Z.eqb_spec (label_at t p) 0); [discriminate|assumption].
  - intros H p Hp. apply list_elem_of_In, elem_of_seqZ in Hp.
    destruct (Z.eqb_spec (label_at t p) 0) as [E|E]; [|reflexivity].
    exfalso. apply (H p); [lia|exact E].
Qed.

Section FullTable.

Context {INSERT_TYPE KEY_TYPE : Type}.
Variable tg : Target.
Variable ly : Layout.
Variable B : Z.
Variable key_of : INSERT_TYPE -> KEY_TYPE.
Variable HASHER : KEY_TYPE -> Z * Z.

Abbreviation Tf := (CBG INSERT_TYPE).

Section OneTable.

Variable t : Tf.
Hypothesis Hwf : well_formed tg B t = true.
Hypothesis Hfull : full_table t = true.

Lemma full_cell p :
  0 <= p < num_buckets t ->
  exists w, read (metadata t) p = Some w /\ Meta.Get_Label w <> 0 /\
            window_in_range B (num_buckets t) p w = true.
Proof.
  intros Hp. destruct (well_formed_spec _ _ _ Hwf) as (_ & _ & _ & _ & Hw).
  destruct (Hw p Hp) as (w & Hr & Hok). exists w. split; [exact Hr|]. split; [|exact Hok].
  pose proof (proj1 (full_table_spec t) Hfull p Hp) as Hl.
  unfold label_at, word_at in Hl. rewrite Hr in Hl. exact Hl.
Qed.

Lemma Is_Empty_full p :
  0 <= p < num_buckets t -> Is_Empty p t = Ok (false, t).
Proof.
  intros Hp. destruct (full_cell p Hp) as (w & Hr & Hl & _).
  rewrite (Is_Empty_Ok _ _ _ Hr). destruct (Z.eqb_spec (Meta.Get_Label w) 0); congruence.
Qed.

Lemma Count_Empty_full pos :
  0 <= pos -> pos + B - 1 < num_buckets t -> Count_Empty tg B pos t = Ok (0, t).
Proof.
  intros H0 H1. destruct (well_formed_spec _ _ _ Hwf) as (HB & Hn & _).
  unfold Count_Empty. rewrite (bind_Ok _ _ _ _ _ (Is_Empty_full pos ltac:(lia))).
  apply foldM_fixed. intros i Hi. apply elem_of_seqZ in Hi.
  rewrite wrap_small by lia.
  rewrite (bind_Ok _ _ _ _ _ (Is_Empty_full (pos + i) ltac:(lia))). reflexivity.
Qed.

Lemma hopscotch_reverse_bucket_full b bi :
  0 <= b < num_buckets t ->
  hopscotch_reverse_bucket tg ly B b bi t = Ok (inr bi, t).
Proof.
  intros Hb. destruct (well_formed_spec _ _ _ Hwf) as (HB & Hn & _).
  destruct (full_cell b Hb) as (w & Hr & _).
  unfold hopscotch_reverse_bucket.
  rewrite (bind_Ok _ _ _ _ _ (Is_Bucket_Reversed_Ok _ _ _ Hr)).
  destruct (negb _ && (B <=? b)) eqn:E; [|reflexivity].
  apply andb_true_iff in E as [_ E]. apply Z.leb_le in E.
  rewrite (wrap_small tg (b + 1 - B)) by lia.
  rewrite (bind_Ok _ _ _ _ _ (Count_Empty_full (b + 1 - B) ltac:(lia) ltac:(lia))).
  reflexivity.
Qed.

Lemma hopscotch_reverse_elems_full b bi offsets :
  2 * B <= bi ->
  (forall i, i ∈ offsets -> 0 <= i /\ bi + i < num_buckets t) ->
  hopscotch_reverse_elems tg ly B b bi offsets t = Ok (None, t).
Proof.
  intros Hbi. destruct (well_formed_spec _ _ _ Hwf) as (HB & Hn & _).
  induction offsets as [|i rest IH]; intros Hoff; cbn [hopscotch_reverse_elems];
    [reflexivity|].
  assert (IH' : hopscotch_reverse_elems tg ly B b bi rest t = Ok (None, t)).
  { apply IH. intros j Hj. apply Hoff. right. exact Hj. }
  destruct (Hoff i ltac:(left)) as [Hi0 Hi1].
  rewrite (wrap_small tg (bi + i)) by lia.
  destruct (full_cell (bi + i) ltac:(lia)) as (w & Hr & _).
  rewrite (bind_Ok _ _ _ _ _ (Is_Item_In_Reverse_Bucket_Ok _ _ _ Hr)).
  destruct (Meta.Is_Item_In_Reverse_Bucket w); [exact IH'|].
  rewrite (bind_Ok _ _ _ _ _ (Distance_to_Entry_Bin_Ok _ _ _ Hr)).
  pose proof (Distance_to_Entry_Bin_range w) as Hd.
  set (d := Meta.Distance_to_Entry_Bin w) in *.
  rewrite (wrap_small tg (bi + i - d)) by lia.
  destruct (_ =? b); [exact IH'|].
  rewrite (wrap_small tg (bi + i - d + 1 - B)) by lia.
  rewrite (bind_Ok _ _ _ _ _ (Count_Empty_full (bi + i - d + 1 - B) ltac:(lia) ltac:(lia))).
  exact IH'.
Qed.

Lemma hopscotch_scan_full fuel : forall bi i maxd,
  0 <= bi -> 0 <= i -> bi + i <= num_buckets t ->
  num_buckets t - (bi + i) < Z.of_nat fuel ->
  hopscotch_scan tg ly B fuel bi i maxd t = Ok (SIZE_MAX tg, t).
Proof.
  destruct (well_formed_spec _ _ _ Hwf) as (HB & Hn & _).
  induction fuel as [|fuel IH]; intros bi i maxd Hb Hi Hle Hf;
    cbn [hopscotch_scan]; unfold bind at 1, get_num_buckets;
    rewrite (wrap_small tg (bi + i)) by lia;
    destruct ((i <=? maxd) && (bi + i <? num_buckets t)) eqn:E; try reflexivity;
    apply andb_true_iff in E as [_ E]; apply Z.ltb_lt in E; [lia|].
  rewrite (bind_Ok _ _ _ _ _ (Is_Empty_full (bi + i) ltac:(lia))).
  destruct (full_cell (bi + i) ltac:(lia)) as (w & Hr & _).
  rewrite (bind_Ok _ _ _ _ _ (Distance_to_Entry_Bin_Ok _ _ _ Hr)).
  rewrite (wrap_small tg (i + 1)) by lia.
  apply IH; lia.
Qed.

Lemma Find_Empty_Pos_Hopscotch_full b bi :
  0 <= b < num_buckets t -> 0 <= bi -> bi + B - 1 < num_buckets t ->
  Find_Empty_Pos_Hopscotch tg ly B b bi t = Ok (SIZE_MAX tg, t).
Proof.
  intros Hb Hbi0 Hbi1.
  destruct (well_formed_spec _ _ _ Hwf) as (HB & Hn & Hlen & _).
  unfold Find_Empty_Pos_Hopscotch.
  rewrite (bind_Ok _ _ _ _ _ (hopscotch_reverse_bucket_full b bi Hb)).
  assert (Hscan : (do fuel <- loop_fuel;
                   hopscotch_scan tg ly B fuel bi 0 (wrap tg (B - 1))) t
                  = Ok (SIZE_MAX tg, t)).
  { unfold bind at 1, loop_fuel. apply hopscotch_scan_full; lia. }
  destruct (2 * B <=? bi) eqn:E.
  - apply Z.leb_le in E.
    rewrite (bind_Ok _ _ _ _ _ (hopscotch_reverse_elems_full b bi (seqZ 0 B) E
               ltac:(intros i Hi; apply elem_of_seqZ in Hi; lia))).
    exact Hscan.
  - unfold bind at 1, ret at 1. exact Hscan.
Qed.

Lemma secondary_hopscotch_full b1p b2p b2i min1 h0 (elem : INSERT_TYPE) :
  0 <= b2p < num_buckets t -> 0 <= b2i -> b2i + B - 1 < num_buckets t ->
  secondary_hopscotch tg ly B b1p b2p b2i min1 h0 elem t = Ok (false, t).
Proof.
  intros Hb Hbi0 Hbi1.
  unfold secondary_hopscotch, bind at 1, get_num_buckets, bind at 1, get_num_elems.
  destruct (_ <? _); [|reflexivity].
  rewrite (bind_Ok _ _ _ _ _ (Find_Empty_Pos_Hopscotch_full b2p b2i Hb Hbi0 Hbi1)).
  rewrite Z.eqb_refl. reflexivity.
Qed.

(** The window of a bucket of a well-formed table lies inside the table. *)
Lemma bucket_window b w :
  0 <= b < num_buckets t -> read (metadata t) b = Some w ->
  window_in_range B (num_buckets t) b w = true ->
  0 <= bucket_init_of tg B b (Meta.Is_Bucket_Reversed w) /\
  bucket_init_of tg B b (Meta.Is_Bucket_Reversed w) + B - 1 < num_buckets t.
Proof.
  intros Hb Hr Hok. destruct (well_formed_spec _ _ _ Hwf) as (HB & Hn & _).
  unfold bucket_init_of, window_in_range in *.
  destruct (Meta.Is_Bucket_Reversed w).
  - apply Z.leb_le in Hok. replace (1 - B) with (- (B - 1)) by lia.
    rewrite wrap_add_wrap_neg by lia. lia.
  - apply Z.ltb_lt in Hok. rewrite Z.add_0_r, wrap_small by lia. lia.
Qed.

Lemma minimum_labels_full b1i b2i :
  0 <= b1i -> b1i + B - 1 < num_buckets t ->
  0 <= b2i -> b2i + B - 1 < num_buckets t ->
  exists min1 pos1 min2 pos2,
    minimum_labels tg B b1i b2i t = Ok (((min1, pos1), (min2, pos2)), t) /\
    1 <= min1 <= 7 /\ 1 <= min2 <= 7 /\
    (b1i <= pos1 < b1i + B /\ label_at t pos1 = min1) /\
    (b2i <= pos2 < b2i + B /\ label_at t pos2 = min2).
Proof.
  intros H10 H11 H20 H21. destruct (well_formed_spec _ _ _ Hwf) as (HB & Hn & _).
  assert (Hget : forall p, 0 <= p < num_buckets t ->
            Get_Label p t = Ok (label_at t p, t)).
  { intros p Hp. destruct (full_cell p Hp) as (w & Hr & _).
    rewrite (Get_Label_Ok _ _ _ Hr). unfold label_at, word_at. rewrite Hr. reflexivity. }
  assert (Htot : exists s, minimum_labels tg B b1i b2i t = Ok (s, t)).
  { unfold minimum_labels.
    rewrite (bind_Ok _ _ _ _ _ (Hget b1i ltac:(lia))).
    rewrite (bind_Ok _ _ _ _ _ (Hget b2i ltac:(lia))).
    apply foldM_total. intros [[m1 p1] [m2 p2]] i Hi. apply elem_of_seqZ in Hi.
    rewrite !wrap_small by lia.
    rewrite (bind_Ok _ _ _ _ _ (Hget (b1i + i) ltac:(lia))).
    rewrite (bind_Ok _ _ _ _ _ (Hget (b2i + i) ltac:(lia))).
    eexists. reflexivity. }
  destruct Htot as [[[min1 pos1] [min2 pos2]] Hm].
  exists min1, pos1, min2, pos2. split; [exact Hm|].
  apply minimum_labels_spec in Hm
    as (_ & _ & _ & (i & Hi & Hp1 & Hl1) & (j & Hj & Hp2 & Hl2));
    [|lia|apply wrap_small; lia|apply wrap_small; lia].
  rewrite wrap_small in Hp1, Hp2 by lia.
  pose proof (proj1 (full_table_spec t) Hfull) as Hne.
  pose proof (Hne pos1 ltac:(lia)). pose proof (Hne pos2 ltac:(lia)).
  pose proof (Get_Label_range (word_at t pos1)). pose proof (Get_Label_range (word_at t pos2)).
  unfold label_at in *. repeat split; lia.
Qed.

End OneTable.

Lemma Set_Unlucky_Bucket_full (s : Tf) b :
  well_formed tg B s = true -> full_table s = true -> 0 <= b < num_buckets s ->
  exists s1, Set_Unlucky_Bucket b s = Ok (tt, s1) /\
    well_formed tg B s1 = true /\ full_table s1 = true /\
    length (metadata s1) = length (metadata s) /\
    sum_labels (metadata s1) = sum_labels (metadata s) /\
    elems s1 = elems s /\ num_buckets s1 = num_buckets s /\
    forall q, label_at s1 q = label_at s q.
Proof.
  intros Hwf Hfull Hb.
  destruct (well_formed_spec _ _ _ Hwf) as (HB & Hn & Hlm & Hle & Hw).
  destruct (full_cell s Hwf Hfull b Hb) as (w & Hr & Hl & Hok).
  pose proof (proj1 (read_Some _ _ _) Hr) as [Hin Hlk].
  pose proof (write_in_range (metadata s) b (Meta.Set_Unlucky_Bucket w) Hin) as Hwr.
  eexists. split.
  { unfold Set_Unlucky_Bucket. rewrite (bind_Ok _ _ _ _ _ (md_at_Ok _ _ _ Hr)).
    unfold md_store. rewrite Hwr. reflexivity. }
  cbn [metadata elems num_buckets].
  assert (Hlab : forall q,
            label_at (mkCBG (<[Z.to_nat b := Meta.Set_Unlucky_Bucket w]> (metadata s))
                            (elems s) (num_elems s) (num_buckets s)
                            (_max_load_factor s) (_grow_factor s)) q = label_at s q).
  { intros q. unfold label_at, word_at. cbn [metadata].
    destruct (Z.eq_dec q b) as [->|Hne].
    - rewrite (read_write_same _ _ _ _ Hwr), Hr. simpl. apply Set_Unlucky_label.
    - rewrite (read_write_other _ _ _ _ _ Hwr Hne). reflexivity. }
  split; [|split; [|split; [|split; [|split; [|split]]]]]; try reflexivity.
  - apply well_formed_intro; cbn [metadata elems num_buckets]; try lia.
    + rewrite length_insert. lia.
    + intros p Hp. destruct (Z.eq_dec p b) as [->|Hne].
      * rewrite (read_write_same _ _ _ _ Hwr). eexists. split; [reflexivity|].
        unfold window_in_range in *. rewrite Set_Unlucky_bucket_reversed. exact Hok.
      * rewrite (read_write_other _ _ _ _ _ Hwr Hne). apply Hw. exact Hp.
  - apply full_table_spec. cbn [num_buckets]. intros p Hp. rewrite Hlab.
    apply (proj1 (full_table_spec s) Hfull). exact Hp.
  - apply length_insert.
  - rewrite (sum_labels_insert _ _ _ _ Hlk), Set_Unlucky_label. lia.
  - exact Hlab.
Qed.

Lemma evict_full (s : Tf) pos bi rev label hash (elem : INSERT_TYPE) :
  well_formed tg B s = true -> full_table s = true ->
  0 <= pos < num_buckets s -> 0 <= pos - bi <= 3 ->
  label_at s pos < label <= 7 ->
  exists v s', evict tg ly pos bi rev label hash elem s = Ok (Evicted v, s') /\
    well_formed tg B s' = true /\ full_table s' = true /\
    length (metadata s') = length (metadata s) /\
    sum_labels (metadata s) < sum_labels (metadata s') /\
    read (elems s) pos = Some v /\ read (elems s') pos = Some elem /\
    label_at s' pos = label.
Proof.
  intros Hwf Hfull Hp Hd Hlabel.
  destruct (well_formed_spec _ _ _ Hwf) as (HB & Hn & Hlm & Hle & Hw).
  destruct (full_cell s Hwf Hfull pos Hp) as (w & Hr & Hl & Hok).
  pose proof (proj1 (read_Some _ _ _) Hr) as [Hin Hlk].
  destruct (read_in_range (elems s) pos ltac:(lia)) as [v Hv].
  set (w' := Meta.Update_Bin tg ly w (wrap tg (pos - bi)) rev label hash).
  pose proof (write_in_range (metadata s) pos w' Hin) as Hwr.
  pose proof (write_in_range (elems s) pos elem ltac:(lia)) as Hwe.
  assert (Hlw : label_at s pos = Meta.Get_Label w).
  { unfold label_at, word_at. rewrite Hr. reflexivity. }
  pose proof (Get_Label_range w) as Hrange.
  assert (Hl' : Meta.Get_Label w' = label) by (apply Update_Bin_label_any; lia).
  assert (Hrev : Meta.Is_Bucket_Reversed w' = Meta.Is_Bucket_Reversed w).
  { assert (3 < SIZE_MOD tg) by (destruct tg; reflexivity).
    apply Update_Bin_bucket_reversed; [rewrite wrap_small; lia|lia]. }
  exists v. eexists. split.
  { unfold evict, Update_Bin_At, bind, md_at, md_store, GetElem, SaveElem, ret.
    rewrite Hr. fold w'. rewrite Hwr.
    cbn [metadata elems num_elems num_buckets _max_load_factor _grow_factor].
    rewrite Hv. cbn [metadata elems num_elems num_buckets _max_load_factor _grow_factor]. rewrite Hwe. reflexivity. }
  cbn [metadata elems num_buckets].
  assert (Hlab : forall q, q <> pos ->
            label_at (mkCBG (<[Z.to_nat pos := w']> (metadata s))
                            (<[Z.to_nat pos := elem]> (elems s)) (num_elems s)
                            (num_buckets s) (_max_load_factor s) (_grow_factor s)) q
            = label_at s q).
  { intros q Hne. unfold label_at, word_at. cbn [metadata].
    rewrite (read_write_other _ _ _ _ _ Hwr Hne). reflexivity. }
  assert (Hlabp : label_at (mkCBG (<[Z.to_nat pos := w']> (metadata s))
                            (<[Z.to_nat pos := elem]> (elems s)) (num_elems s)
                            (num_buckets s) (_max_load_factor s) (_grow_factor s)) pos
                  = label).
  { unfold label_at, word_at. cbn [metadata].
    rewrite (read_write_same _ _ _ _ Hwr). exact Hl'. }
  split; [|split; [|split; [|split; [|split; [|split]]]]].
  - apply well_formed_intro; cbn [metadata elems num_buckets]; try lia.
    + rewrite length_insert. lia.
    + rewrite length_insert. lia.
    + intros p Hp'. destruct (Z.eq_dec p pos) as [->|Hne].
      * rewrite (read_write_same _ _ _ _ Hwr). eexists. split; [reflexivity|].
        unfold window_in_range in *. rewrite Hrev. exact Hok.
      * rewrite (read_write_other _ _ _ _ _ Hwr Hne). apply Hw. exact Hp'.
  - apply full_table_spec. cbn [num_buckets]. intros p Hp'.
    destruct (Z.eq_dec p pos) as [->|Hne].
    + rewrite Hlabp. lia.
    + rewrite (Hlab p Hne). apply (proj1 (full_table_spec s) Hfull). exact Hp'.
  - apply length_insert.
  - rewrite (sum_labels_insert _ _ _ _ Hlk), Hl'. lia.
  - exact Hv.
  - apply (read_write_same _ _ _ _ Hwe).
  - exact Hlabp.
Qed.

(** One iteration on a well-formed table without empty cells: both
    hopscotch attempts fail without touching the table, and the iteration
    either reports failure or evicts the resident of a cell whose label
    it raises. *)
Lemma try_insert_round_full (elem : INSERT_TYPE) (t : Tf) :
  well_formed tg B t = true -> full_table t = true ->
  exists r t', try_insert_round tg ly B key_of HASHER elem t = Ok (r, t') /\
    match r with
    | Inserted => False
    | Failed => t' = t
    | Evicted v =>
        well_formed tg B t' = true /\ full_table t' = true /\
        length (metadata t') = length (metadata t) /\
        sum_labels (metadata t) < sum_labels (metadata t') /\
        exists pos, read (elems t) pos = Some v /\ read (elems t') pos = Some elem /\
                    label_at t pos < label_at t' pos
    end.
Proof.
  intros Hwf Hfull.
  destruct (well_formed_spec _ _ _ Hwf) as (HB & Hn & Hlm & Hle & Hw).
  pose proof (hash_elem_range tg HASHER (key_of elem)) as [Hh0 Hh1].
  set (h0 := fst (hash_elem tg HASHER (key_of elem))) in *.
  set (h1 := snd (hash_elem tg HASHER (key_of elem))) in *.
  pose proof (fastrange_range tg h0 (num_buckets t) Hh0 Hn) as Hb1.
  pose proof (fastrange_range tg h1 (num_buckets t) Hh1 Hn) as Hb2.
  set (b1p := fastrange tg h0 (num_buckets t)) in *.
  set (b2p := fastrange tg h1 (num_buckets t)) in *.
  destruct (full_cell t Hwf Hfull b1p Hb1) as (w1 & Hr1 & _ & Hok1).
  destruct (full_cell t Hwf Hfull b2p Hb2) as (w2 & Hr2 & _ & Hok2).
  destruct (bucket_window t Hwf b1p w1 Hb1 Hr1 Hok1) as [Hi10 Hi11].
  destruct (bucket_window t Hwf b2p w2 Hb2 Hr2 Hok2) as [Hi20 Hi21].
  set (rev1 := Meta.Is_Bucket_Reversed w1) in *.
  set (rev2 := Meta.Is_Bucket_Reversed w2) in *.
  set (b1i := bucket_init_of tg B b1p rev1) in *.
  set (b2i := bucket_init_of tg B b2p rev2) in *.
  destruct (minimum_labels_full t Hwf Hfull b1i b2i Hi10 Hi11 Hi20 Hi21)
    as (min1 & pos1 & min2 & pos2 & Hm & Hm1 & Hm2 & [Hp1 Hl1] & [Hp2 Hl2]).
  pose proof (try_insert_round_last_step tg ly B key_of HASHER elem t t t
                rev1 rev2 min1 pos1 min2 pos2
                (Is_Bucket_Reversed_Ok _ _ _ Hr1) (Is_Bucket_Reversed_Ok _ _ _ Hr2) Hm
                ltac:(lia) ltac:(lia)
                (Find_Empty_Pos_Hopscotch_full t Hwf Hfull b1p b1i Hb1 Hi10 Hi11)
                (secondary_hopscotch_full t Hwf Hfull b1p b2p b2i min1 h0 elem
                   Hb2 Hi20 Hi21)) as Heq.
  rewrite Heq. fold h0 h1 b1p b2p b1i b2i. unfold evict_or_fail.
  destruct (Z.leb_spec L_MAX (Z.min min1 min2)) as [Hmax|Hmax].
  { exists Failed, t. split; reflexivity. }
  unfold L_MAX, Meta.L_MAX in *.
  destruct (Z.leb_spec min1 min2) as [Hle12|Hgt12].
  - destruct (evict_full t pos1 b1i rev1 (Z.min (min2 + 1) 7) h1 elem Hwf Hfull)
      as (v & t' & He & Hwf' & Hfull' & Hlen & Hsum & Hv & He' & Hlab); try lia.
    exists (Evicted v), t'. split; [exact He|].
    repeat (split; [assumption|]). exists pos1. repeat (split; [assumption|]). lia.
  - destruct (Set_Unlucky_Bucket_full t b1p Hwf Hfull Hb1)
      as (t1 & Hu & Hwf1 & Hfull1 & Hlen1 & Hsum1 & Hel1 & Hnb1 & Hlab1).
    rewrite (bind_Ok _ _ _ _ _ Hu).
    destruct (evict_full t1 pos2 b2i rev2 (Z.min (min1 + 1) 7) h0 elem Hwf1 Hfull1)
      as (v & t' & He & Hwf' & Hfull' & Hlen & Hsum & Hv & He' & Hlab);
      try (rewrite ?Hlab1; lia).
    exists (Evicted v), t'. split; [exact He|].
    repeat (split; [assumption|]). split; [congruence|]. split; [lia|].
    exists pos2. rewrite <- Hel1. repeat (split; [assumption|]). lia.
Qed.



End FullTable.

Lemma full16_is_full16_table : Sample.full16 = Ok Sample.full16_table.
Proof. vm_compute. reflexivity. Qed.



(* ===================================================================== *)
(** * The metadata word: what is written can be read back *)
(* ===================================================================== *)

Lemma testbit_65280 (n : Z) :
  Z.testbit 65280 n = (8 <=? n) && (n <? 16).
Proof.
  destruct (Z.leb_spec 8 n) as [H8|H8]; destruct (Z.ltb_spec n 16) as [H16|H16]; simpl.
  - assert (n = 8 \/ n = 9 \/ n = 10 \/ n = 11 \/ n = 12 \/ n = 13 \/ n = 14 \/ n = 15)
      as [->|[->|[->|[->|[->|[->|[->| ->]]]]]]] by lia; reflexivity.
  - apply (testbit_small 65280 n 16); [split; [lia|reflexivity]|lia].
  - destruct (Z.neg_nonneg_cases n) as [Hneg|Hpos]; [apply Z.testbit_neg_r; exact Hneg|].
    assert (n = 0 \/ n = 1 \/ n = 2 \/ n = 3 \/ n = 4 \/ n = 5 \/ n = 6 \/ n = 7)
      as [->|[->|[->|[->|[->|[->|[->| ->]]]]]]] by lia; reflexivity.
  - lia.
Qed.

Lemma Update_Bin_distance tg ly w d r label hash :
  0 <= d <= 3 -> 0 <= label <= 7 ->
  Meta.Distance_to_Entry_Bin (Meta.Update_Bin tg ly w d r label hash) = d.
Proof.
  intros Hd Hl. unfold Meta.Distance_to_Entry_Bin. apply Z.bits_inj'. intros n Hn.
  rewrite Z.land_spec, Z.shiftr_spec by lia.
  destruct (Z.ltb_spec n 2) as [H2|H2].
  - rewrite Update_Bin_testbit by lia.
    assert (n = 0 \/ n = 1) as [-> | ->] by lia; simpl;
      rewrite andb_true_r; reflexivity.
  - rewrite (testbit_small 3 n 2), (testbit_small d n 2) by lia. apply andb_false_r.
Qed.

Lemma Update_Bin_reverse_item tg ly w d r label hash :
  0 <= d <= 3 -> 0 <= label <= 7 ->
  Meta.Is_Item_In_Reverse_Bucket (Meta.Update_Bin tg ly w d r label hash) = r.
Proof.
  intros Hd Hl. rewrite Is_Item_In_Reverse_Bucket_testbit, Update_Bin_testbit by lia.
  reflexivity.
Qed.

Lemma Update_Bin_unlucky tg ly w d r label hash :
  0 <= d <= 3 -> 0 <= label <= 7 ->
  Meta.Is_Unlucky_Bucket (Meta.Update_Bin tg ly w d r label hash) =
  Meta.Is_Unlucky_Bucket w.
Proof.
  intros Hd Hl. rewrite !Is_Unlucky_Bucket_testbit, Update_Bin_testbit by lia.
  reflexivity.
Qed.

(** The hash byte of the struct-of-arrays word. *)
Lemma Update_Bin_hash_SoA tg w d r label hash :
  0 <= d <= 3 -> 0 <= label <= 7 ->
  Z.land (Meta.Update_Bin tg SoA w d r label hash) 65280 = Z.land hash 65280.
Proof.
  intros Hd Hl. apply Z.bits_inj'. intros n Hn.
  rewrite !Z.land_spec, testbit_65280.
  destruct (Z.leb_spec 8 n) as [H8|H8]; [|rewrite !andb_false_r; reflexivity].
  destruct (Z.ltb_spec n 16) as [H16|H16]; [|rewrite !andb_false_r; reflexivity].
  cbn [andb]. rewrite !andb_true_r.
  unfold Meta.Update_Bin. rewrite Z.mod_pow2_bits_low by lia.
  rewrite !Z.lor_spec, !Z.land_spec, testbit_65280.
  replace ((8 <=? n) && (n <? 16)) with true
    by (symmetry; apply andb_true_iff; split; [apply Z.leb_le|apply Z.ltb_lt]; lia).
  rewrite (testbit_small 192 n 8) by lia.
  rewrite (testbit_small label n 8) by lia.
  assert (Hrev : Z.testbit (if r then 32 else 0) n = false).
  { destruct r; [apply (testbit_small 32 n 8); lia|apply Z.bits_0]. }
  assert (Hsh : Z.testbit (wrap tg (Z.shiftl d 3)) n = false).
  { assert (3 < SIZE_MOD tg) by (destruct tg; reflexivity).
    assert (32 < SIZE_MOD tg) by (destruct tg; reflexivity).
    rewrite Z.shiftl_mul_pow2 by lia. rewrite wrap_small by lia.
    apply (testbit_small _ n 8); lia. }
  rewrite Hrev, Hsh, !andb_false_r, !andb_true_r, !orb_false_r. reflexivity.
Qed.

Lemma Update_Bin_range tg ly w d r label hash :
  0 <= Meta.Update_Bin tg ly w d r label hash < 2 ^ META_BITS ly.
Proof.
  unfold Meta.Update_Bin, META_BITS. destruct ly; apply Z.mod_pos_bound; lia.
Qed.

(** the word [Update_Bin_At] writes decodes to the fields it was
    given. For a distance of at most 3 and a label of at most 7, the
    label, the distance and the reversed-item bit read back as written,
    the two bucket flags are those of the old word, the word is empty
    exactly when the label written is 0, the word fits the metadata
    type, and in the struct-of-arrays layout the hash byte is bits
    8..15 of the hash given. *)
Lemma Update_Bin_fields tg ly w d r label hash :
  0 <= d <= 3 -> 0 <= label <= 7 ->
  Meta.Get_Label (Meta.Update_Bin tg ly w d r label hash) = label /\
  Meta.Distance_to_Entry_Bin (Meta.Update_Bin tg ly w d r label hash) = d /\
  Meta.Is_Item_In_Reverse_Bucket (Meta.Update_Bin tg ly w d r label hash) = r /\
  Meta.Is_Bucket_Reversed (Meta.Update_Bin tg ly w d r label hash)
    = Meta.Is_Bucket_Reversed w /\
  Meta.Is_Unlucky_Bucket (Meta.Update_Bin tg ly w d r label hash)
    = Meta.Is_Unlucky_Bucket w /\
  Meta.Is_Empty (Meta.Update_Bin tg ly w d r label hash) = (label =? 0) /\
  Meta.Get_Hash ly (Meta.Update_Bin tg ly w d r label hash)
    = (if IS_SoA ly then Z.land hash 65280 else 0) /\
  0 <= Meta.Update_Bin tg ly w d r label hash < 2 ^ META_BITS ly.
Proof.
  intros Hd Hl.
  pose proof (Update_Bin_label_any tg ly w d r label hash Hl) as Hlab.
  split; [exact Hlab|].
  split; [apply Update_Bin_distance; assumption|].
  split; [apply Update_Bin_reverse_item; assumption|].
  split; [apply Update_Bin_bucket_reversed; assumption|].
  split; [apply Update_Bin_unlucky; assumption|].
  split; [unfold Meta.Is_Empty; rewrite Hlab; reflexivity|].
  split; [|apply Update_Bin_range].
  destruct ly; cbn [IS_SoA Meta.Get_Hash]; try reflexivity.
  apply Update_Bin_hash_SoA; assumption.
Qed.

(** The two bucket flags. *)

Lemma Set_Bucket_Reversed_testbit (w n : Z) :
  0 <= n ->
  Z.testbit (Meta.Set_Bucket_Reversed w) n = (n =? 6) || Z.testbit w n.
Proof.
  intros Hn. unfold Meta.Set_Bucket_Reversed. rewrite Z.lor_spec.
  change 64 with (2 ^ 6). rewrite Z.pow2_bits_eqb by lia.
  rewrite (Z.eqb_sym 6 n). apply orb_comm.
Qed.

Lemma Set_Unlucky_Bucket_testbit (w n : Z) :
  0 <= n ->
  Z.testbit (Meta.Set_Unlucky_Bucket w) n = (n =? 7) || Z.testbit w n.
Proof.
  intros Hn. unfold Meta.Set_Unlucky_Bucket. rewrite Z.lor_spec.
  change 128 with (2 ^ 7). rewrite Z.pow2_bits_eqb by lia.
  rewrite (Z.eqb_sym 7 n). apply orb_comm.
Qed.

Lemma Get_Label_testbit (w w' : Z) :
  (forall n, 0 <= n < 3 -> Z.testbit w' n = Z.testbit w n) ->
  Meta.Get_Label w' = Meta.Get_Label w.
Proof.
  intros H. unfold Meta.Get_Label. apply Z.bits_inj'. intros n Hn.
  rewrite !Z.land_spec. destruct (Z.ltb_spec n 3) as [H3|H3].
  - rewrite H by lia. reflexivity.
  - rewrite (testbit_small 7 n 3) by lia. rewrite !andb_false_r. reflexivity.
Qed.

Lemma Distance_testbit (w w' : Z) :
  (forall n, 3 <= n < 5 -> Z.testbit w' n = Z.testbit w n) ->
  Meta.Distance_to_Entry_Bin w' = Meta.Distance_to_Entry_Bin w.
Proof.
  intros H. unfold Meta.Distance_to_Entry_Bin. apply Z.bits_inj'. intros n Hn.
  rewrite !Z.land_spec, !Z.shiftr_spec by lia. destruct (Z.ltb_spec n 2) as [H2|H2].
  - rewrite H by lia. reflexivity.
  - rewrite (testbit_small 3 n 2) by lia. rewrite !andb_false_r. reflexivity.
Qed.

Lemma Get_Hash_testbit ly (w w' : Z) :
  (forall n, 8 <= n < 16 -> Z.testbit w' n = Z.testbit w n) ->
  Meta.Get_Hash ly w' = Meta.Get_Hash ly w.
Proof.
  intros H. destruct ly; cbn [Meta.Get_Hash]; try reflexivity.
  apply Z.bits_inj'. intros n Hn. rewrite !Z.land_spec, testbit_65280.
  destruct (Z.leb_spec 8 n); destruct (Z.ltb_spec n 16); cbn [andb];
    rewrite ?andb_false_r, ?andb_true_r; try reflexivity.
  apply H. lia.
Qed.

(** [Set_Bucket_Reversed] and [Set_Unlucky_Bucket] set their own
    bit and nothing else: the label, the distance, the reversed-item
    bit, the hash byte and the other flag of the word are kept, and
    setting a flag twice is setting it once. *)
Lemma flag_setters_fields (ly : Layout) (w : Z) :
  (Meta.Is_Bucket_Reversed (Meta.Set_Bucket_Reversed w) = true /\
   Meta.Is_Unlucky_Bucket (Meta.Set_Bucket_Reversed w) = Meta.Is_Unlucky_Bucket w /\
   Meta.Get_Label (Meta.Set_Bucket_Reversed w) = Meta.Get_Label w /\
   Meta.Distance_to_Entry_Bin (Meta.Set_Bucket_Reversed w)
     = Meta.Distance_to_Entry_Bin w /\
   Meta.Is_Item_In_Reverse_Bucket (Meta.Set_Bucket_Reversed w)
     = Meta.Is_Item_In_Reverse_Bucket w /\
   Meta.Get_Hash ly (Meta.Set_Bucket_Reversed w) = Meta.Get_Hash ly w /\
   Meta.Set_Bucket_Reversed (Meta.Set_Bucket_Reversed w) = Meta.Set_Bucket_Reversed w) /\
  (Meta.Is_Unlucky_Bucket (Meta.Set_Unlucky_Bucket w) = true /\
   Meta.Is_Bucket_Reversed (Meta.Set_Unlucky_Bucket w) = Meta.Is_Bucket_Reversed w /\
   Meta.Get_Label (Meta.Set_Unlucky_Bucket w) = Meta.Get_Label w /\
   Meta.Distance_to_Entry_Bin (Meta.Set_Unlucky_Bucket w)
     = Meta.Distance_to_Entry_Bin w /\
   Meta.Is_Item_In_Reverse_Bucket (Meta.Set_Unlucky_Bucket w)
     = Meta.Is_Item_In_Reverse_Bucket w /\
   Meta.Get_Hash ly (Meta.Set_Unlucky_Bucket w) = Meta.Get_Hash ly w /\
   Meta.Set_Unlucky_Bucket (Meta.Set_Unlucky_Bucket w) = Meta.Set_Unlucky_Bucket w).
Proof.
  assert (Hb : forall n, 0 <= n -> n <> 6 ->
            Z.testbit (Meta.Set_Bucket_Reversed w) n = Z.testbit w n).
  { intros n Hn Hne. rewrite Set_Bucket_Reversed_testbit by lia.
    destruct (Z.eqb_spec n 6); [contradiction|reflexivity]. }
  assert (Hu : forall n, 0 <= n -> n <> 7 ->
            Z.testbit (Meta.Set_Unlucky_Bucket w) n = Z.testbit w n).
  { intros n Hn Hne. rewrite Set_Unlucky_Bucket_testbit by lia.
    destruct (Z.eqb_spec n 7); [contradiction|reflexivity]. }
  split.
  - split; [rewrite Is_Bucket_Reversed_testbit, Set_Bucket_Reversed_testbit by lia;
            reflexivity|].
    split; [rewrite !Is_Unlucky_Bucket_testbit; apply Hb; lia|].
    split; [apply Get_Label_testbit; intros; apply Hb; lia|].
    split; [apply Distance_testbit; intros; apply Hb; lia|].
    split; [rewrite !Is_Item_In_Reverse_Bucket_testbit; apply Hb; lia|].
    split; [apply Get_Hash_testbit; intros; apply Hb; lia|].
    unfold Meta.Set_Bucket_Reversed. rewrite <- Z.lor_assoc. reflexivity.
  - split; [apply Set_Unlucky_is_unlucky|].
    split; [apply Set_Unlucky_bucket_reversed|].
    split; [apply Set_Unlucky_label|].
    split; [apply Distance_testbit; intros; apply Hu; lia|].
    split; [rewrite !Is_Item_In_Reverse_Bucket_testbit; apply Hu; lia|].
    split; [apply Get_Hash_testbit; intros; apply Hu; lia|].
    unfold Meta.Set_Unlucky_Bucket. rewrite <- Z.lor_assoc. reflexivity.
Qed.

(* ===================================================================== *)
(** * The minimum label of one bucket *)
(* ===================================================================== *)

Lemma foldM_app {I A S : Type} (f : S -> A -> M I S) (l1 l2 : list A) (s : S) (t : CBG I) :
  foldM f s (l1 ++ l2) t = (do s' <- foldM f s l1; foldM f s' l2) t.
Proof.
  revert s t. induction l1 as [|a l1 IH]; intros s t; simpl; [reflexivity|].
  unfold bind. destruct (f s a t) as [[s1 t1]| |]; [|reflexivity|reflexivity].
  rewrite IH. reflexivity.
Qed.

Section Minimum.

Context {INSERT_TYPE : Type}.
Variable tg : Target.
Variable B : Z.

Lemma Calculate_Minimum_prefix (t : CBG INSERT_TYPE) (start : Z) (k : nat) :
  wrap tg start = start ->
  forall m p t',
    foldM (fun '(minimum, pos) i =>
             if minimum =? 0 then ret (minimum, pos)
             else
               do label_value <- Get_Label (wrap tg (start + i));
               if label_value <? minimum
               then ret (label_value, wrap tg (start + i))
               else ret (minimum, pos))
          (label_at t start, start) (seqZ 1 (Z.of_nat k)) t = Ok ((m, p), t') ->
    t' = t /\
    exists i, 0 <= i <= Z.of_nat k /\ p = wrap tg (start + i) /\ label_at t p = m /\
      (forall j, 0 <= j < i -> m < label_at t (wrap tg (start + j))) /\
      (forall j, i < j <= Z.of_nat k -> m <= label_at t (wrap tg (start + j))).
Proof.
  intros Hs. induction k as [|k IH]; intros m p t' H.
  - simpl in H. inv_monad. split; [reflexivity|]. exists 0.
    rewrite Z.add_0_r, Hs. repeat split; try lia.
  - rewrite Nat2Z.inj_succ, <- Z.add_1_r in H.
    replace (seqZ 1 (Z.of_nat k + 1)) with (seqZ 1 (Z.of_nat k) ++ [1 + Z.of_nat k]) in H
      by (rewrite <- (Nat2Z.id k) at 3; rewrite <- seqZ_S; f_equal; lia).
    rewrite foldM_app in H. apply bind_Ok_inv in H as ([m1 p1] & t1 & H1 & H2).
    destruct (IH _ _ _ H1) as (-> & i & Hi & Hp & Hl & Hbefore & Hafter).
    cbn [foldM] in H2. apply bind_Ok_inv in H2 as ([m2 p2] & t2 & Hstep & H2).
    unfold ret in H2. injection H2 as -> -> ->.
    destruct (Z.eqb_spec m1 0) as [Hz|Hnz].
    + unfold ret in Hstep. injection Hstep as <- <- <-.
      split; [reflexivity|]. exists i.
      repeat split; try lia; auto.
      intros j Hj. pose proof (Get_Label_range (word_at t (wrap tg (start + j)))).
      unfold label_at. lia.
    + apply bind_Ok_inv in Hstep as (l & t3 & Hg & Hstep).
      apply Get_Label_inv in Hg as (-> & -> & _).
      destruct (Z.ltb_spec (label_at t (wrap tg (start + (1 + Z.of_nat k)))) m1) as [Hlt|Hge];
        unfold ret in Hstep; injection Hstep as <- <- <-; (split; [reflexivity|]).
      * exists (1 + Z.of_nat k). repeat split; try lia.
        intros j Hj. destruct (Z_lt_le_dec j i) as [Hji|Hji].
        -- specialize (Hbefore j ltac:(lia)). lia.
        -- destruct (Z.eq_dec j i) as [->|Hne].
           ++ rewrite <- Hp, Hl. lia.
           ++ specialize (Hafter j ltac:(lia)). lia.
      * exists i. repeat split; try lia; auto.
        intros j Hj. destruct (Z.eq_dec j (1 + Z.of_nat k)) as [->|Hne]; [lia|].
        apply Hafter. lia.
Qed.

(** X3: [Calculate_Minimum] only reads; it returns the minimum label of
    the [B] cells of the window that starts at [start] together with
    the first cell, in scan order, that carries it. *)
Theorem Calculate_Minimum_spec (t t' : CBG INSERT_TYPE) (start m p : Z) :
  1 <= B -> wrap tg start = start ->
  Calculate_Minimum tg B start t = Ok ((m, p), t') ->
  t' = t /\
  window_min_label tg B t start m /\
  exists i, 0 <= i < B /\ p = wrap tg (start + i) /\ label_at t p = m /\
    forall j, 0 <= j < i -> m < label_at t (wrap tg (start + j)).
Proof.
  intros HB Hs H. unfold Calculate_Minimum in H.
  apply bind_Ok_inv in H as (m0 & t0 & Hg & H).
  apply Get_Label_inv in Hg as (-> & -> & _).
  replace (B - 1) with (Z.of_nat (Z.to_nat (B - 1))) in H by lia.
  apply Calculate_Minimum_prefix in H; [|exact Hs].
  destruct H as (-> & i & Hi & Hp & Hl & Hbefore & Hafter).
  split; [reflexivity|]. rewrite Z2Nat.id in * by lia. split.
  - split.
    + exists i. split; [lia|]. rewrite <- Hp. exact Hl.
    + intros j Hj. destruct (Z_lt_le_dec j i) as [Hji|Hji].
      * specialize (Hbefore j ltac:(lia)). lia.
      * destruct (Z.eq_dec j i) as [->|Hne]; [rewrite <- Hp; lia|].
        apply Hafter. lia.
  - exists i. repeat split; try lia; auto.
Qed.

(** Cells behind the first empty one are not read: the scan of a window
    whose first cell is empty returns without a second read. *)
Lemma Calculate_Minimum_first_empty (t : CBG INSERT_TYPE) (start w : Z) :
  read (metadata t) start = Some w -> Meta.Get_Label w = 0 ->
  Calculate_Minimum tg B start t = Ok ((0, start), t).
Proof.
  intros Hr Hl. unfold Calculate_Minimum.
  rewrite (bind_Ok _ _ _ _ _ (Get_Label_Ok _ _ _ Hr)), Hl.
  apply foldM_fixed. intros i _. reflexivity.
Qed.

End Minimum.

(* ===================================================================== *)
(** * Construction and [clear] *)
(* ===================================================================== *)

Lemma md_store_Ok {I : Type} (t : CBG I) (pos w : Z) :
  0 <= pos < Z.of_nat (length (metadata t)) ->
  md_store pos w t = Ok (tt, with_metadata t (<[Z.to_nat pos := w]> (metadata t))).
Proof.
  intros H. unfold md_store. rewrite (write_in_range _ _ _ H). reflexivity.
Qed.

Lemma read_insert {A : Type} (l : list A) (pos q : Z) (x : A) :
  0 <= pos < Z.of_nat (length l) ->
  read (<[Z.to_nat pos := x]> l) q = if q =? pos then Some x else read l q.
Proof.
  intros H. pose proof (write_in_range l pos x H) as Hw.
  destruct (Z.eqb_spec q pos) as [->|Hne].
  - apply (read_write_same _ _ _ _ Hw).
  - apply (read_write_other _ _ _ _ _ Hw Hne).
Qed.

Section Clearing.

Context {INSERT_TYPE : Type}.
Variable tg : Target.
Variable ly : Layout.
Variable B : Z.

Abbreviation Tc := (CBG INSERT_TYPE).

(** [Clear] zeroes the cells [[p, p + k)] and nothing else. *)
Lemma Clear_prefix (t : Tc) (p : Z) (k : nat) :
  0 <= p -> p + Z.of_nat k <= Z.of_nat (length (metadata t)) ->
  exists md, Clear p (Z.of_nat k) t = Ok (tt, with_metadata t md) /\
    length md = length (metadata t) /\
    forall q, read md q =
      if (p <=? q) && (q <? p + Z.of_nat k) then Some 0 else read (metadata t) q.
Proof.
  intros Hp. unfold Clear. induction k as [|k IH]; intros Hk.
  - exists (metadata t). split; [destruct t; reflexivity|]. split; [reflexivity|].
    intros q. destruct (p <=? q) eqn:E1; destruct (q <? p + Z.of_nat 0) eqn:E2;
      try reflexivity. apply Z.leb_le in E1. apply Z.ltb_lt in E2. lia.
  - destruct IH as (md & Hc & Hlen & Hread); [lia|].
    rewrite Nat2Z.inj_succ, <- Z.add_1_r.
    replace (seqZ 0 (Z.of_nat k + 1)) with (seqZ 0 (Z.of_nat k) ++ [0 + Z.of_nat k])
      by (rewrite <- (Nat2Z.id k) at 3; rewrite <- seqZ_S; f_equal; lia).
    rewrite foldM_app, (bind_Ok _ _ _ _ _ Hc). cbn [foldM].
    assert (Hin : 0 <= p + (0 + Z.of_nat k)
                  < Z.of_nat (length (metadata (with_metadata t md)))).
    { cbn [with_metadata metadata]. lia. }
    rewrite (bind_Ok _ _ _ _ _ (md_store_Ok _ _ 0 Hin)).
    cbn [with_metadata metadata elems num_elems num_buckets _max_load_factor _grow_factor].
    eexists. split; [reflexivity|]. split; [rewrite length_insert; exact Hlen|].
    intros q. rewrite read_insert by (cbn [with_metadata metadata] in Hin; lia).
    rewrite Hread.
    destruct (Z.eqb_spec q (p + (0 + Z.of_nat k))) as [->|Hne].
    + replace ((p <=? p + (0 + Z.of_nat k)) && (p + (0 + Z.of_nat k) <? p + (Z.of_nat k + 1)))
        with true; [reflexivity|].
      symmetry. apply andb_true_iff. split; [apply Z.leb_le|apply Z.ltb_lt]; lia.
    + destruct (Z.leb_spec p q); destruct (Z.ltb_spec q (p + Z.of_nat k));
        destruct (Z.ltb_spec q (p + (Z.of_nat k + 1))); cbn [andb]; try reflexivity; lia.
Qed.

Lemma Clear_spec (t : Tc) (p k : Z) :
  0 <= p -> 0 <= k -> p + k <= Z.of_nat (length (metadata t)) ->
  exists md, Clear p k t = Ok (tt, with_metadata t md) /\
    length md = length (metadata t) /\
    forall q, read md q =
      if (p <=? q) && (q <? p + k) then Some 0 else read (metadata t) q.
Proof.
  intros Hp Hk Hlen. rewrite <- (Z2Nat.id k) by lia. apply Clear_prefix; lia.
Qed.

(** The loop that marks the last [B - 1] buckets as reversed. *)
Lemma reverse_last_prefix (t : Tc) (n : Z) (k : nat) :
  Z.of_nat k <= n <= Z.of_nat (length (metadata t)) -> n < SIZE_MOD tg ->
  exists md,
    foldM (fun (_ : unit) i => Set_Bucket_Reversed (wrap tg (n - 1 - i))) tt
          (seqZ 0 (Z.of_nat k)) t = Ok (tt, with_metadata t md) /\
    length md = length (metadata t) /\
    forall q, read md q =
      if (n - Z.of_nat k <=? q) && (q <? n)
      then option_map Meta.Set_Bucket_Reversed (read (metadata t) q)
      else read (metadata t) q.
Proof.
  intros Hn Hmod. induction k as [|k IH].
  - exists (metadata t). split; [destruct t; reflexivity|]. split; [reflexivity|].
    intros q. destruct (Z.leb_spec (n - Z.of_nat 0) q); destruct (Z.ltb_spec q n);
      cbn [andb]; try reflexivity. lia.
  - destruct IH as (md & Hc & Hlen & Hread); [lia|].
    rewrite Nat2Z.inj_succ, <- Z.add_1_r.
    replace (seqZ 0 (Z.of_nat k + 1)) with (seqZ 0 (Z.of_nat k) ++ [0 + Z.of_nat k])
      by (rewrite <- (Nat2Z.id k) at 3; rewrite <- seqZ_S; f_equal; lia).
    rewrite foldM_app, (bind_Ok _ _ _ _ _ Hc). cbn [foldM].
    rewrite Nat2Z.inj_succ in Hn.
    rewrite (wrap_small tg (n - 1 - (0 + Z.of_nat k))) by lia.
    set (pos := n - 1 - (0 + Z.of_nat k)).
    assert (Hin : 0 <= pos < Z.of_nat (length (metadata t))) by (unfold pos; lia).
    destruct (read_in_range (metadata t) pos Hin) as [w Hw].
    assert (Hw' : read (metadata (with_metadata t md)) pos = Some w).
    { cbn [with_metadata metadata]. rewrite Hread.
      destruct (Z.leb_spec (n - Z.of_nat k) pos); [unfold pos in *; lia|].
      exact Hw. }
    unfold Set_Bucket_Reversed at 1.
    unfold bind at 1. rewrite (bind_Ok _ _ _ _ _ (md_at_Ok _ _ _ Hw')).
    rewrite md_store_Ok by (cbn [with_metadata metadata]; lia). unfold ret.
    cbn [with_metadata metadata elems num_elems num_buckets _max_load_factor _grow_factor].
    eexists. split; [reflexivity|]. split; [rewrite length_insert; exact Hlen|].
    intros q. rewrite read_insert by lia. rewrite Hread.
    destruct (Z.eqb_spec q pos) as [->|Hne].
    + replace ((n - (Z.of_nat k + 1) <=? pos) && (pos <? n)) with true
        by (symmetry; apply andb_true_iff; split;
            [apply Z.leb_le|apply Z.ltb_lt]; unfold pos; lia).
      rewrite Hw. reflexivity.
    + destruct (Z.leb_spec (n - Z.of_nat k) q); destruct (Z.ltb_spec q n);
        destruct (Z.leb_spec (n - (Z.of_nat k + 1)) q); cbn [andb]; try reflexivity;
        unfold pos in *; lia.
Qed.

Lemma reverse_last_buckets_spec (t : Tc) :
  2 <= B <= 4 ->
  B - 1 <= num_buckets t <= Z.of_nat (length (metadata t)) ->
  num_buckets t < SIZE_MOD tg ->
  exists md, reverse_last_buckets tg B t = Ok (tt, with_metadata t md) /\
    length md = length (metadata t) /\
    forall q, read md q =
      if (num_buckets t - (B - 1) <=? q) && (q <? num_buckets t)
      then option_map Meta.Set_Bucket_Reversed (read (metadata t) q)
      else read (metadata t) q.
Proof.
  intros HB Hn Hmod. unfold reverse_last_buckets, bind at 1, get_num_buckets.
  assert (4 < SIZE_MOD tg) by (destruct tg; reflexivity).
  rewrite (wrap_small tg (B - 1)) by lia.
  rewrite <- (Z2Nat.id (B - 1)) by lia.
  apply reverse_last_prefix; lia.
Qed.

(** A table whose cells [[0, n)] are zero but for the reversed flag of
    the last [B - 1] is well formed and empty. *)
Lemma fresh_table_well_formed (t : Tc) :
  2 <= B <= 4 -> 2 * B - 2 <= num_buckets t < SIZE_MOD tg ->
  num_buckets t <= Z.of_nat (length (metadata t)) ->
  num_buckets t <= Z.of_nat (length (elems t)) ->
  (forall q, 0 <= q < num_buckets t ->
     read (metadata t) q = Some (if num_buckets t - (B - 1) <=? q then 64 else 0)) ->
  well_formed tg B t = true /\
  forall q, 0 <= q < num_buckets t -> label_at t q = 0.
Proof.
  intros HB Hn Hlm Hle Hcells. split.
  - apply well_formed_intro; try lia.
    intros p Hp. rewrite (Hcells p Hp). eexists. split; [reflexivity|].
    unfold window_in_range.
    destruct (Z.leb_spec (num_buckets t - (B - 1)) p).
    + change (Meta.Is_Bucket_Reversed 64) with true. cbn iota. apply Z.leb_le. lia.
    + change (Meta.Is_Bucket_Reversed 0) with false. cbn iota. apply Z.ltb_lt. lia.
  - intros q Hq. unfold label_at, word_at. rewrite (Hcells q Hq).
    destruct (_ <=? _); reflexivity.
Qed.

End Clearing.

(* ===================================================================== *)
(** * What a lookup returns *)
(* ===================================================================== *)

Section LookupSound.

Context {INSERT_TYPE KEY_TYPE : Type}.
Variable tg : Target.
Variable ly : Layout.
Variable B : Z.
Variable key_of : INSERT_TYPE -> KEY_TYPE.
Variable HASHER : KEY_TYPE -> Z * Z.
Variable EQ : KEY_TYPE -> KEY_TYPE -> bool.

Abbreviation Ts := (CBG INSERT_TYPE).
Abbreviation hitS := (Z -> Z -> KEY_TYPE -> M INSERT_TYPE bool).

Lemma cmp_elems_inv pos (e : KEY_TYPE) (t t' : Ts) b :
  cmp_elems key_of EQ pos e t = Ok (b, t') ->
  t' = t /\ exists el, read (elems t) pos = Some el /\ b = EQ (key_of el) e.
Proof.
  unfold cmp_elems, GetKey. intros H.
  apply bind_Ok_inv in H as (k & t1 & H & Hr).
  apply bind_Ok_inv in H as (el & t2 & Hg & H).
  unfold GetElem in Hg. destruct (read (elems t) pos) as [x|] eqn:Hx; [|discriminate].
  injection Hg as <- <-. unfold ret in H, Hr. injection H as <- <-. injection Hr as <- <-.
  split; [reflexivity|]. exists x. auto.
Qed.

Lemma hit_AoS_inv cc pos (e : KEY_TYPE) (t t' : Ts) b :
  hit_AoS key_of EQ cc pos e t = Ok (b, t') ->
  t' = t /\ exists el, read (elems t) pos = Some el /\
    b = EQ (key_of el) e && negb (Z.land cc 7 =? 0).
Proof.
  unfold hit_AoS. intros H. apply bind_Ok_inv in H as (c & t1 & Hc & H).
  apply cmp_elems_inv in Hc as (-> & el & Hel & ->).
  unfold ret in H. injection H as <- <-. eauto.
Qed.

Lemma hit_SoA_first_inv h cc pos (e : KEY_TYPE) (t t' : Ts) :
  hit_SoA_first key_of EQ h cc pos e t = Ok (true, t') ->
  t' = t /\ Z.land (Z.lxor cc h) 65280 = 0 /\
  exists el, read (elems t) pos = Some el /\ EQ (key_of el) e = true /\
             Z.land cc 7 <> 0.
Proof.
  unfold hit_SoA_first. destruct (Z.eqb_spec (Z.land (Z.lxor cc h) 65280) 0) as [Hh|Hh];
    [|intros [= ]].
  intros H. apply bind_Ok_inv in H as (c & t1 & Hc & H).
  apply cmp_elems_inv in Hc as (-> & el & Hel & ->).
  unfold ret in H. injection H as H <-. apply andb_true_iff in H as [H1 H2].
  split; [reflexivity|]. split; [exact Hh|]. exists el.
  destruct (Z.eqb_spec (Z.land cc 7) 0); [discriminate|]. auto.
Qed.

Lemma hit_SoA_second_inv h cc pos (e : KEY_TYPE) (t t' : Ts) :
  hit_SoA_second key_of EQ h cc pos e t = Ok (true, t') ->
  t' = t /\ Z.land (Z.lxor cc h) 65280 = 0 /\
  exists el, read (elems t) pos = Some el /\ EQ (key_of el) e = true /\
             Z.land cc 7 <> 0.
Proof.
  unfold hit_SoA_second.
  destruct (Z.eqb_spec (Z.land (Z.lxor cc h) 65280) 0) as [Hh|Hh]; [|intros [= ]].
  destruct (Z.eqb_spec (Z.land cc 7) 0) as [Hl|Hl]; [intros [= ]|]. cbn [andb negb].
  intros H. apply cmp_elems_inv in H as (-> & el & Hel & Hb).
  split; [reflexivity|]. split; [exact Hh|]. exists el. auto.
Qed.

(** What one bucket probe returns: the first of the at most [B] cells
    it looks at on which the cell test holds, or [SIZE_MAX] when the
    test fails on all of them. *)
Lemma probe_bucket_inv (hit : hitS) p (e : KEY_TYPE) (t t' : Ts) pos c0 :
  2 <= B <= 4 ->
  (forall cc q, readonly (hit cc q e)) ->
  probe_bucket tg B hit p e t = Ok ((pos, c0), t') ->
  t' = t /\ read (metadata t) p = Some c0 /\
  exists k, 0 <= k <= B /\
    (forall j, 0 <= j < k ->
       exists cc, read (metadata t) (probe_cell tg t p j) = Some cc /\
                  hit cc (probe_cell tg t p j) e t = Ok (false, t)) /\
    (k = B /\ pos = SIZE_MAX tg \/
     k < B /\ pos = probe_cell tg t p k /\
     exists cc, read (metadata t) pos = Some cc /\ hit cc pos e t = Ok (true, t)).
Proof.
  intros HB Hro H.
  pose proof (readonly_probe_bucket tg B hit p e Hro _ _ _ H) as ->.
  pose proof (probe_bucket_anchor_word tg B hit p e t t pos c0 H) as Hc0.
  split; [reflexivity|]. split; [exact Hc0|].
  assert (Hcell : forall k, 1 <= k ->
            probe_cell tg t p k
            = wrap tg (p + k * (if Z.land c0 64 =? 0 then 1 else SIZE_MAX tg))).
  { intros k Hk. unfold probe_cell. destruct (Z.eqb_spec k 0); [lia|].
    unfold word_at. rewrite Hc0. cbn [default from_option id].
    unfold Meta.Is_Bucket_Reversed.
    destruct (Z.land c0 64 =? 0); reflexivity. }
  set (rs := if Z.land c0 64 =? 0 then 1 else SIZE_MAX tg) in *.
  assert (Hnext : forall q k q' b s,
            q = (if k =? 0 then p else wrap tg (p + k * rs)) -> 0 <= k ->
            probe_next tg hit q rs e t = Ok ((q', b), s) ->
            s = t /\ q' = probe_cell tg t p (k + 1) /\
            exists cc, read (metadata t) q' = Some cc /\ hit cc q' e t = Ok (b, t)).
  { intros q k q' b s Hq Hk Hn. unfold probe_next in Hn.
    apply bind_Ok_inv in Hn as (cc & s1 & Hcc & Hn).
    apply md_at_inv in Hcc as [Hcc ->].
    apply bind_Ok_inv in Hn as (b' & s2 & Hh & Hn).
    pose proof (Hro _ _ _ _ _ Hh) as ->.
    unfold ret in Hn. injection Hn as <- <- <-.
    assert (Hq' : wrap tg (q + rs) = probe_cell tg t p (k + 1)).
    { rewrite Hcell by lia. subst q. destruct (Z.eqb_spec k 0) as [->|Hk0].
      - f_equal. lia.
      - unfold wrap. rewrite Zplus_mod_idemp_l. f_equal. lia. }
    rewrite <- Hq'. split; [reflexivity|]. split; [reflexivity|]. eauto. }
  unfold probe_bucket in H.
  rewrite (bind_Ok _ _ _ _ _ (md_at_Ok _ _ _ Hc0)) in H.
  apply bind_Ok_inv in H as (b0 & s0 & Hh0 & H).
  pose proof (Hro _ _ _ _ _ Hh0) as ->.
  destruct b0.
  { unfold ret in H. injection H as <-. exists 0. split; [lia|].
    split; [intros j Hj; lia|]. right. split; [lia|]. split; [reflexivity|]. eauto. }
  fold rs in H.
  apply bind_Ok_inv in H as ([q1 b1] & s1 & Hn1 & H).
  destruct (Hnext p 0 q1 b1 s1 eq_refl ltac:(lia) Hn1) as (-> & Hq1 & cc1 & Hr1 & Hh1).
  change (0 + 1) with 1 in Hq1.
  assert (M1 : forall j, 0 <= j < 1 ->
            exists cc, read (metadata t) (probe_cell tg t p j) = Some cc /\
                       hit cc (probe_cell tg t p j) e t = Ok (false, t)).
  { intros j Hj. assert (j = 0) as -> by lia. exists c0. auto. }
  destruct b1.
  { unfold ret in H. injection H as <-. exists 1. split; [lia|].
    split; [exact M1|]. right. split; [lia|]. split; [exact Hq1|]. eauto. }
  assert (M2 : forall j, 0 <= j < 2 ->
            exists cc, read (metadata t) (probe_cell tg t p j) = Some cc /\
                       hit cc (probe_cell tg t p j) e t = Ok (false, t)).
  { intros j Hj. destruct (Z.eq_dec j 1) as [->|Hne]; [|apply M1; lia].
    rewrite <- Hq1. eauto. }
  destruct (Z.ltb_spec 2 B) as [H2|H2].
  - apply bind_Ok_inv in H as ([q2 b2] & s2 & Hn2 & H).
    destruct (Hnext q1 1 q2 b2 s2) as (-> & Hq2 & cc2 & Hr2 & Hh2);
      [rewrite Hq1; apply Hcell; lia|lia|exact Hn2|].
    change (1 + 1) with 2 in Hq2.
    destruct b2.
    { unfold ret in H. injection H as <-. exists 2. split; [lia|].
      split; [exact M2|]. right. split; [lia|]. split; [exact Hq2|]. eauto. }
    assert (M3 : forall j, 0 <= j < 3 ->
              exists cc, read (metadata t) (probe_cell tg t p j) = Some cc /\
                         hit cc (probe_cell tg t p j) e t = Ok (false, t)).
    { intros j Hj. destruct (Z.eq_dec j 2) as [->|Hne]; [|apply M2; lia].
      rewrite <- Hq2. eauto. }
    destruct (Z.ltb_spec 3 B) as [H3|H3].
    + apply bind_Ok_inv in H as ([q3 b3] & s3 & Hn3 & H).
      destruct (Hnext q2 2 q3 b3 s3) as (-> & Hq3 & cc3 & Hr3 & Hh3);
        [rewrite Hq2; apply Hcell; lia|lia|exact Hn3|].
      change (2 + 1) with 3 in Hq3.
      destruct b3; unfold ret in H; injection H as <-.
      * exists 3. split; [lia|]. split; [exact M3|]. right.
        split; [lia|]. split; [exact Hq3|]. eauto.
      * exists B. split; [lia|]. split; [|left; auto].
        intros j Hj. destruct (Z.eq_dec j 3) as [->|Hne]; [|apply M3; lia].
        rewrite <- Hq3. eauto.
    + apply bind_Ok_inv in H as ([q3 b3] & s3 & Hn3 & H).
      unfold ret in Hn3. injection Hn3 as <- <- <-.
      unfold ret in H. injection H as <-.
      exists B. split; [lia|]. split; [|left; auto].
      intros j Hj. apply M3. lia.
  - apply bind_Ok_inv in H as ([q2 b2] & s2 & Hn2 & H).
    unfold ret in Hn2. injection Hn2 as <- <- <-.
    destruct (Z.ltb_spec 3 B) as [H3|H3]; [lia|].
    apply bind_Ok_inv in H as ([q3 b3] & s3 & Hn3 & H).
    unfold ret in Hn3. injection Hn3 as <- <- <-.
    unfold ret in H. injection H as <-.
    exists B. split; [lia|]. split; [|left; auto].
    intros j Hj. apply M2. lia.
Qed.

Lemma hash_byte (h : Z) (cc : Z) :
  Z.land (Z.lxor cc (h mod 2 ^ 16)) 65280 = Z.land (Z.lxor cc h) 65280.
Proof.
  apply Z.bits_inj'. intros n Hn. rewrite !Z.land_spec, !Z.lxor_spec, testbit_65280.
  destruct (Z.leb_spec 8 n); destruct (Z.ltb_spec n 16); cbn [andb];
    rewrite ?andb_false_r; try reflexivity.
  rewrite Z.mod_pow2_bits_low by lia. reflexivity.
Qed.

(** a position [find_position] returns, other than [SIZE_MAX], is
    a cell of the key's first bucket, or, the first anchor carrying the
    unlucky flag, of its second bucket; the cell is occupied, its key
    compares equal to the key looked up and, in the struct-of-arrays
    layout, its hash byte is the one a placement into that bucket
    stores. The table is not changed. *)
Lemma find_position_hit (elem : KEY_TYPE) (t t' : Ts) (pos : Z) :
  2 <= B <= 4 ->
  find_position tg ly B key_of HASHER EQ elem t = Ok (pos, t') ->
  pos <> SIZE_MAX tg ->
  let h0 := fst (hash_elem tg HASHER elem) in
  let h1 := snd (hash_elem tg HASHER elem) in
  let b1 := fastrange tg h0 (num_buckets t) in
  let b2 := fastrange tg h1 (num_buckets t) in
  t' = t /\
  ((exists k, 0 <= k < B /\ pos = probe_cell tg t b1 k) /\
   cell_matches ly key_of EQ h1 t pos elem
   \/
   Meta.Is_Unlucky_Bucket (word_at t b1) = true /\
   (exists k, 0 <= k < B /\ pos = probe_cell tg t b2 k) /\
   cell_matches ly key_of EQ h0 t pos elem).
Proof.
  intros HB H Hne h0 h1 b1 b2.
  pose proof (readonly_find_position tg ly B key_of HASHER EQ elem _ _ _ H) as ->.
  split; [reflexivity|].
  unfold find_position, find_position_SoA, find_position_AoS in H.
  subst h0 h1 b1 b2. destruct (hash_elem tg HASHER elem) as [h0 h1]. cbn [fst snd].
  assert (Hgen : forall hit1 hit2,
            (forall cc q, readonly (hit1 cc q elem)) ->
            (forall cc q, readonly (hit2 cc q elem)) ->
            (forall cc q, hit1 cc q elem t = Ok (true, t) ->
               read (metadata t) q = Some cc -> cell_matches ly key_of EQ h1 t q elem) ->
            (forall cc q, hit2 cc q elem t = Ok (true, t) ->
               read (metadata t) q = Some cc -> cell_matches ly key_of EQ h0 t q elem) ->
            find_two_buckets tg B hit1 hit2 h0 h1 elem t = Ok (pos, t) ->
            (exists k, 0 <= k < B /\ pos = probe_cell tg t (fastrange tg h0 (num_buckets t)) k) /\
            cell_matches ly key_of EQ h1 t pos elem
            \/
            Meta.Is_Unlucky_Bucket (word_at t (fastrange tg h0 (num_buckets t))) = true /\
            (exists k, 0 <= k < B /\ pos = probe_cell tg t (fastrange tg h1 (num_buckets t)) k) /\
            cell_matches ly key_of EQ h0 t pos elem).
  { intros hit1 hit2 Hro1 Hro2 Hs1 Hs2 Hf.
    unfold find_two_buckets, bind at 1, get_num_buckets in Hf.
    apply bind_Ok_inv in Hf as ([p1 c0] & s1 & Hp1 & Hf).
    apply probe_bucket_inv in Hp1 as (-> & Hc0 & Hcase1); auto.
    destruct (Z.eqb_spec p1 (SIZE_MAX tg)) as [Hmax|Hhit]; cbn [negb] in Hf.
    - destruct (Z.eqb_spec (Z.land c0 128) 0) as [Hu|Hu]; cbn [negb] in Hf.
      + unfold ret in Hf. injection Hf as <-. contradiction.
      + apply bind_Ok_inv in Hf as ([p2 c2] & s2 & Hp2 & Hf).
        apply probe_bucket_inv in Hp2 as (-> & Hc2 & Hcase2); auto.
        unfold ret in Hf. injection Hf as <-.
        destruct Hcase2 as (k & Hk & _ & [[_ Hm]|(Hkb & Hpk & cc & Hr & Hh)]);
          [contradiction|].
        right. split.
        { unfold word_at. rewrite Hc0. cbn [default from_option id]. unfold Meta.Is_Unlucky_Bucket.
          destruct (Z.eqb_spec (Z.land c0 128) 0); [contradiction|reflexivity]. }
        split; [exists k; split; [lia|exact Hpk]|]. eapply Hs2; eauto.
    - unfold ret in Hf. injection Hf as <-.
      destruct Hcase1 as (k & Hk & _ & [[_ Hm]|(Hkb & Hpk & cc & Hr & Hh)]);
        [contradiction|].
      left. split; [exists k; split; [lia|exact Hpk]|]. eapply Hs1; eauto. }
  destruct ly as [| |bs]; cbn [IS_SoA] in H.
  - apply Hgen in H; auto using readonly_hit_SoA_first, readonly_hit_SoA_second.
    + intros cc q Hh Hr. apply hit_SoA_first_inv in Hh as (_ & Hb & el & Hel & He & Hl).
      exists cc, el. rewrite hash_byte in Hb. repeat split; auto.
    + intros cc q Hh Hr. apply hit_SoA_second_inv in Hh as (_ & Hb & el & Hel & He & Hl).
      exists cc, el. rewrite hash_byte in Hb. repeat split; auto.
  - apply Hgen in H; auto using readonly_hit_AoS;
      intros cc q Hh Hr; apply hit_AoS_inv in Hh as (_ & el & Hel & Hb);
      symmetry in Hb; apply andb_true_iff in Hb as [He Hl];
      exists cc, el; (split; [exact Hr|]); (split; [exact Hel|]);
      (split; [unfold Meta.Get_Label; destruct (Z.eqb_spec (Z.land cc 7) 0);
               [discriminate|assumption]|]);
      (split; [exact He|]); intros Hs; cbn in Hs; discriminate Hs.
  - apply Hgen in H; auto using readonly_hit_AoS;
      intros cc q Hh Hr; apply hit_AoS_inv in Hh as (_ & el & Hel & Hb);
      symmetry in Hb; apply andb_true_iff in Hb as [He Hl];
      exists cc, el; (split; [exact Hr|]); (split; [exact Hel|]);
      (split; [unfold Meta.Get_Label; destruct (Z.eqb_spec (Z.land cc 7) 0);
               [discriminate|assumption]|]);
      (split; [exact He|]); intros Hs; cbn in Hs; discriminate Hs.
Qed.

(** On a well-formed table the cells a probe looks at are the [B] cells
    of the bucket's window. *)
Lemma probe_cell_wf (t : Ts) p k :
  well_formed tg B t = true -> 0 <= p < num_buckets t -> 0 <= k < B ->
  probe_cell tg t p k
    = p + k * (if Meta.Is_Bucket_Reversed (word_at t p) then -1 else 1) /\
  0 <= probe_cell tg t p k < num_buckets t /\
  in_window B (bucket_init_of tg B p (Meta.Is_Bucket_Reversed (word_at t p)))
            (probe_cell tg t p k).
Proof.
  intros Hwf Hp Hk.
  destruct (well_formed_spec _ _ _ Hwf) as (HB & Hn & _ & _ & Hw).
  destruct (Hw p Hp) as (w & Hr & Hok).
  unfold probe_cell, word_at, in_window, bucket_init_of, window_in_range in *.
  rewrite Hr in *. cbn [default from_option id] in *.
  destruct (Meta.Is_Bucket_Reversed w).
  - apply Z.leb_le in Hok. replace (1 - B) with (- (B - 1)) by lia.
    rewrite wrap_add_wrap_neg by lia.
    destruct (Z.eqb_spec k 0) as [->|Hk0]; [lia|].
    assert (Hc : wrap tg (p + k * SIZE_MAX tg) = p - k).
    { unfold wrap, SIZE_MAX.
      replace (p + k * (SIZE_MOD tg - 1)) with (p - k + k * SIZE_MOD tg) by lia.
      rewrite Z_mod_plus_full. apply Z.mod_small. lia. }
    rewrite Hc. lia.
  - apply Z.ltb_lt in Hok. rewrite Z.add_0_r, (wrap_small tg p) by lia.
    destruct (Z.eqb_spec k 0) as [->|Hk0]; [lia|].
    rewrite Z.mul_1_r, wrap_small by lia. lia.
Qed.

Lemma hit_AoS_false cc pos (e : KEY_TYPE) (t : Ts) h :
  IS_SoA ly = false ->
  hit_AoS key_of EQ cc pos e t = Ok (false, t) -> read (metadata t) pos = Some cc ->
  ~ cell_matches ly key_of EQ h t pos e.
Proof.
  intros Hly Hh Hr (cc' & el & Hr' & Hel & Hl & He & _).
  apply hit_AoS_inv in Hh as (_ & el' & Hel' & Hb).
  assert (cc' = cc) as -> by congruence. assert (el' = el) as -> by congruence.
  rewrite He in Hb. unfold Meta.Get_Label in Hl.
  destruct (Z.eqb_spec (Z.land cc 7) 0); [contradiction|discriminate].
Qed.

Lemma hit_SoA_first_false cc pos (e : KEY_TYPE) (t : Ts) h :
  IS_SoA ly = true ->
  hit_SoA_first key_of EQ (h mod 2 ^ 16) cc pos e t = Ok (false, t) ->
  read (metadata t) pos = Some cc ->
  ~ cell_matches ly key_of EQ h t pos e.
Proof.
  intros Hly Hh Hr (cc' & el & Hr' & Hel & Hl & He & Hb).
  assert (cc' = cc) as -> by congruence. specialize (Hb Hly).
  unfold hit_SoA_first in Hh. rewrite hash_byte, Hb in Hh. cbn [Z.eqb] in Hh.
  apply bind_Ok_inv in Hh as (c & t1 & Hc & Hh).
  apply cmp_elems_inv in Hc as (-> & el' & Hel' & ->).
  assert (el' = el) as -> by congruence. rewrite He in Hh.
  unfold Meta.Get_Label in Hl. unfold ret in Hh.
  destruct (Z.eqb_spec (Z.land cc 7) 0); [contradiction|discriminate].
Qed.

Lemma hit_SoA_second_false cc pos (e : KEY_TYPE) (t : Ts) h :
  IS_SoA ly = true ->
  hit_SoA_second key_of EQ (h mod 2 ^ 16) cc pos e t = Ok (false, t) ->
  read (metadata t) pos = Some cc ->
  ~ cell_matches ly key_of EQ h t pos e.
Proof.
  intros Hly Hh Hr (cc' & el & Hr' & Hel & Hl & He & Hb).
  assert (cc' = cc) as -> by congruence. specialize (Hb Hly).
  unfold hit_SoA_second in Hh. rewrite hash_byte, Hb in Hh. cbn [Z.eqb] in Hh.
  unfold Meta.Get_Label in Hl.
  destruct (Z.eqb_spec (Z.land cc 7) 0); [contradiction|]. cbn [andb negb] in Hh.
  apply cmp_elems_inv in Hh as (_ & el' & Hel' & Hb').
  assert (el' = el) as -> by congruence. congruence.
Qed.

(** on a well-formed table a lookup that answers [SIZE_MAX] has
    found no matching cell among the [B] cells of the key's first
    bucket, nor, when the first anchor carries the unlucky flag, among
    those of its second bucket: an element stored where [try_insert]
    puts it cannot be missed. *)
Lemma find_position_no_match (elem : KEY_TYPE) (t t' : Ts) :
  well_formed tg B t = true ->
  find_position tg ly B key_of HASHER EQ elem t = Ok (SIZE_MAX tg, t') ->
  let h0 := fst (hash_elem tg HASHER elem) in
  let h1 := snd (hash_elem tg HASHER elem) in
  let b1 := fastrange tg h0 (num_buckets t) in
  let b2 := fastrange tg h1 (num_buckets t) in
  (forall k, 0 <= k < B ->
     ~ cell_matches ly key_of EQ h1 t (probe_cell tg t b1 k) elem) /\
  (Meta.Is_Unlucky_Bucket (word_at t b1) = true ->
   forall k, 0 <= k < B ->
     ~ cell_matches ly key_of EQ h0 t (probe_cell tg t b2 k) elem).
Proof.
  intros Hwf H h0 h1 b1 b2.
  destruct (well_formed_spec _ _ _ Hwf) as (HB & Hn & _).
  pose proof (hash_elem_range tg HASHER elem) as [Hh0 Hh1]. fold h0 h1 in Hh0, Hh1.
  pose proof (fastrange_range tg h0 (num_buckets t) Hh0 Hn) as Hb1.
  pose proof (fastrange_range tg h1 (num_buckets t) Hh1 Hn) as Hb2.
  fold b1 in Hb1. fold b2 in Hb2.
  pose proof (readonly_find_position tg ly B key_of HASHER EQ elem _ _ _ H) as ->.
  unfold find_position, find_position_SoA, find_position_AoS in H.
  subst b1 b2 h0 h1. destruct (hash_elem tg HASHER elem) as [h0 h1]. cbn [fst snd] in *.
  set (b1 := fastrange tg h0 (num_buckets t)) in *.
  set (b2 := fastrange tg h1 (num_buckets t)) in *.
  assert (Hgen : forall hit1 hit2,
            (forall cc q, readonly (hit1 cc q elem)) ->
            (forall cc q, readonly (hit2 cc q elem)) ->
            (forall cc q, hit1 cc q elem t = Ok (false, t) ->
               read (metadata t) q = Some cc -> ~ cell_matches ly key_of EQ h1 t q elem) ->
            (forall cc q, hit2 cc q elem t = Ok (false, t) ->
               read (metadata t) q = Some cc -> ~ cell_matches ly key_of EQ h0 t q elem) ->
            find_two_buckets tg B hit1 hit2 h0 h1 elem t = Ok (SIZE_MAX tg, t) ->
            (forall k, 0 <= k < B ->
               ~ cell_matches ly key_of EQ h1 t (probe_cell tg t b1 k) elem) /\
            (Meta.Is_Unlucky_Bucket (word_at t b1) = true ->
             forall k, 0 <= k < B ->
               ~ cell_matches ly key_of EQ h0 t (probe_cell tg t b2 k) elem)).
  { intros hit1 hit2 Hro1 Hro2 Hm1 Hm2 Hf.
    unfold find_two_buckets, bind at 1, get_num_buckets in Hf. fold b1 b2 in Hf.
    apply bind_Ok_inv in Hf as ([p1 c0] & s1 & Hp1 & Hf).
    apply probe_bucket_inv in Hp1 as (-> & Hc0 & k1 & Hk1 & Hmiss1 & Hcase1); auto.
    assert (Hall1 : k1 = B /\ p1 = SIZE_MAX tg).
    { destruct Hcase1 as [Hc|(Hlt & Hpk & _)]; [exact Hc|].
      destruct (Z.eqb_spec p1 (SIZE_MAX tg)) as [Hmax|Hhit]; cbn [negb] in Hf.
      - destruct (probe_cell_wf t b1 k1 Hwf Hb1 ltac:(lia)) as (_ & Hrange & _).
        unfold SIZE_MAX in Hmax. lia.
      - unfold ret in Hf. injection Hf as Hf. contradiction. }
    destruct Hall1 as [-> ->]. rewrite Z.eqb_refl in Hf. cbn [negb] in Hf.
    split.
    { intros k Hk. destruct (Hmiss1 k Hk) as (cc & Hr & Hh). eapply Hm1; eauto. }
    intros Hu. unfold word_at in Hu. rewrite Hc0 in Hu. cbn [default from_option id] in Hu.
    unfold Meta.Is_Unlucky_Bucket in Hu. rewrite Hu in Hf.
    apply bind_Ok_inv in Hf as ([p2 c2] & s2 & Hp2 & Hf).
    apply probe_bucket_inv in Hp2 as (-> & Hc2 & k2 & Hk2 & Hmiss2 & Hcase2); auto.
    unfold ret in Hf. injection Hf as ->.
    assert (k2 = B) as ->.
    { destruct Hcase2 as [[Hc _]|(Hlt & Hpk & _)]; [exact Hc|].
      destruct (probe_cell_wf t b2 k2 Hwf Hb2 ltac:(lia)) as (_ & Hrange & _).
      unfold SIZE_MAX in Hpk. lia. }
    intros k Hk. destruct (Hmiss2 k Hk) as (cc & Hr & Hh). eapply Hm2; eauto. }
  destruct (IS_SoA ly) eqn:Hly.
  - apply Hgen in H; auto using readonly_hit_SoA_first, readonly_hit_SoA_second.
    + intros cc q Hh Hr. eapply hit_SoA_first_false; eauto.
    + intros cc q Hh Hr. eapply hit_SoA_second_false; eauto.
  - apply Hgen in H; auto using readonly_hit_AoS;
      intros cc q Hh Hr; eapply hit_AoS_false; eauto.
Qed.

(** X9: in a well-formed table with no occupied cell every lookup
    misses: [find_position] answers [SIZE_MAX], [count] 0, and [erase]
    returns 0 and leaves the table as it is. *)
Theorem lookup_in_empty_table (elem : KEY_TYPE) (t : Ts) :
  well_formed tg B t = true -> no_cell_occupied t ->
  find_position tg ly B key_of HASHER EQ elem t = Ok (SIZE_MAX tg, t) /\
  count tg ly B key_of HASHER EQ elem t = Ok (0, t) /\
  erase tg ly B key_of HASHER EQ elem t = Ok (0, t).
Proof.
  intros Hwf Hempty.
  destruct (well_formed_spec _ _ _ Hwf) as (HB & _).
  destruct (find_position_total tg ly B key_of HASHER EQ elem t Hwf) as [pos Hf].
  assert (pos = SIZE_MAX tg) as ->.
  { destruct (Z.eq_dec pos (SIZE_MAX tg)) as [E|Hne]; [exact E|].
    destruct (find_position_hit elem t t pos HB Hf Hne)
      as (_ & [(_ & cc & el & Hr & _ & Hl & _)|(_ & _ & cc & el & Hr & _ & Hl & _)]);
      specialize (Hempty pos); unfold label_at, word_at in Hempty;
      rewrite Hr in Hempty; contradiction. }
  split; [exact Hf|]. unfold count, erase.
  rewrite !(bind_Ok _ _ _ _ _ Hf), Z.eqb_refl. split; reflexivity.
Qed.

End LookupSound.

Lemma alloc_bins_ge (ly : Layout) (n : Z) :
  layout_ok ly -> 0 <= n -> n <= alloc_bins ly n.
Proof.
  intros Hly Hn. destruct ly as [| |bs]; cbn [alloc_bins layout_ok] in *; try lia.
  pose proof (Z.div_mod (n + bs - 1) bs ltac:(lia)) as Hdm.
  pose proof (Z.mod_pos_bound (n + bs - 1) bs ltac:(lia)). nia.
Qed.


Section Fresh.

Context {INSERT_TYPE : Type}.
Variable tg : Target.
Variable ly : Layout.
Variable B : Z.
Variable junk : INSERT_TYPE.

Abbreviation Tn := (CBG INSERT_TYPE).


(** X5: [clear] on a table of at least [2 * B - 2] cells sets the count
    to 0, zeroes every cell but for the reversed-bucket flag of the
    last [B - 1], and leaves the capacity, the payload and the
    parameters as they are; the table is well formed afterwards. *)
Theorem clear_empties_table (t : Tn) :
  2 <= B <= 4 -> 2 * B - 2 <= num_buckets t < SIZE_MOD tg ->
  num_buckets t <= Z.of_nat (length (metadata t)) ->
  num_buckets t <= Z.of_nat (length (elems t)) ->
  exists t', clear tg B t = Ok (tt, t') /\
    num_elems t' = 0 /\ num_buckets t' = num_buckets t /\ elems t' = elems t /\
    _max_load_factor t' = _max_load_factor t /\ _grow_factor t' = _grow_factor t /\
    length (metadata t') = length (metadata t) /\
    well_formed tg B t' = true /\
    (forall p, 0 <= p < num_buckets t ->
       read (metadata t') p = Some (if num_buckets t - (B - 1) <=? p then 64 else 0)) /\
    (forall p, num_buckets t <= p -> read (metadata t') p = read (metadata t) p).
Proof.
  intros HB Hn Hlm Hle. unfold clear.
  unfold bind at 1, set_num_elems, bind at 1, get_num_buckets. cbn [num_buckets].
  set (t0 := mkCBG (metadata t) (elems t) 0 (num_buckets t)
                   (_max_load_factor t) (_grow_factor t)).
  destruct (Clear_spec t0 0 (num_buckets t)) as (md1 & Hc & Hlen1 & Hread1);
    [lia|lia|unfold t0; cbn [metadata]; lia|].
  rewrite (bind_Ok _ _ _ _ _ Hc).
  destruct (reverse_last_buckets_spec tg B (with_metadata t0 md1) HB)
    as (md2 & Hr & Hlen2 & Hread2).
  { unfold t0. cbn [with_metadata num_buckets metadata]. unfold t0 in Hlen1.
    cbn [metadata] in Hlen1. lia. }
  { unfold t0. cbn [with_metadata num_buckets]. lia. }
  rewrite Hr. eexists. split; [reflexivity|].
  unfold t0 in *. cbn [with_metadata metadata elems num_elems num_buckets
                       _max_load_factor _grow_factor] in *.
  do 5 (split; [reflexivity|]). split; [congruence|].
  assert (Hcells : forall p, 0 <= p < num_buckets t ->
            read md2 p = Some (if num_buckets t - (B - 1) <=? p then 64 else 0)).
  { intros p Hp. rewrite Hread2, Hread1.
    replace ((0 <=? p) && (p <? 0 + num_buckets t)) with true
      by (symmetry; apply andb_true_iff; split; [apply Z.leb_le|apply Z.ltb_lt]; lia).
    destruct (Z.leb_spec (num_buckets t - (B - 1)) p); destruct (Z.ltb_spec p (num_buckets t));
      cbn [andb option_map]; try reflexivity; lia. }
  split; [|split; [exact Hcells|]].
  - apply (fresh_table_well_formed tg B
             (mkCBG md2 (elems t) 0 (num_buckets t) (_max_load_factor t) (_grow_factor t)));
      cbn [metadata elems num_buckets]; auto; lia.
  - intros p Hp. rewrite Hread2, Hread1.
    destruct (Z.leb_spec (num_buckets t - (B - 1)) p); destruct (Z.ltb_spec p (num_buckets t));
      destruct (Z.leb_spec 0 p); destruct (Z.ltb_spec p (0 + num_buckets t));
      cbn [andb]; try reflexivity; lia.
Qed.

End Fresh.

(* ===================================================================== *)
(** * The default-constructed table *)
(* ===================================================================== *)

Lemma bind_UB {I A B : Type} (m : M I A) (k : A -> M I B) t :
  m t = UB -> bind m k t = UB.
Proof. unfold bind. intros ->. reflexivity. Qed.

Lemma md_at_UB {I : Type} (t : CBG I) (pos : Z) :
  read (metadata t) pos = None -> md_at pos t = UB.
Proof. unfold md_at. intros ->. reflexivity. Qed.

Lemma read_nil {A : Type} (pos : Z) : read (@nil A) pos = None.
Proof. apply read_None. simpl. lia. Qed.

Lemma length_resize {A : Type} (l : list A) (n : Z) (fill : A) :
  length (resize l n fill) = Z.to_nat n.
Proof.
  unfold resize. rewrite length_app, length_take, length_replicate. lia.
Qed.

Section DefaultConstructed.

Context {INSERT_TYPE KEY_TYPE : Type}.
Variable tg : Target.
Variable ly : Layout.
Variable B : Z.
Variable key_of : INSERT_TYPE -> KEY_TYPE.
Variable HASHER : KEY_TYPE -> Z * Z.
Variable EQ : KEY_TYPE -> KEY_TYPE -> bool.
Variable junk : INSERT_TYPE.

Abbreviation Tz := (CBG INSERT_TYPE).
Abbreviation t_default := (@CBG_IMPL_default INSERT_TYPE).

Lemma find_position_default (k : KEY_TYPE) :
  find_position tg ly B key_of HASHER EQ k t_default = UB.
Proof.
  unfold find_position, find_position_SoA, find_position_AoS.
  destruct (hash_elem tg HASHER k) as [h0 h1].
  destruct (IS_SoA ly); unfold find_two_buckets, bind at 1, get_num_buckets;
    apply bind_UB; unfold probe_bucket; apply bind_UB; apply md_at_UB, read_nil.
Qed.

Lemma clear_default :
  2 <= B <= 4 -> clear tg B t_default = UB.
Proof.
  intros HB. unfold clear, bind at 1, set_num_elems, bind at 1, get_num_buckets.
  cbn [num_buckets CBG_IMPL_default]. unfold Clear at 1. cbn [seqZ foldM].
  change (seqZ 0 0) with (@nil Z). cbn [foldM]. unfold bind at 1, ret at 1.
  unfold reverse_last_buckets, bind at 1, get_num_buckets. cbn [num_buckets].
  assert (4 < SIZE_MOD tg) by (destruct tg; reflexivity).
  rewrite (wrap_small tg (B - 1)) by lia.
  replace (seqZ 0 (B - 1)) with (0 :: seqZ 1 (B - 2))
    by (rewrite (seqZ_cons 0 (B - 1)) by lia; f_equal; f_equal; lia).
  cbn [foldM]. apply bind_UB. unfold Set_Bucket_Reversed. apply bind_UB.
  apply md_at_UB. cbn [metadata]. apply read_nil.
Qed.

Lemma rehash_loop_default (fuel tfuel : nat) (g : Z)
    (mlf gf : spec_float) :
  2 <= B <= 4 -> g = 2 * B - 2 -> layout_ok ly -> alloc_bins ly g < SIZE_MOD tg ->
  rehash_loop tg ly B key_of HASHER junk (S fuel) tfuel g []
              (mkCBG [] [] 0 0 mlf gf) = UB.
Proof.
  intros HB Hg Hly Halloc.
  assert (H6 : 6 < SIZE_MOD tg) by (destruct tg; reflexivity).
  pose proof (alloc_bins_ge ly g Hly ltac:(lia)) as Hge.
  cbn [rehash_loop].
  set (t0 := mkCBG (@nil Z) (@nil INSERT_TYPE) 0 0 mlf gf).
  rewrite (bind_Ok _ _ t0 0 t0 eq_refl).
  set (t1 := mkCBG (@nil Z) (@nil INSERT_TYPE) 0 g mlf gf).
  rewrite (bind_Ok _ _ t0 tt t1 eq_refl).
  set (t2 := mkCBG (resize [] (alloc_bins ly g) 0) (resize [] (alloc_bins ly g) junk)
                   0 g mlf gf).
  rewrite (bind_Ok _ _ t1 tt t2 eq_refl).
  change (0 =? 0) with true. cbn iota.
  assert (Hlen2 : Z.of_nat (length (metadata t2)) = alloc_bins ly g).
  { unfold t2. cbn [metadata]. rewrite length_resize. lia. }
  destruct (Clear_spec t2 0 g) as (md3 & Hc & Hl3 & _); try lia.
  rewrite (bind_Ok _ _ _ _ _ Hc).
  set (t3 := with_metadata t2 md3) in *.
  set (t4 := mkCBG md3 (elems t2) 0 g mlf gf).
  rewrite (bind_Ok _ _ t3 tt t4 eq_refl).
  destruct (reverse_last_buckets_spec tg B t4 HB) as (md5 & Hr & Hl5 & _).
  { unfold t4. cbn [num_buckets metadata]. lia. }
  { unfold t4. cbn [num_buckets]. lia. }
  rewrite (bind_Ok _ _ _ _ _ Hr).
  apply bind_UB. change (S (Z.to_nat 0)) with 1%nat. cbn [rehash_sweep].
  assert (Hm1 : wrap tg (0 - 1) = SIZE_MAX tg).
  { unfold wrap, SIZE_MAX.
    replace (0 - 1) with (SIZE_MOD tg - 1 + (-1) * SIZE_MOD tg) by lia.
    rewrite Z_mod_plus_full. apply Z.mod_small. lia. }
  rewrite Hm1.
  destruct (Z.ltb_spec 0 (SIZE_MAX tg)) as [_|Hbad]; [|unfold SIZE_MAX in Hbad; lia].
  apply bind_UB. unfold Is_Empty. apply bind_UB. unfold Get_Label. apply bind_UB.
  apply md_at_UB. apply read_None.
  cbn [with_metadata metadata]. unfold t4 in Hl5. cbn [metadata] in Hl5.
  unfold SIZE_MAX. lia.
Qed.

Lemma insert_default (fuel : nat) (elem : INSERT_TYPE) :
  2 <= B <= 4 -> layout_ok ly -> alloc_bins ly (2 * B - 2) < SIZE_MOD tg ->
  insert tg ly B key_of HASHER junk (S fuel) elem t_default = UB.
Proof.
  intros HB Hly Halloc.
  assert (H6 : 6 < SIZE_MOD tg) by (destruct tg; reflexivity).
  unfold CBG_IMPL_default, insert.
  set (t0 := mkCBG (@nil Z) (@nil INSERT_TYPE) 0 0
                   default_max_load_factor default_grow_factor).
  assert (Hload : load_reached t0 = Ok (true, t0)).
  { unfold load_reached, t0.
    cbn [num_elems num_buckets _max_load_factor].
    replace (F32.geb (F32.of_Z 0) (F32.mul (F32.of_Z 0) default_max_load_factor))
      with true by (vm_compute; reflexivity).
    reflexivity. }
  rewrite (bind_Ok _ _ _ _ _ Hload). apply bind_UB.
  assert (Hgrow : get_grow_size tg B t0 = Ok (2 * B - 2, t0)).
  { unfold get_grow_size, t0. cbn [num_buckets _grow_factor].
    replace (F32.to_Z (F32.mul (F32.of_Z 0) default_grow_factor)) with (Some 0)
      by (vm_compute; reflexivity).
    pose proof (SIZE_MOD_pos tg).
    replace ((0 <=? 0) && (0 <? SIZE_MOD tg)) with true
      by (symmetry; apply andb_true_iff; split; [reflexivity|apply Z.ltb_lt; lia]).
    unfold MIN_BINS_SIZE. rewrite Z.add_0_l, (wrap_small tg (wrap tg (2 * B - 2)))
      by apply wrap_range.
    rewrite (wrap_small tg (2 * B - 2)) by lia.
    replace (Z.max (2 * B - 2) 0) with (2 * B - 2) by lia.
    destruct (Z.ltb_spec (2 * B - 2) 0) as [Hlt|_]; [lia|reflexivity]. }
  rewrite (bind_Ok _ _ _ _ _ Hgrow).
  unfold rehash. rewrite (bind_Ok _ _ t0 0 t0 eq_refl).
  destruct (Z.leb_spec (2 * B - 2) 0) as [Hle|_]; [lia|].
  apply rehash_loop_default; auto.
Qed.

End DefaultConstructed.

(* ===================================================================== *)
(** * Insertion and erasure followed by a lookup *)
(* ===================================================================== *)

Lemma hash_byte_match (cc h : Z) :
  Z.land cc 65280 = Z.land h 65280 -> Z.land (Z.lxor cc h) 65280 = 0.
Proof.
  intros H. apply Z.bits_inj'. intros n Hn.
  rewrite Z.land_spec, Z.lxor_spec, Z.bits_0.
  assert (Hb : Z.testbit (Z.land cc 65280) n = Z.testbit (Z.land h 65280) n)
    by (rewrite H; reflexivity).
  rewrite !Z.land_spec in Hb.
  destruct (Z.testbit 65280 n); [|apply andb_false_r].
  rewrite !andb_true_r in *. rewrite Hb. apply xorb_nilpotent.
Qed.

Section OneCell.

Context {INSERT_TYPE KEY_TYPE : Type}.
Variable tg : Target.
Variable ly : Layout.
Variable B : Z.
Variable key_of : INSERT_TYPE -> KEY_TYPE.
Variable HASHER : KEY_TYPE -> Z * Z.
Variable EQ : KEY_TYPE -> KEY_TYPE -> bool.

Abbreviation To := (CBG INSERT_TYPE).

(** Two tables that agree on the bucket flags of every cell. *)
Lemma well_formed_same_flags (s s' : To) :
  well_formed tg B s = true ->
  num_buckets s' = num_buckets s ->
  length (metadata s') = length (metadata s) ->
  length (elems s') = length (elems s) ->
  (forall q w, read (metadata s) q = Some w ->
     exists w', read (metadata s') q = Some w' /\
                Meta.Is_Bucket_Reversed w' = Meta.Is_Bucket_Reversed w) ->
  well_formed tg B s' = true.
Proof.
  intros Hwf Hn Hlm Hle Hflags.
  destruct (well_formed_spec _ _ _ Hwf) as (HB & Hnb & Hm & He & Hw).
  apply well_formed_intro; try lia.
  intros p Hp. rewrite Hn in Hp. destruct (Hw p Hp) as (w & Hr & Hok).
  destruct (Hflags p w Hr) as (w' & Hr' & Hrev). exists w'. split; [exact Hr'|].
  unfold window_in_range in *. rewrite Hrev, Hn. exact Hok.
Qed.

Lemma probe_cell_same_flags (s s' : To) b k :
  Meta.Is_Bucket_Reversed (word_at s' b) = Meta.Is_Bucket_Reversed (word_at s b) ->
  probe_cell tg s' b k = probe_cell tg s b k.
Proof. intros H. unfold probe_cell. rewrite H. reflexivity. Qed.

(** Every cell of a bucket's window is looked at by the probe. *)
Lemma window_cell_probed (t : To) p pos :
  well_formed tg B t = true -> 0 <= p < num_buckets t ->
  in_window B (bucket_init_of tg B p (Meta.Is_Bucket_Reversed (word_at t p))) pos ->
  exists k, 0 <= k < B /\ probe_cell tg t p k = pos.
Proof.
  intros Hwf Hp Hin.
  destruct (well_formed_spec _ _ _ Hwf) as (HB & Hn & _ & _ & Hw).
  destruct (Hw p Hp) as (w & Hr & Hok).
  set (rev := Meta.Is_Bucket_Reversed (word_at t p)) in *.
  assert (Hrev : rev = Meta.Is_Bucket_Reversed w).
  { unfold rev, word_at. rewrite Hr. reflexivity. }
  assert (Hbi : bucket_init_of tg B p rev = if rev then p - (B - 1) else p).
  { unfold bucket_init_of, window_in_range in *. rewrite <- Hrev in Hok.
    destruct rev.
    - apply Z.leb_le in Hok. replace (1 - B) with (- (B - 1)) by lia.
      apply wrap_add_wrap_neg; lia.
    - rewrite Z.add_0_r. apply wrap_small. lia. }
  unfold in_window in Hin. rewrite Hbi in Hin.
  exists (if rev then p - pos else pos - p).
  assert (Hk : 0 <= (if rev then p - pos else pos - p) < B) by (destruct rev; lia).
  split; [exact Hk|].
  destruct (probe_cell_wf tg B t p _ Hwf Hp Hk) as (-> & _). fold rev.
  destruct rev; lia.
Qed.

End OneCell.

Section FastInsert.

Context {INSERT_TYPE KEY_TYPE : Type}.
Variable tg : Target.
Variable ly : Layout.
Variable B : Z.
Variable key_of : INSERT_TYPE -> KEY_TYPE.
Variable HASHER : KEY_TYPE -> Z * Z.
Variable EQ : KEY_TYPE -> KEY_TYPE -> bool.
Variable junk : INSERT_TYPE.

Abbreviation Ti := (CBG INSERT_TYPE).

Lemma wf_cell (t : Ti) p :
  well_formed tg B t = true -> 0 <= p < num_buckets t ->
  exists w, read (metadata t) p = Some w /\ word_at t p = w /\
            window_in_range B (num_buckets t) p w = true.
Proof.
  intros Hwf Hp. destruct (well_formed_spec _ _ _ Hwf) as (_ & _ & _ & _ & Hw).
  destruct (Hw p Hp) as (w & Hr & Hok). exists w. unfold word_at. rewrite Hr. auto.
Qed.

Lemma minimum_labels_wf (t : Ti) b1i b2i :
  well_formed tg B t = true ->
  0 <= b1i -> b1i + B - 1 < num_buckets t ->
  0 <= b2i -> b2i + B - 1 < num_buckets t ->
  exists min1 pos1 min2 pos2,
    minimum_labels tg B b1i b2i t = Ok (((min1, pos1), (min2, pos2)), t) /\
    window_min_label tg B t b1i min1 /\ window_min_label tg B t b2i min2 /\
    (b1i <= pos1 < b1i + B /\ label_at t pos1 = min1) /\
    (b2i <= pos2 < b2i + B /\ label_at t pos2 = min2).
Proof.
  intros Hwf H10 H11 H20 H21.
  destruct (well_formed_spec _ _ _ Hwf) as (HB & Hn & _).
  assert (Hget : forall p, 0 <= p < num_buckets t ->
            Get_Label p t = Ok (label_at t p, t)).
  { intros p Hp. destruct (wf_cell t p Hwf Hp) as (w & Hr & Hw & _).
    rewrite (Get_Label_Ok _ _ _ Hr). unfold label_at. rewrite Hw. reflexivity. }
  assert (Htot : exists s, minimum_labels tg B b1i b2i t = Ok (s, t)).
  { unfold minimum_labels.
    rewrite (bind_Ok _ _ _ _ _ (Hget b1i ltac:(lia))).
    rewrite (bind_Ok _ _ _ _ _ (Hget b2i ltac:(lia))).
    apply foldM_total. intros [[m1 p1] [m2 p2]] i Hi. apply elem_of_seqZ in Hi.
    rewrite !wrap_small by lia.
    rewrite (bind_Ok _ _ _ _ _ (Hget (b1i + i) ltac:(lia))).
    rewrite (bind_Ok _ _ _ _ _ (Hget (b2i + i) ltac:(lia))).
    eexists. reflexivity. }
  destruct Htot as [[[min1 pos1] [min2 pos2]] Hm].
  exists min1, pos1, min2, pos2. split; [exact Hm|].
  apply minimum_labels_spec in Hm
    as (_ & Hw1 & Hw2 & (i & Hi & Hp1 & Hl1) & (j & Hj & Hp2 & Hl2));
    [|lia|apply wrap_small; lia|apply wrap_small; lia].
  rewrite wrap_small in Hp1 by lia. rewrite wrap_small in Hp2 by lia.
  split; [exact Hw1|]. split; [exact Hw2|]. split; (split; [lia|assumption]).
Qed.

Lemma place_Ok (s : Ti) pos bi rev label hash (elem : INSERT_TYPE) w :
  read (metadata s) pos = Some w ->
  0 <= pos < Z.of_nat (length (elems s)) ->
  place tg ly pos bi rev label hash elem s
  = Ok (Inserted,
        mkCBG (<[Z.to_nat pos := Meta.Update_Bin tg ly w (wrap tg (pos - bi)) rev label hash]>
                 (metadata s))
              (<[Z.to_nat pos := elem]> (elems s))
              (wrap tg (num_elems s + 1)) (num_buckets s)
              (_max_load_factor s) (_grow_factor s)).
Proof.
  intros Hr He. pose proof (proj1 (read_Some _ _ _) Hr) as [Hin _].
  unfold place, Update_Bin_At, incr_num_elems, get_num_elems, set_num_elems,
    bind, md_at, md_store, SaveElem, ret.
  rewrite Hr, (write_in_range _ _ _ Hin).
  cbn [metadata elems num_elems num_buckets _max_load_factor _grow_factor].
  rewrite (write_in_range _ _ _ He). reflexivity.
Qed.

Lemma try_insert_round_fast (elem : INSERT_TYPE) (t : Ti) rev1 rev2 pos1 min2 pos2 :
  let h0 := fst (hash_elem tg HASHER (key_of elem)) in
  let h1 := snd (hash_elem tg HASHER (key_of elem)) in
  let b1p := fastrange tg h0 (num_buckets t) in
  let b2p := fastrange tg h1 (num_buckets t) in
  let b1i := bucket_init_of tg B b1p rev1 in
  let b2i := bucket_init_of tg B b2p rev2 in
  Is_Bucket_Reversed b1p t = Ok (rev1, t) ->
  Is_Bucket_Reversed b2p t = Ok (rev2, t) ->
  minimum_labels tg B b1i b2i t = Ok (((0, pos1), (min2, pos2)), t) ->
  try_insert_round tg ly B key_of HASHER elem t
  = place tg ly pos1 b1i rev1 (Z.min (min2 + 1) L_MAX) h1 elem t.
Proof.
  intros h0 h1 b1p b2p b1i b2i Hr1 Hr2 Hm.
  unfold try_insert_round. subst h0 h1 b1p b2p b1i b2i.
  destruct (hash_elem tg HASHER (key_of elem)) as [h0 h1]. simpl fst in *. simpl snd in *.
  unfold bind at 1, get_num_buckets.
  rewrite (bind_Ok _ _ _ _ _ Hr1), (bind_Ok _ _ _ _ _ Hr2), (bind_Ok _ _ _ _ _ Hm).
  reflexivity.
Qed.

Lemma insert_fast (fuel : nat) (elem : INSERT_TYPE) (t t' : Ti) :
  load_reached t = Ok (false, t) ->
  try_insert_round tg ly B key_of HASHER elem t = Ok (Inserted, t') ->
  insert tg ly B key_of HASHER junk (S fuel) elem t = Ok (tt, t').
Proof.
  intros Hl Hr. unfold insert.
  rewrite (bind_Ok _ _ _ _ _ Hl). unfold bind at 1, ret at 1.
  simpl insert_loop. simpl try_insert.
  rewrite (bind_Ok _ _ _ _ _ (bind_Ok _ _ _ _ _ Hr)). reflexivity.
Qed.

(** A first-bucket placement, seen from the lookup. *)
Lemma insert_then_find_cell (fuel : nat) (elem : INSERT_TYPE) (t : Ti) (i : Z) :
  well_formed tg B t = true ->
  load_reached t = Ok (false, t) ->
  let k := key_of elem in
  let b1 := fastrange tg (fst (hash_elem tg HASHER k)) (num_buckets t) in
  0 <= i < B ->
  label_at t (bucket_init_of tg B b1 (Meta.Is_Bucket_Reversed (word_at t b1)) + i) = 0 ->
  EQ k k = true ->
  exists t' pos,
    insert tg ly B key_of HASHER junk (S fuel) elem t = Ok (tt, t') /\
    well_formed tg B t' = true /\
    num_elems t' = wrap tg (num_elems t + 1) /\
    num_buckets t' = num_buckets t /\
    find_position tg ly B key_of HASHER EQ k t' = Ok (pos, t') /\
    pos <> SIZE_MAX tg /\
    count tg ly B key_of HASHER EQ k t' = Ok (1, t') /\
    (exists el, read (elems t') pos = Some el /\ EQ (key_of el) k = true) /\
    (find_position tg ly B key_of HASHER EQ k t = Ok (SIZE_MAX tg, t) ->
     read (elems t') pos = Some elem).
Proof.
  intros Hwf Hload k b1 Hi Hempty Hrefl.
  destruct (well_formed_spec _ _ _ Hwf) as (HB & Hn & Hlm & Hle & _).
  pose proof (hash_elem_range tg HASHER k) as [Hh0 Hh1].
  set (h0 := fst (hash_elem tg HASHER k)) in *.
  set (h1 := snd (hash_elem tg HASHER k)) in *.
  pose proof (fastrange_range tg h0 (num_buckets t) Hh0 Hn) as Hb1. fold b1 in Hb1.
  pose proof (fastrange_range tg h1 (num_buckets t) Hh1 Hn) as Hb2.
  set (b2 := fastrange tg h1 (num_buckets t)) in *.
  destruct (wf_cell t b1 Hwf Hb1) as (w1 & Hr1 & Hw1 & Hok1).
  destruct (wf_cell t b2 Hwf Hb2) as (w2 & Hr2 & Hw2 & Hok2).
  rewrite Hw1 in Hempty.
  destruct (bucket_window tg B t Hwf b1 w1 Hb1 Hr1 Hok1) as [Hi10 Hi11].
  destruct (bucket_window tg B t Hwf b2 w2 Hb2 Hr2 Hok2) as [Hi20 Hi21].
  set (rev1 := Meta.Is_Bucket_Reversed w1) in *.
  set (rev2 := Meta.Is_Bucket_Reversed w2) in *.
  set (b1i := bucket_init_of tg B b1 rev1) in *.
  set (b2i := bucket_init_of tg B b2 rev2) in *.
  destruct (minimum_labels_wf t b1i b2i Hwf Hi10 Hi11 Hi20 Hi21)
    as (min1 & pos1 & min2 & pos2 & Hm & Hwm1 & Hwm2 & [Hp1 Hl1] & [Hp2 Hl2]).
  assert (Hmin1 : min1 = 0).
  { destruct Hwm1 as [_ Hle1]. specialize (Hle1 i Hi).
    rewrite wrap_small in Hle1 by lia. rewrite Hempty in Hle1.
    pose proof (Get_Label_range (word_at t pos1)). unfold label_at in Hl1. lia. }
  rewrite Hmin1 in Hm, Hl1.
  assert (Hmin2 : 0 <= min2 <= 7).
  { pose proof (Get_Label_range (word_at t pos2)). unfold label_at in Hl2. lia. }
  set (label := Z.min (min2 + 1) L_MAX).
  assert (Hlabel : 1 <= label <= 7) by (unfold label, L_MAX, Meta.L_MAX; lia).
  destruct (wf_cell t pos1 Hwf ltac:(lia)) as (wp & Hrp & Hwp & _).
  pose proof (try_insert_round_fast elem t rev1 rev2 pos1 min2 pos2
                (Is_Bucket_Reversed_Ok _ _ _ Hr1) (Is_Bucket_Reversed_Ok _ _ _ Hr2) Hm)
    as Hround.
  fold k h0 h1 b1 b2 b1i b2i label in Hround.
  rewrite (place_Ok t pos1 b1i rev1 label h1 elem wp Hrp ltac:(lia)) in Hround.
  set (w' := Meta.Update_Bin tg ly wp (wrap tg (pos1 - b1i)) rev1 label h1) in *.
  set (t' := mkCBG (<[Z.to_nat pos1 := w']> (metadata t))
                   (<[Z.to_nat pos1 := elem]> (elems t))
                   (wrap tg (num_elems t + 1)) (num_buckets t)
                   (_max_load_factor t) (_grow_factor t)) in *.
  assert (Hd : 0 <= wrap tg (pos1 - b1i) <= 3) by (rewrite wrap_small; lia).
  destruct (Update_Bin_fields tg ly wp (wrap tg (pos1 - b1i)) rev1 label h1 Hd
              ltac:(lia)) as (Hlab' & _ & _ & Hrev' & Hunl' & _ & Hhash' & _).
  fold w' in Hlab', Hrev', Hunl', Hhash'.
  assert (Hin1 : 0 <= pos1 < Z.of_nat (length (metadata t))) by lia.
  assert (Hine : 0 <= pos1 < Z.of_nat (length (elems t))) by lia.
  assert (Hmd' : forall q, read (metadata t') q
                           = if q =? pos1 then Some w' else read (metadata t) q).
  { intros q. unfold t'. cbn [metadata]. apply read_insert. exact Hin1. }
  assert (Hel' : forall q, read (elems t') q
                           = if q =? pos1 then Some elem else read (elems t) q).
  { intros q. unfold t'. cbn [elems]. apply read_insert. exact Hine. }
  assert (Hflag : forall q, Meta.Is_Bucket_Reversed (word_at t' q)
                            = Meta.Is_Bucket_Reversed (word_at t q) /\
                            Meta.Is_Unlucky_Bucket (word_at t' q)
                            = Meta.Is_Unlucky_Bucket (word_at t q)).
  { intros q. unfold word_at. rewrite Hmd'.
    destruct (Z.eqb_spec q pos1) as [->|Hne]; [|auto].
    rewrite Hrp. cbn [default from_option id]. auto. }
  assert (Hwf' : well_formed tg B t' = true).
  { apply (well_formed_same_flags tg B t t' Hwf); unfold t';
      cbn [num_buckets metadata elems]; rewrite ?length_insert; auto.
    intros q w Hq. fold t'. rewrite Hmd'.
    destruct (Z.eqb_spec q pos1) as [->|Hne]; [|eauto].
    exists w'. split; [reflexivity|]. rewrite Hrev'. congruence. }
  exists t'.
  destruct (find_position_total tg ly B key_of HASHER EQ k t' Hwf') as [pos Hfind].
  assert (Hmatch : cell_matches ly key_of EQ h1 t' pos1 k).
  { exists w', elem. rewrite Hmd', Hel', Z.eqb_refl.
    split; [reflexivity|]. split; [reflexivity|]. split; [lia|]. split; [exact Hrefl|].
    intros Hs. rewrite Hs in Hhash'. destruct ly; try discriminate Hs.
    apply hash_byte_match. exact Hhash'. }
  assert (Hprobed : exists j, 0 <= j < B /\ probe_cell tg t' b1 j = pos1).
  { apply (window_cell_probed tg B t' b1 pos1 Hwf'); [exact Hb1|].
    destruct (Hflag b1) as [-> _]. rewrite Hw1. fold rev1 b1i.
    unfold in_window. lia. }
  assert (Hhit : pos <> SIZE_MAX tg).
  { intros ->. destruct Hprobed as (j & Hj & Hpj).
    destruct (find_position_no_match tg ly B key_of HASHER EQ k t' t' Hwf' Hfind) as [Hno _].
    apply (Hno j Hj). fold h1. change (num_buckets t') with (num_buckets t).
    fold h0 b1. rewrite Hpj. exact Hmatch. }
  exists pos.
  split; [apply insert_fast; assumption|].
  split; [exact Hwf'|]. split; [reflexivity|]. split; [reflexivity|].
  split; [exact Hfind|]. split; [exact Hhit|].
  split.
  { unfold count. rewrite (bind_Ok _ _ _ _ _ Hfind).
    destruct (Z.eqb_spec pos (SIZE_MAX tg)); [contradiction|reflexivity]. }
  destruct (find_position_hit tg ly B key_of HASHER EQ k t' t' pos HB Hfind Hhit)
    as (_ & Hsound).
  change (num_buckets t') with (num_buckets t) in Hsound. fold h0 h1 b1 b2 in Hsound.
  split.
  { destruct Hsound as [(_ & cc & el & _ & Hel & _ & He & _)
                       |(_ & _ & cc & el & _ & Hel & _ & He & _)]; eauto. }
  intros Hmiss.
  destruct (Z.eq_dec pos pos1) as [->|Hne]; [rewrite Hel', Z.eqb_refl; reflexivity|].
  exfalso.
  destruct (find_position_no_match tg ly B key_of HASHER EQ k t t Hwf Hmiss) as [Hno1 Hno2].
  fold h0 h1 b1 b2 in Hno1, Hno2.
  assert (Hback : forall h, cell_matches ly key_of EQ h t' pos k ->
                            cell_matches ly key_of EQ h t pos k).
  { intros h (cc & el & Hcc & Hel & Hrest). exists cc, el.
    rewrite Hmd' in Hcc. rewrite Hel' in Hel.
    destruct (Z.eqb_spec pos pos1); [contradiction|]. auto. }
  destruct Hsound as [((j & Hj & Hpj) & Hm1)|(Hu & (j & Hj & Hpj) & Hm0)].
  - apply (Hno1 j Hj). rewrite <- (probe_cell_same_flags tg t t' b1 j (proj1 (Hflag b1))).
    rewrite <- Hpj. apply Hback. exact Hm1.
  - destruct (Hflag b1) as [_ Hu']. rewrite Hu' in Hu.
    apply (Hno2 Hu j Hj).
    rewrite <- (probe_cell_same_flags tg t t' b2 j (proj1 (Hflag b2))).
    rewrite <- Hpj. apply Hback. exact Hm0.
Qed.

End FastInsert.

Section EraseThenFind.

Context {INSERT_TYPE KEY_TYPE : Type}.
Variable tg : Target.
Variable ly : Layout.
Variable B : Z.
Variable key_of : INSERT_TYPE -> KEY_TYPE.
Variable HASHER : KEY_TYPE -> Z * Z.
Variable EQ : KEY_TYPE -> KEY_TYPE -> bool.

Abbreviation Te := (CBG INSERT_TYPE).

(** X11: erase, then look up. On a well-formed table [erase] of a key
    that [find_position] finds at [pos] returns 1 and empties that
    cell; the payload, the capacity, the count and every other cell
    are as before, and the table is still well formed. If no other
    occupied cell holds an equal key, the key is gone: a lookup misses
    and [count] is 0. *)
Theorem erase_then_find (k : KEY_TYPE) (t : Te) (pos : Z) :
  well_formed tg B t = true ->
  find_position tg ly B key_of HASHER EQ k t = Ok (pos, t) ->
  pos <> SIZE_MAX tg ->
  exists t',
    erase tg ly B key_of HASHER EQ k t = Ok (1, t') /\
    well_formed tg B t' = true /\
    label_at t' pos = 0 /\
    elems t' = elems t /\ num_buckets t' = num_buckets t /\
    num_elems t' = num_elems t /\
    (forall q, q <> pos -> read (metadata t') q = read (metadata t) q) /\
    ((forall q el, q <> pos -> read (elems t) q = Some el ->
        EQ (key_of el) k = true -> label_at t q = 0) ->
     find_position tg ly B key_of HASHER EQ k t' = Ok (SIZE_MAX tg, t') /\
     count tg ly B key_of HASHER EQ k t' = Ok (0, t')).
Proof.
  intros Hwf Hfind Hne.
  destruct (well_formed_spec _ _ _ Hwf) as (HB & Hn & Hlm & Hle & _).
  destruct (find_position_hit tg ly B key_of HASHER EQ k t t pos HB Hfind Hne)
    as (_ & Hsound).
  assert (Hcell : exists w, read (metadata t) pos = Some w).
  { destruct Hsound as [(_ & cc & el & Hcc & _)|(_ & _ & cc & el & Hcc & _)]; eauto. }
  destruct Hcell as [w Hw].
  pose proof (proj1 (read_Some _ _ _) Hw) as [Hin _].
  set (t' := with_metadata t (<[Z.to_nat pos := Meta.Set_Empty w]> (metadata t))).
  assert (Hse : Set_Empty pos t = Ok (tt, t')).
  { unfold Set_Empty. rewrite (bind_Ok _ _ _ _ _ (md_at_Ok _ _ _ Hw)).
    apply md_store_Ok. exact Hin. }
  assert (Hmd' : forall q, read (metadata t') q
                           = if q =? pos then Some (Meta.Set_Empty w)
                             else read (metadata t) q).
  { intros q. unfold t'. cbn [with_metadata metadata]. apply read_insert. exact Hin. }
  assert (Hwf' : well_formed tg B t' = true).
  { apply (well_formed_same_flags tg B t t' Hwf); unfold t';
      cbn [with_metadata num_buckets metadata elems]; rewrite ?length_insert; auto.
    intros q w0 Hq. fold t'. rewrite Hmd'.
    destruct (Z.eqb_spec q pos) as [->|Hq']; [|eauto].
    eexists. split; [reflexivity|]. rewrite Set_Empty_bucket_reversed. congruence. }
  assert (Hlab : label_at t' pos = 0).
  { unfold label_at, word_at. rewrite Hmd', Z.eqb_refl. apply Set_Empty_label. }
  exists t'. split.
  { unfold erase. rewrite (bind_Ok _ _ _ _ _ Hfind).
    destruct (Z.eqb_spec pos (SIZE_MAX tg)); [contradiction|]. cbn [negb].
    rewrite (bind_Ok _ _ _ _ _ Hse). reflexivity. }
  split; [exact Hwf'|]. split; [exact Hlab|].
  do 3 (split; [reflexivity|]).
  split.
  { intros q Hq. rewrite Hmd'. destruct (Z.eqb_spec q pos); [contradiction|reflexivity]. }
  intros Huniq.
  destruct (find_position_total tg ly B key_of HASHER EQ k t' Hwf') as [pos' Hf'].
  assert (pos' = SIZE_MAX tg) as ->.
  { destruct (Z.eq_dec pos' (SIZE_MAX tg)) as [E|Hne']; [exact E|]. exfalso.
    destruct (find_position_hit tg ly B key_of HASHER EQ k t' t' pos' HB Hf' Hne')
      as (_ & Hs').
    assert (Hocc : exists cc el, read (metadata t') pos' = Some cc /\
                     read (elems t') pos' = Some el /\
                     Meta.Get_Label cc <> 0 /\ EQ (key_of el) k = true).
    { destruct Hs' as [(_ & cc & el & H1 & H2 & H3 & H4 & _)
                      |(_ & _ & cc & el & H1 & H2 & H3 & H4 & _)]; eauto 10. }
    destruct Hocc as (cc & el & Hcc & Hel & Hl & He).
    destruct (Z.eq_dec pos' pos) as [->|Hd].
    - unfold label_at, word_at in Hlab. rewrite Hcc in Hlab. contradiction.
    - rewrite Hmd' in Hcc. destruct (Z.eqb_spec pos' pos); [contradiction|].
      specialize (Huniq pos' el Hd Hel He). unfold label_at, word_at in Huniq.
      rewrite Hcc in Huniq. contradiction. }
  split; [exact Hf'|]. unfold count. rewrite (bind_Ok _ _ _ _ _ Hf'), Z.eqb_refl.
  reflexivity.
Qed.

End EraseThenFind.

(* ===================================================================== *)
(** * The map operations [at] and [operator[]] *)
(* ===================================================================== *)

Section MapAccess.

Context {KEY VALUE : Type}.
Variable tg : Target.
Variable ly : Layout.
Variable B : Z.
Variable HASHER : KEY -> Z * Z.
Variable EQ : KEY -> KEY -> bool.
Variable junk : KEY * VALUE.
Variable T_default : VALUE.

Abbreviation Tm := (CBG (KEY * VALUE)).

(** X12: on a well-formed map [at] changes nothing; it throws
    exactly when [find_position] answers [SIZE_MAX], and otherwise
    returns the value of the cell found, an occupied cell whose key
    compares equal to the key asked for. *)
Theorem at_returns_found_value (key : KEY) (t : Tm) :
  well_formed tg B t = true ->
  exists pos,
    map_find_position tg ly B HASHER EQ key t = Ok (pos, t) /\
    (pos = SIZE_MAX tg /\ at_ tg ly B HASHER EQ key t = Ok (None, t)
     \/
     pos <> SIZE_MAX tg /\
     exists k' v, read (elems t) pos = Some (k', v) /\ EQ k' key = true /\
                  label_at t pos <> 0 /\
                  at_ tg ly B HASHER EQ key t = Ok (Some v, t)).
Proof.
  intros Hwf. destruct (well_formed_spec _ _ _ Hwf) as (HB & _).
  unfold map_find_position, at_.
  destruct (find_position_total tg ly B fst HASHER EQ key t Hwf) as [pos Hf].
  exists pos. split; [exact Hf|]. unfold map_find_position.
  rewrite (bind_Ok _ _ _ _ _ Hf).
  destruct (Z.eqb_spec pos (SIZE_MAX tg)) as [->|Hne]; [left; auto|].
  right. split; [exact Hne|].
  destruct (find_position_hit tg ly B fst HASHER EQ key t t pos HB Hf Hne) as (_ & Hs).
  assert (Hocc : exists cc el, read (metadata t) pos = Some cc /\
                   read (elems t) pos = Some el /\
                   Meta.Get_Label cc <> 0 /\ EQ (fst el) key = true).
  { destruct Hs as [(_ & cc & el & H1 & H2 & H3 & H4 & _)
                   |(_ & _ & cc & el & H1 & H2 & H3 & H4 & _)]; eauto 10. }
  destruct Hocc as (cc & [k' v] & Hcc & Hel & Hl & He).
  exists k', v. split; [exact Hel|]. split; [exact He|]. split.
  { unfold label_at, word_at. rewrite Hcc. exact Hl. }
  unfold GetValue. rewrite (bind_Ok _ _ _ _ _ (bind_Ok _ _ _ _ _ (GetElem_Ok _ _ _ Hel))).
  reflexivity.
Qed.

(** X13: a key that is not found, inserted with a value through a free
    cell of its first bucket, maps to that value: [at] returns it. *)
Theorem map_insert_then_at (fuel : nat) (key : KEY) (v : VALUE) (t : Tm) (i : Z) :
  well_formed tg B t = true ->
  load_reached t = Ok (false, t) ->
  let b1 := fastrange tg (fst (hash_elem tg HASHER key)) (num_buckets t) in
  0 <= i < B ->
  label_at t (bucket_init_of tg B b1 (Meta.Is_Bucket_Reversed (word_at t b1)) + i) = 0 ->
  EQ key key = true ->
  map_find_position tg ly B HASHER EQ key t = Ok (SIZE_MAX tg, t) ->
  exists t',
    map_insert tg ly B HASHER junk (S fuel) (key, v) t = Ok (tt, t') /\
    at_ tg ly B HASHER EQ key t' = Ok (Some v, t') /\
    num_elems t' = wrap tg (num_elems t + 1).
Proof.
  intros Hwf Hload b1 Hi Hempty Hrefl Habsent.
  destruct (insert_then_find_cell tg ly B fst HASHER EQ junk fuel (key, v) t i
              Hwf Hload Hi Hempty Hrefl)
    as (t' & pos & Hins & Hwf' & Hne & Hnb & Hfind & Hhit & _ & _ & Hval).
  exists t'. split; [exact Hins|]. split; [|exact Hne].
  specialize (Hval Habsent). unfold at_, map_find_position.
  cbn [fst] in Hfind. rewrite (bind_Ok _ _ _ _ _ Hfind).
  destruct (Z.eqb_spec pos (SIZE_MAX tg)); [contradiction|].
  unfold GetValue. rewrite (bind_Ok _ _ _ _ _ (bind_Ok _ _ _ _ _ (GetElem_Ok _ _ _ Hval))).
  reflexivity.
Qed.

(** X14: [operator[]] on a key that is not found, when the first
    bucket of the key has a free cell: the key is inserted with the
    value-initialised [T()], and the reference returned designates the
    cell that now holds it. *)
Theorem index_inserts_default_value (fuel : nat) (key : KEY) (t : Tm) (i : Z) :
  well_formed tg B t = true ->
  load_reached t = Ok (false, t) ->
  let b1 := fastrange tg (fst (hash_elem tg HASHER key)) (num_buckets t) in
  0 <= i < B ->
  label_at t (bucket_init_of tg B b1 (Meta.Is_Bucket_Reversed (word_at t b1)) + i) = 0 ->
  EQ key key = true ->
  map_find_position tg ly B HASHER EQ key t = Ok (SIZE_MAX tg, t) ->
  exists t' pos,
    index tg ly B HASHER EQ junk T_default (S fuel) key t = Ok (pos, t') /\
    pos <> SIZE_MAX tg /\
    read (elems t') pos = Some (key, T_default) /\
    num_elems t' = wrap tg (num_elems t + 1).
Proof.
  intros Hwf Hload b1 Hi Hempty Hrefl Habsent.
  destruct (insert_then_find_cell tg ly B fst HASHER EQ junk fuel (key, T_default) t i
              Hwf Hload Hi Hempty Hrefl)
    as (t' & pos & Hins & Hwf' & Hne & Hnb & Hfind & Hhit & _ & _ & Hval).
  exists t', pos. unfold index. rewrite (bind_Ok _ _ _ _ _ Habsent), Z.eqb_refl.
  unfold map_insert. rewrite (bind_Ok _ _ _ _ _ Hins).
  unfold map_find_position. cbn [fst] in Hfind. rewrite Hfind.
  split; [reflexivity|]. split; [exact Hhit|]. split; [|exact Hne].
  apply Hval. exact Habsent.
Qed.

End MapAccess.

(* ===================================================================== *)
(** * What [try_insert] leaves alone *)
(* ===================================================================== *)

Lemma preserves_ret {I A X : Type} (f : CBG I -> X) (a : A) : preserves f (ret (I:=I) a).
Proof. intros t a' t' [= _ <-]. reflexivity. Qed.

Lemma preserves_bind {I A B X : Type} (f : CBG I -> X) (m : M I A) (k : A -> M I B) :
  preserves f m -> (forall a, preserves f (k a)) -> preserves f (bind m k).
Proof.
  intros Hm Hk t b t' H. apply bind_Ok_inv in H as (a & t1 & H1 & H2).
  rewrite (Hk a _ _ _ H2). apply (Hm _ _ _ H1).
Qed.

Lemma preserves_foldM {I A S X : Type} (f : CBG I -> X) (g : S -> A -> M I S)
    (l : list A) :
  (forall s a, preserves f (g s a)) -> forall s, preserves f (foldM g s l).
Proof.
  intros Hg. induction l as [|a l IH]; intros s; simpl.
  - apply preserves_ret.
  - apply preserves_bind; auto.
Qed.

Lemma preserves_readonly {I A X : Type} (f : CBG I -> X) (m : M I A) :
  readonly m -> preserves f m.
Proof. intros Hro t a t' H. rewrite (Hro _ _ _ H). reflexivity. Qed.

Lemma preserves_diverge {I A X : Type} (f : CBG I -> X) :
  preserves f (diverge (I:=I) (A:=A)).
Proof. intros t a t' H. discriminate H. Qed.

(** The observation [try_insert]'s helpers keep: the shape and the
    element count. *)
Abbreviation shape_and_size := (fun t => (table_shape t, num_elems t)).

Lemma preserves_md_store {I : Type} pos w :
  preserves (I:=I) shape_and_size (md_store pos w).
Proof.
  intros t a t' H. apply md_store_inv in H as (Hw & He & Hn & Hb & Hm & Hg).
  unfold table_shape. apply write_length in Hw. congruence.
Qed.

Lemma preserves_SaveElem {I : Type} pos (e : I) :
  preserves shape_and_size (SaveElem pos e).
Proof.
  intros t a t' H. apply SaveElem_inv in H as (Hw & He & Hn & Hb & Hm & Hg).
  unfold table_shape. apply write_length in Hw. congruence.
Qed.

Lemma preserves_md_at {I : Type} pos : preserves (I:=I) shape_and_size (md_at pos).
Proof. apply preserves_readonly, readonly_md_at. Qed.

Lemma preserves_GetElem {I : Type} pos : preserves (I:=I) shape_and_size (GetElem pos).
Proof. apply preserves_readonly, readonly_GetElem. Qed.

Lemma preserves_get_num_buckets {I : Type} :
  preserves (I:=I) shape_and_size get_num_buckets.
Proof. apply preserves_readonly, readonly_get_num_buckets. Qed.

Lemma preserves_get_num_elems {I : Type} :
  preserves (I:=I) shape_and_size get_num_elems.
Proof. apply preserves_readonly, readonly_get_num_elems. Qed.

Lemma preserves_loop_fuel {I : Type} : preserves (I:=I) shape_and_size loop_fuel.
Proof. intros t a t' [= _ <-]. reflexivity. Qed.

Create HintDb keeps.

Ltac preserves_step :=
  first
    [ apply preserves_ret
    | apply preserves_md_at
    | apply preserves_md_store
    | apply preserves_GetElem
    | apply preserves_SaveElem
    | apply preserves_get_num_buckets
    | apply preserves_get_num_elems
    | apply preserves_loop_fuel
    | apply preserves_diverge
    | solve [auto]
    | apply preserves_foldM; intros ? ?
    | apply preserves_bind; [|intros ?]
    | match goal with
      | |- preserves _ (if ?b then _ else _) => destruct b
      | |- preserves _ (match ?x with _ => _ end) => destruct x
      | |- preserves _ ((match ?x with _ => _ end) _) => destruct x; cbv beta
      end ].

Section Frame.

Context {INSERT_TYPE KEY_TYPE : Type}.
Variable tg : Target.
Variable ly : Layout.
Variable B : Z.
Variable key_of : INSERT_TYPE -> KEY_TYPE.
Variable HASHER : KEY_TYPE -> Z * Z.
Variable EQ : KEY_TYPE -> KEY_TYPE -> bool.

Abbreviation Tp := (CBG INSERT_TYPE).
Abbreviation keeps := (preserves (I:=INSERT_TYPE) shape_and_size).

Lemma keeps_Get_Label pos : keeps (Get_Label pos).
Proof. unfold Get_Label. repeat preserves_step. Qed.

Lemma keeps_Is_Empty pos : keeps (Is_Empty pos).
Proof. unfold Is_Empty. pose proof keeps_Get_Label. repeat preserves_step. Qed.

Lemma keeps_Set_Empty pos : keeps (Set_Empty pos).
Proof. unfold Set_Empty. repeat preserves_step. Qed.

Lemma keeps_Get_Hash pos : keeps (Get_Hash ly pos).
Proof. unfold Get_Hash. destruct ly; repeat preserves_step. Qed.

Lemma keeps_Update_Bin_At pos d r label hash : keeps (Update_Bin_At tg ly pos d r label hash).
Proof. unfold Update_Bin_At. repeat preserves_step. Qed.

Lemma keeps_Is_Item_In_Reverse_Bucket pos : keeps (Is_Item_In_Reverse_Bucket pos).
Proof. unfold Is_Item_In_Reverse_Bucket. repeat preserves_step. Qed.

Lemma keeps_Distance_to_Entry_Bin pos : keeps (Distance_to_Entry_Bin pos).
Proof. unfold Distance_to_Entry_Bin. repeat preserves_step. Qed.

Lemma keeps_Set_Unlucky_Bucket pos : keeps (Set_Unlucky_Bucket pos).
Proof. unfold Set_Unlucky_Bucket. repeat preserves_step. Qed.

Lemma keeps_Is_Bucket_Reversed pos : keeps (Is_Bucket_Reversed pos).
Proof. unfold Is_Bucket_Reversed. repeat preserves_step. Qed.

Lemma keeps_Set_Bucket_Reversed pos : keeps (Set_Bucket_Reversed pos).
Proof. unfold Set_Bucket_Reversed. repeat preserves_step. Qed.

Lemma keeps_MoveElem dest orig : keeps (MoveElem dest orig).
Proof. unfold MoveElem. repeat preserves_step. Qed.

#[local] Hint Resolve keeps_Get_Label keeps_Is_Empty keeps_Set_Empty keeps_Get_Hash
  keeps_Update_Bin_At keeps_Is_Item_In_Reverse_Bucket keeps_Distance_to_Entry_Bin
  keeps_Set_Unlucky_Bucket keeps_Is_Bucket_Reversed keeps_Set_Bucket_Reversed
  keeps_MoveElem : keeps.

Ltac keeps_step := first [ solve [auto with keeps] | preserves_step ].

Lemma keeps_Calculate_Minimum pos : keeps (Calculate_Minimum tg B pos).
Proof. unfold Calculate_Minimum. repeat keeps_step. Qed.

Lemma keeps_Belong_to_Bucket pos : keeps (Belong_to_Bucket tg B pos).
Proof. unfold Belong_to_Bucket. repeat keeps_step. Qed.

Lemma keeps_Count_Empty pos : keeps (Count_Empty tg B pos).
Proof. unfold Count_Empty. repeat keeps_step. Qed.

Lemma keeps_Count_Elems pos : keeps (Count_Elems_In_Bucket_Non_Reversed tg B pos).
Proof. unfold Count_Elems_In_Bucket_Non_Reversed. repeat keeps_step. Qed.

Lemma keeps_scan_empty fuel : forall bucket_pos j, keeps (scan_empty tg fuel bucket_pos j).
Proof.
  induction fuel as [|fuel IH]; intros bucket_pos j; cbn [scan_empty]; repeat keeps_step.
Qed.

#[local] Hint Resolve keeps_Calculate_Minimum keeps_Belong_to_Bucket keeps_Count_Empty
  keeps_Count_Elems keeps_scan_empty : keeps.

Lemma keeps_Reverse_Bucket pos : keeps (Reverse_Bucket tg ly B pos).
Proof. unfold Reverse_Bucket. repeat keeps_step. Qed.

Lemma keeps_credit_empty pos c : keeps (credit_empty tg B pos c).
Proof. unfold credit_empty. repeat keeps_step. Qed.

#[local] Hint Resolve keeps_Reverse_Bucket keeps_credit_empty : keeps.

Lemma keeps_hopscotch_reverse_bucket b bi : keeps (hopscotch_reverse_bucket tg ly B b bi).
Proof. unfold hopscotch_reverse_bucket. repeat keeps_step. Qed.

Lemma keeps_hopscotch_reverse_elems b bi offsets :
  keeps (hopscotch_reverse_elems tg ly B b bi offsets).
Proof.
  induction offsets as [|i rest IH]; cbn [hopscotch_reverse_elems]; repeat keeps_step.
Qed.

Lemma keeps_find_swap fuel : forall pb ps, keeps (find_swap tg B fuel pb ps).
Proof.
  induction fuel as [|fuel IH]; intros pb ps; cbn [find_swap]; repeat keeps_step.
Qed.

#[local] Hint Resolve keeps_hopscotch_reverse_bucket keeps_hopscotch_reverse_elems
  keeps_find_swap : keeps.

Lemma keeps_move_blank fuel : forall bi pb, keeps (move_blank tg ly B fuel bi pb).
Proof.
  induction fuel as [|fuel IH]; intros bi pb; cbn [move_blank]; repeat keeps_step.
Qed.

#[local] Hint Resolve keeps_move_blank : keeps.

Lemma keeps_hopscotch_scan fuel : forall bi i maxd, keeps (hopscotch_scan tg ly B fuel bi i maxd).
Proof.
  induction fuel as [|fuel IH]; intros bi i maxd; cbn [hopscotch_scan]; repeat keeps_step.
Qed.

#[local] Hint Resolve keeps_hopscotch_scan : keeps.

Lemma keeps_Find_Empty_Pos_Hopscotch b bi : keeps (Find_Empty_Pos_Hopscotch tg ly B b bi).
Proof. unfold Find_Empty_Pos_Hopscotch. repeat keeps_step. Qed.

Lemma keeps_minimum_labels b1 b2 : keeps (minimum_labels tg B b1 b2).
Proof. apply preserves_readonly, readonly_minimum_labels. Qed.

Lemma keeps_evict pos bi rev label hash (elem : INSERT_TYPE) :
  keeps (evict tg ly pos bi rev label hash elem).
Proof. unfold evict. repeat keeps_step. Qed.

#[local] Hint Resolve keeps_Find_Empty_Pos_Hopscotch keeps_minimum_labels keeps_evict : keeps.

Lemma shape_and_size_split (t t' : Tp) :
  shape_and_size t' = shape_and_size t <->
  table_shape t' = table_shape t /\ num_elems t' = num_elems t.
Proof.
  cbv beta. split.
  - intros H. split; [exact (f_equal fst H)|exact (f_equal snd H)].
  - intros [H1 H2]. rewrite H1, H2. reflexivity.
Qed.

Lemma incr_num_elems_shape (t t' : Tp) (u : unit) :
  incr_num_elems tg t = Ok (u, t') ->
  table_shape t' = table_shape t /\ num_elems t' = wrap tg (num_elems t + 1).
Proof.
  unfold incr_num_elems, bind, get_num_elems, set_num_elems.
  intros [= <- <-]. split; reflexivity.
Qed.

Lemma place_frame (t t' : Tp) pos bi rev label hash elem r :
  place tg ly pos bi rev label hash elem t = Ok (r, t') ->
  r = Inserted /\ table_shape t' = table_shape t /\
  num_elems t' = wrap tg (num_elems t + 1).
Proof.
  unfold place. intros H.
  apply bind_Ok_inv in H as ([] & t1 & Hu & H).
  apply bind_Ok_inv in H as ([] & t2 & Hs & H).
  apply bind_Ok_inv in H as ([] & t3 & Hi & H).
  unfold ret in H. injection H as <- <-.
  apply keeps_Update_Bin_At, shape_and_size_split in Hu as [Hu1 Hu2].
  apply preserves_SaveElem, shape_and_size_split in Hs as [Hs1 Hs2].
  apply incr_num_elems_shape in Hi as [Hi1 Hi2].
  split; [reflexivity|]. split; congruence.
Qed.

Lemma secondary_hopscotch_frame (t t' : Tp) b1p b2p b2i min1 h0 elem placed :
  secondary_hopscotch tg ly B b1p b2p b2i min1 h0 elem t = Ok (placed, t') ->
  table_shape t' = table_shape t /\
  num_elems t' = if placed then wrap tg (num_elems t + 1) else num_elems t.
Proof.
  unfold secondary_hopscotch, bind at 1, get_num_buckets, bind at 1, get_num_elems.
  destruct (_ <? _); [|intros [= <- <-]; auto].
  intros H. apply bind_Ok_inv in H as (empty_pos & ta & Hh & H).
  apply keeps_Find_Empty_Pos_Hopscotch, shape_and_size_split in Hh as [Hh1 Hh2].
  destruct (empty_pos =? SIZE_MAX tg).
  { unfold ret in H. injection H as <- <-. auto. }
  apply bind_Ok_inv in H as ([] & tb & Hu & H).
  apply keeps_Set_Unlucky_Bucket, shape_and_size_split in Hu as [Hu1 Hu2].
  apply bind_Ok_inv in H as (rev2 & tc & Hr & H).
  pose proof (readonly_Is_Bucket_Reversed _ _ _ _ Hr) as ->.
  apply bind_Ok_inv in H as (r & td & Hp & H).
  unfold ret in H. injection H as <- <-.
  apply place_frame in Hp as (_ & Hp1 & Hp2). split; congruence.
Qed.

Lemma try_insert_round_frame (elem : INSERT_TYPE) (t t' : Tp) r :
  try_insert_round tg ly B key_of HASHER elem t = Ok (r, t') ->
  table_shape t' = table_shape t /\
  num_elems t' = match r with
                 | Inserted => wrap tg (num_elems t + 1)
                 | _ => num_elems t
                 end.
Proof.
  intros H. apply try_insert_round_anatomy in H
    as (rev1 & rev2 & min1 & pos1 & min2 & pos2 & _ & _ & _ & Hcase).
  destruct Hcase as [H1 Hp|empty_pos t1 rev1' H1 Hh He Hrv Hp|t1 t2 H1 Hh H2 Hu Hp
                    |t1 H1 Hh H2 Hs Hins|t1 t2 H1 Hh H2 Hs He].
  - apply place_frame in Hp as (-> & Hp1 & Hp2). auto.
  - apply keeps_Find_Empty_Pos_Hopscotch, shape_and_size_split in Hh as [Hh1 Hh2].
    apply place_frame in Hp as (-> & Hp1 & Hp2). split; congruence.
  - apply keeps_Find_Empty_Pos_Hopscotch, shape_and_size_split in Hh as [Hh1 Hh2].
    apply keeps_Set_Unlucky_Bucket, shape_and_size_split in Hu as [Hu1 Hu2].
    apply place_frame in Hp as (-> & Hp1 & Hp2). split; congruence.
  - apply keeps_Find_Empty_Pos_Hopscotch, shape_and_size_split in Hh as [Hh1 Hh2].
    apply secondary_hopscotch_frame in Hs as [Hs1 Hs2]. subst r. split; congruence.
  - apply keeps_Find_Empty_Pos_Hopscotch, shape_and_size_split in Hh as [Hh1 Hh2].
    apply secondary_hopscotch_frame in Hs as [Hs1 Hs2].
    unfold evict_or_fail in He.
    destruct (L_MAX <=? Z.min min1 min2).
    { unfold ret in He. injection He as <- <-. split; congruence. }
    destruct (min1 <=? min2).
    + pose proof He as He'. apply evict_inv in He' as (v & -> & _).
      apply keeps_evict, shape_and_size_split in He as [He1 He2]. split; congruence.
    + apply bind_Ok_inv in He as ([] & t3 & Hu & He).
      apply keeps_Set_Unlucky_Bucket, shape_and_size_split in Hu as [Hu1 Hu2].
      pose proof He as He'. apply evict_inv in He' as (v & -> & _).
      apply keeps_evict, shape_and_size_split in He as [He1 He2]. split; congruence.
Qed.

(** X15: [try_insert], whatever it does to the cells, keeps the
    capacity, the sizes of both arrays and the two parameters, and it
    counts one element more exactly when it reports success. *)
Theorem try_insert_keeps_shape (fuel : nat) :
  forall (elem e' : INSERT_TYPE) (t t' : Tp) (ok : bool),
    try_insert tg ly B key_of HASHER fuel elem t = Ok ((ok, e'), t') ->
    table_shape t' = table_shape t /\
    num_elems t' = if ok then wrap tg (num_elems t + 1) else num_elems t.
Proof.
  induction fuel as [|fuel IH]; intros elem e' t t' ok H; cbn [try_insert] in H;
    [discriminate H|].
  apply bind_Ok_inv in H as (r & t1 & Hr & H).
  apply try_insert_round_frame in Hr as [Hr1 Hr2].
  destruct r as [| |victim].
  - unfold ret in H. injection H as <- <- <-. auto.
  - unfold ret in H. injection H as <- <- <-. auto.
  - apply IH in H as [H1 H2]. split; [congruence|].
    rewrite H2, Hr2. reflexivity.
Qed.

Lemma erase_frame (k : KEY_TYPE) (t t' : Tp) (r : Z) :
  erase tg ly B key_of HASHER EQ k t = Ok (r, t') ->
  table_shape t' = table_shape t /\ num_elems t' = num_elems t /\ elems t' = elems t.
Proof.
  intros H. apply erase_inv in H as (pos & _ & [(_ & _ & ->)|(_ & _ & Hs)]); [auto|].
  pose proof Hs as Hs'.
  apply keeps_Set_Empty, shape_and_size_split in Hs as [H1 H2].
  apply Set_Empty_inv in Hs' as (w & _ & _ & He & _). auto.
Qed.

End Frame.

(* ===================================================================== *)
(** * The growth step *)
(* ===================================================================== *)

Section Growth.

Context {INSERT_TYPE : Type}.
Variable tg : Target.
Variable B : Z.

(** X18: [get_grow_size] never proposes less than the present
    capacity, and short of an overflow it proposes at least
    [2 * B - 2] cells more, so that the [B - 1] reversed buckets at the
    end of the grown table lie beyond the old cells. *)
Theorem get_grow_size_grows (t t' : CBG INSERT_TYPE) (g : Z) :
  2 <= B <= 4 -> 0 <= num_buckets t < SIZE_MOD tg ->
  get_grow_size tg B t = Ok (g, t') ->
  t' = t /\ num_buckets t <= g < SIZE_MOD tg /\
  (num_buckets t + (2 * B - 2) < SIZE_MOD tg ->
   num_buckets t + (2 * B - 2) <= g /\ num_buckets t <= g - (B - 1)).
Proof.
  intros HB Hn. unfold get_grow_size.
  destruct (F32.to_Z _) as [grown|]; [|discriminate].
  destruct (Z.leb_spec 0 grown) as [H0|H0]; [|discriminate].
  destruct (Z.ltb_spec grown (SIZE_MOD tg)) as [H1|H1]; [|discriminate].
  cbn [andb]. intros [= <- <-]. split; [reflexivity|].
  assert (H6 : 6 < SIZE_MOD tg) by (destruct tg; reflexivity).
  unfold MIN_BINS_SIZE. rewrite (wrap_small tg (2 * B - 2)) by lia.
  pose proof (wrap_range tg (num_buckets t + (2 * B - 2))) as Hw.
  destruct (Z.ltb_spec (Z.max (wrap tg (num_buckets t + (2 * B - 2))) grown) (num_buckets t))
    as [Hlt|Hge].
  - unfold SIZE_MAX. split; [lia|]. intros Hfit. rewrite wrap_small in Hlt by lia. lia.
  - split; [lia|]. intros Hfit. rewrite wrap_small in * by lia. lia.
Qed.

End Growth.

(* ===================================================================== *)
(** * A table without empty cells *)
(* ===================================================================== *)

Lemma insert_swap_Permutation {A : Type} (l : list A) (i : nat) (v e : A) :
  l !! i = Some v -> v :: <[i := e]> l ≡ₚ e :: l.
Proof.
  revert i. induction l as [|x l IH]; intros [|i] H; simpl in *; try discriminate.
  - injection H as ->. apply perm_swap.
  - rewrite (perm_swap x v), (IH i H). apply perm_swap.
Qed.

Lemma list_eq_insert {A : Type} (l l' : list A) (pos : Z) (e : A) :
  length l' = length l -> 0 <= pos < Z.of_nat (length l) ->
  read l' pos = Some e ->
  (forall q, q <> pos -> read l' q = read l q) ->
  l' = <[Z.to_nat pos := e]> l.
Proof.
  intros Hlen Hpos He Hother. apply list_eq. intros i.
  destruct (decide (i = Z.to_nat pos)) as [->|Hne].
  - rewrite list_lookup_insert_eq by lia.
    apply read_Some in He as [_ He]. exact He.
  - rewrite list_lookup_insert_ne by congruence.
    destruct (decide (i < length l)%nat) as [Hi|Hi].
    + specialize (Hother (Z.of_nat i) ltac:(lia)).
      unfold read, in_bounds in Hother. rewrite Hlen in Hother.
      replace ((0 <=? Z.of_nat i) && (Z.of_nat i <? Z.of_nat (length l))) with true in Hother
        by (symmetry; apply andb_true_iff; split; [apply Z.leb_le|apply Z.ltb_lt]; lia).
      rewrite Nat2Z.id in Hother. exact Hother.
    + rewrite !lookup_ge_None_2 by lia. reflexivity.
Qed.

Section FullTableElements.

Context {INSERT_TYPE KEY_TYPE : Type}.
Variable tg : Target.
Variable ly : Layout.
Variable B : Z.
Variable key_of : INSERT_TYPE -> KEY_TYPE.
Variable HASHER : KEY_TYPE -> Z * Z.

Abbreviation Tu := (CBG INSERT_TYPE).

Lemma hopscotch_on_full_table (t : Tu) (b : Z) :
  well_formed tg B t = true -> full_table t = true -> 0 <= b < num_buckets t ->
  Find_Empty_Pos_Hopscotch tg ly B b
    (bucket_init_of tg B b (Meta.Is_Bucket_Reversed (word_at t b))) t
  = Ok (SIZE_MAX tg, t).
Proof.
  intros Hwf Hfull Hb.
  destruct (wf_cell tg B t b Hwf Hb) as (w & Hr & -> & Hok).
  destruct (bucket_window tg B t Hwf b w Hb Hr Hok) as [H0 H1].
  apply Find_Empty_Pos_Hopscotch_full; assumption.
Qed.

(** An eviction on a full table swaps the element in hand with the
    resident of one cell. *)
Lemma eviction_swaps (elem v : INSERT_TYPE) (t t' : Tu) :
  well_formed tg B t = true -> full_table t = true ->
  try_insert_round tg ly B key_of HASHER elem t = Ok (Evicted v, t') ->
  v :: elems t' ≡ₚ elem :: elems t.
Proof.
  intros Hwf Hfull Hround.
  destruct (well_formed_spec _ _ _ Hwf) as (HB & Hn & Hlm & Hle & _).
  pose proof (try_insert_round_frame tg ly B key_of HASHER elem t t' _ Hround)
    as [Hshape _].
  assert (Hlen : length (elems t') = length (elems t))
    by (unfold table_shape in Hshape; congruence).
  pose proof (hash_elem_range tg HASHER (key_of elem)) as [Hh0 Hh1].
  pose proof (fastrange_range tg _ (num_buckets t) Hh0 Hn) as Hb1.
  pose proof (fastrange_range tg _ (num_buckets t) Hh1 Hn) as Hb2.
  apply try_insert_round_anatomy in Hround
    as (rev1 & rev2 & min1 & pos1 & min2 & pos2 & Hr1 & Hr2 & Hm & Hcase).
  set (b1 := fastrange tg (fst (hash_elem tg HASHER (key_of elem))) (num_buckets t)) in *.
  set (b2 := fastrange tg (snd (hash_elem tg HASHER (key_of elem))) (num_buckets t)) in *.
  apply Is_Bucket_Reversed_inv in Hr1 as (_ & w1 & Hw1 & ->).
  apply Is_Bucket_Reversed_inv in Hr2 as (_ & w2 & Hw2 & ->).
  assert (Hwa1 : word_at t b1 = w1) by (unfold word_at; rewrite Hw1; reflexivity).
  assert (Hwa2 : word_at t b2 = w2) by (unfold word_at; rewrite Hw2; reflexivity).
  pose proof (hopscotch_on_full_table t b1 Hwf Hfull Hb1) as Hhop1. rewrite Hwa1 in Hhop1.
  destruct (wf_cell tg B t b2 Hwf Hb2) as (w2' & Hr2' & _ & Hok2).
  assert (w2' = w2) as -> by congruence.
  destruct (bucket_window tg B t Hwf b2 w2 Hb2 Hw2 Hok2) as [H20 H21].
  assert (Hswap : forall s pos label,
            elems s = elems t ->
            written tg ly s t' pos label elem ->
            read (elems s) pos = Some v ->
            v :: elems t' ≡ₚ elem :: elems t).
  { intros s pos label Hes (_ & He & Hother & _) Hv.
    rewrite Hes in Hv.
    pose proof (proj1 (read_Some _ _ _) Hv) as [Hin Hlk].
    rewrite (list_eq_insert (elems t) (elems t') pos elem Hlen Hin He).
    - apply insert_swap_Permutation. exact Hlk.
    - intros q Hq. rewrite <- Hes. apply Hother. exact Hq. }
  destruct Hcase as [H1 Hp|empty_pos t1 rev1' H1 Hh He Hrv Hp|t1 t2 H1 Hh H2 Hu Hp
                    |t1 H1 Hh H2 Hs Hins|t1 t2 H1 Hh H2 Hs He].
  - apply place_inv in Hp as (Hp & _). discriminate Hp.
  - apply place_inv in Hp as (Hp & _). discriminate Hp.
  - apply place_inv in Hp as (Hp & _). discriminate Hp.
  - discriminate Hins.
  - rewrite Hhop1 in Hh. injection Hh as <-.
    rewrite (secondary_hopscotch_full tg ly B t Hwf Hfull b1 b2 _ min1 _ elem Hb2 H20 H21)
      in Hs.
    injection Hs as <-.
    unfold evict_or_fail in He.
    destruct (L_MAX <=? Z.min min1 min2); [discriminate He|].
    destruct (min1 <=? min2).
    + apply evict_inv in He as (v' & Hv' & Hrd & Hw & _).
      injection Hv' as <-. eapply Hswap; eauto.
    + apply bind_Ok_inv in He as ([] & t3 & Hu & He).
      apply Set_Unlucky_Bucket_inv in Hu as (wu & _ & _ & Hes & _).
      apply evict_inv in He as (v' & Hv' & Hrd & Hw & _).
      injection Hv' as <-. eapply Hswap; eauto.
Qed.

(** X17: on a well-formed table without empty cells [try_insert]
    cannot succeed, and it loses nothing: the element it hands back
    and the elements stored afterwards are, together, the element
    given and the elements stored before; the table is still full and
    well formed, with the same count and shape. *)
Theorem try_insert_on_full_table_loses_nothing (fuel : nat) :
  forall (elem e' : INSERT_TYPE) (t t' : Tu) (ok : bool),
    well_formed tg B t = true -> full_table t = true ->
    try_insert tg ly B key_of HASHER fuel elem t = Ok ((ok, e'), t') ->
    ok = false /\ e' :: elems t' ≡ₚ elem :: elems t /\
    well_formed tg B t' = true /\ full_table t' = true /\
    num_elems t' = num_elems t /\ table_shape t' = table_shape t.
Proof.
  induction fuel as [|fuel IH]; intros elem e' t t' ok Hwf Hfull H;
    cbn [try_insert] in H; [discriminate H|].
  destruct (try_insert_round_full tg ly B key_of HASHER elem t Hwf Hfull)
    as (r & t1 & Hr & Hcase).
  rewrite (bind_Ok _ _ _ _ _ Hr) in H.
  pose proof (try_insert_round_frame tg ly B key_of HASHER elem t t1 r Hr) as [Hs1 Hn1].
  destruct r as [| |v].
  - contradiction.
  - subst t1. unfold ret in H. injection H as <- <- <-. auto 10.
  - destruct Hcase as (Hwf1 & Hfull1 & _).
    pose proof (eviction_swaps elem v t t1 Hwf Hfull Hr) as Hperm.
    destruct (IH v e' t1 t' ok Hwf1 Hfull1 H) as (-> & Hp & Hwf' & Hfull' & Hn' & Hs').
    split; [reflexivity|]. split; [rewrite Hp; exact Hperm|].
    split; [exact Hwf'|]. split; [exact Hfull'|]. split; congruence.
Qed.

End FullTableElements.

(* ===================================================================== *)
(** * The owner bucket recorded by a placement *)
(* ===================================================================== *)

Section Owner.

Context {INSERT_TYPE : Type}.
Variable tg : Target.
Variable ly : Layout.
Variable B : Z.

(** X19: the distance and the reversed-item bit that a placement into
    the bucket anchored at [b] writes let [Belong_to_Bucket] recover
    [b] from the cell. *)
Theorem placement_records_owner_bucket (t t' : CBG INSERT_TYPE) (b pos : Z) (rev : bool)
    (label hash : Z) (elem : INSERT_TYPE) (r : Round INSERT_TYPE) :
  2 <= B <= 4 -> 0 <= b < SIZE_MOD tg -> (rev = true -> B - 1 <= b) ->
  (if rev then b - (B - 1) else b) <= pos < (if rev then b - (B - 1) else b) + B ->
  pos < SIZE_MOD tg ->
  1 <= label <= 7 ->
  place tg ly pos (bucket_init_of tg B b rev) rev label hash elem t = Ok (r, t') ->
  Belong_to_Bucket tg B pos t' = Ok (b, t').
Proof.
  intros HB Hb Hrevb Hpos Hmod Hlabel Hp.
  assert (Hbi : bucket_init_of tg B b rev = if rev then b - (B - 1) else b).
  { unfold bucket_init_of. destruct rev.
    - replace (1 - B) with (- (B - 1)) by lia. apply wrap_add_wrap_neg; [|lia].
      specialize (Hrevb eq_refl). lia.
    - rewrite Z.add_0_r. apply wrap_small. lia. }
  rewrite Hbi in Hp.
  unfold place in Hp.
  apply bind_Ok_inv in Hp as ([] & t1 & Hu & Hp).
  apply bind_Ok_inv in Hp as ([] & t2 & Hs & Hp).
  apply bind_Ok_inv in Hp as ([] & t3 & Hi & Hp).
  unfold ret in Hp. injection Hp as <- <-.
  apply Update_Bin_At_inv in Hu as (w & Hw & Hwr & _).
  apply SaveElem_inv in Hs as (_ & Hm2 & _).
  apply incr_num_elems_inv in Hi as (Hm3 & _).
  set (d := wrap tg (pos - (if rev then b - (B - 1) else b))) in *.
  assert (Hd : d = pos - (if rev then b - (B - 1) else b))
    by (unfold d; apply wrap_small; destruct rev; lia).
  assert (Hd3 : 0 <= d <= 3) by (destruct rev; lia).
  destruct (Update_Bin_fields tg ly w d rev label hash Hd3 ltac:(lia))
    as (Hl & Hdist & Hri & _).
  set (w' := Meta.Update_Bin tg ly w d rev label hash) in *.
  assert (Hr' : read (metadata t3) pos = Some w').
  { rewrite Hm3, Hm2. apply (read_write_same _ _ _ _ Hwr). }
  unfold Belong_to_Bucket, Is_Empty.
  rewrite (bind_Ok _ _ _ _ _ (bind_Ok _ _ _ _ _ (Get_Label_Ok _ _ _ Hr'))).
  rewrite Hl. destruct (Z.eqb_spec label 0) as [E|_]; [lia|].
  rewrite (bind_Ok _ _ _ _ _ (Is_Item_In_Reverse_Bucket_Ok _ _ _ Hr')).
  rewrite (bind_Ok _ _ _ _ _ (Distance_to_Entry_Bin_Ok _ _ _ Hr')).
  rewrite Hri, Hdist, Hd. unfold ret. f_equal. f_equal.
  destruct rev; rewrite wrap_small; lia.
Qed.

End Owner.

(* ===================================================================== *)
(** * [reserve] on a table that holds nothing *)
(* ===================================================================== *)


Section ReserveEmpty.

Context {INSERT_TYPE KEY_TYPE : Type}.
Variable tg : Target.
Variable ly : Layout.
Variable B : Z.
Variable key_of : INSERT_TYPE -> KEY_TYPE.
Variable HASHER : KEY_TYPE -> Z * Z.
Variable junk : INSERT_TYPE.

Abbreviation Tv := (CBG INSERT_TYPE).




End ReserveEmpty.

(* ===================================================================== *)
(** * Properties of the operations, with instances *)
(* ===================================================================== *)

Lemma no_cell_occupied_check {I : Type} (t : CBG I) :
  forallb (fun w => Meta.Get_Label w =? 0) (metadata t) = true -> no_cell_occupied t.
Proof.
  intros H p. unfold label_at, word_at.
  destruct (read (metadata t) p) as [w|] eqn:Hr; [|reflexivity].
  apply read_Some in Hr as [_ Hr]. rewrite forallb_forall in H.
  apply Z.eqb_eq, H, list_elem_of_In. eapply list_elem_of_lookup_2. exact Hr.
Qed.

Lemma elems_check {I : Type} (t : CBG I) (P : Z -> I -> bool) :
  forallb (fun q => match read (elems t) q with Some el => P q el | None => true end)
          (seqZ 0 (Z.of_nat (length (elems t)))) = true ->
  forall q el, read (elems t) q = Some el -> P q el = true.
Proof.
  intros H q el Hr. rewrite forallb_forall in H.
  pose proof (proj1 (read_Some _ _ _) Hr) as [Hin _].
  specialize (H q). rewrite Hr in H. apply H.
  apply list_elem_of_In, elem_of_seqZ. lia.
Qed.

(** X1: the word [Update_Bin_At] writes decodes to the fields it was
    given. For a distance of at most 3 and a label of at most 7, the
    label, the distance and the reversed-item bit read back as written,
    the two bucket flags are those of the old word, the word is empty
    exactly when the label written is 0, in the struct-of-arrays layout
    the hash byte is bits 8..15 of the hash given, and the word fits
    the metadata type. *)
Theorem Update_Bin_round_trip tg ly w d r label hash :
  0 <= d <= 3 -> 0 <= label <= 7 ->
  Meta.Get_Label (Meta.Update_Bin tg ly w d r label hash) = label /\
  Meta.Distance_to_Entry_Bin (Meta.Update_Bin tg ly w d r label hash) = d /\
  Meta.Is_Item_In_Reverse_Bucket (Meta.Update_Bin tg ly w d r label hash) = r /\
  Meta.Is_Bucket_Reversed (Meta.Update_Bin tg ly w d r label hash)
    = Meta.Is_Bucket_Reversed w /\
  Meta.Is_Unlucky_Bucket (Meta.Update_Bin tg ly w d r label hash)
    = Meta.Is_Unlucky_Bucket w /\
  Meta.Is_Empty (Meta.Update_Bin tg ly w d r label hash) = (label =? 0) /\
  Meta.Get_Hash ly (Meta.Update_Bin tg ly w d r label hash)
    = (if IS_SoA ly then Z.land hash 65280 else 0) /\
  0 <= Meta.Update_Bin tg ly w d r label hash < 2 ^ META_BITS ly.
Proof. apply Update_Bin_fields. Qed.

Lemma Update_Bin_round_trip_witness :
  Meta.Get_Label (Meta.Update_Bin Target64_msvc SoA 192 2 true 5 43981) = 5 /\
  Meta.Distance_to_Entry_Bin (Meta.Update_Bin Target64_msvc SoA 192 2 true 5 43981) = 2 /\
  Meta.Get_Hash SoA (Meta.Update_Bin Target64_msvc SoA 192 2 true 5 43981) = 43776.
Proof.
  destruct (Update_Bin_round_trip Target64_msvc SoA 192 2 true 5 43981)
    as (H1 & H2 & _ & _ & _ & _ & H7 & _); [lia|lia|].
  split; [exact H1|]. split; [exact H2|]. exact H7.
Defined.

(** X2: [Set_Bucket_Reversed] and [Set_Unlucky_Bucket] set their own
    bit and nothing else: the label, the distance, the reversed-item
    bit, the hash byte and the other flag of the word are kept, and
    setting a flag twice is setting it once. *)
Theorem flag_setters_own_one_bit (ly : Layout) (w : Z) :
  (Meta.Is_Bucket_Reversed (Meta.Set_Bucket_Reversed w) = true /\
   Meta.Is_Unlucky_Bucket (Meta.Set_Bucket_Reversed w) = Meta.Is_Unlucky_Bucket w /\
   Meta.Get_Label (Meta.Set_Bucket_Reversed w) = Meta.Get_Label w /\
   Meta.Distance_to_Entry_Bin (Meta.Set_Bucket_Reversed w)
     = Meta.Distance_to_Entry_Bin w /\
   Meta.Is_Item_In_Reverse_Bucket (Meta.Set_Bucket_Reversed w)
     = Meta.Is_Item_In_Reverse_Bucket w /\
   Meta.Get_Hash ly (Meta.Set_Bucket_Reversed w) = Meta.Get_Hash ly w /\
   Meta.Set_Bucket_Reversed (Meta.Set_Bucket_Reversed w) = Meta.Set_Bucket_Reversed w) /\
  (Meta.Is_Unlucky_Bucket (Meta.Set_Unlucky_Bucket w) = true /\
   Meta.Is_Bucket_Reversed (Meta.Set_Unlucky_Bucket w) = Meta.Is_Bucket_Reversed w /\
   Meta.Get_Label (Meta.Set_Unlucky_Bucket w) = Meta.Get_Label w /\
   Meta.Distance_to_Entry_Bin (Meta.Set_Unlucky_Bucket w)
     = Meta.Distance_to_Entry_Bin w /\
   Meta.Is_Item_In_Reverse_Bucket (Meta.Set_Unlucky_Bucket w)
     = Meta.Is_Item_In_Reverse_Bucket w /\
   Meta.Get_Hash ly (Meta.Set_Unlucky_Bucket w) = Meta.Get_Hash ly w /\
   Meta.Set_Unlucky_Bucket (Meta.Set_Unlucky_Bucket w) = Meta.Set_Unlucky_Bucket w).
Proof. apply flag_setters_fields. Qed.

Lemma Calculate_Minimum_spec_witness :
  Sample.full16_table = Sample.full16_table /\
  window_min_label Sample.tgt 3 Sample.full16_table 7 1 /\
  exists i, 0 <= i < 3 /\ 7 = wrap Sample.tgt (7 + i) /\
    label_at Sample.full16_table 7 = 1 /\
    forall j, 0 <= j < i -> 1 < label_at Sample.full16_table (wrap Sample.tgt (7 + j)).
Proof.
  apply (Calculate_Minimum_spec Sample.tgt 3 Sample.full16_table Sample.full16_table 7 1 7).
  - lia.
  - reflexivity.
  - vm_compute. reflexivity.
Defined.


Lemma clear_empties_table_witness :
  exists t', clear Sample.tgt 3 Sample.dup_before_table = Ok (tt, t') /\
    num_elems t' = 0 /\ well_formed Sample.tgt 3 t' = true.
Proof.
  destruct (clear_empties_table Sample.tgt 3 Sample.dup_before_table)
    as (t' & H1 & H2 & _ & _ & _ & _ & _ & H8 & _).
  - lia.
  - vm_compute. split; [discriminate|reflexivity].
  - vm_compute. discriminate.
  - vm_compute. discriminate.
  - exists t'. auto.
Defined.

(** X6: a default-constructed table has capacity 0 and no arrays, and
    every operation that touches a cell goes out of bounds on it:
    [find_position] (and with it [count] and [erase]) reads the
    metadata of an anchor that does not exist, [clear] writes the
    reversed-bucket flag at index [-1], and [insert], which grows the
    table first, has [rehash] sweep the old cells from index
    [old_num_buckets - 1 = SIZE_MAX] down. *)
Theorem default_constructed_table_out_of_bounds {I K : Type} (tg : Target)
    (ly : Layout) (B : Z) (key_of : I -> K) (HASHER : K -> Z * Z)
    (EQ : K -> K -> bool) (junk : I) :
  2 <= B <= 4 -> layout_ok ly -> alloc_bins ly (2 * B - 2) < SIZE_MOD tg ->
  capacity (@CBG_IMPL_default I) = Ok (0, CBG_IMPL_default) /\
  (forall k, find_position tg ly B key_of HASHER EQ k (@CBG_IMPL_default I) = UB) /\
  (forall k, count tg ly B key_of HASHER EQ k (@CBG_IMPL_default I) = UB) /\
  (forall k, erase tg ly B key_of HASHER EQ k (@CBG_IMPL_default I) = UB) /\
  clear tg B (@CBG_IMPL_default I) = UB /\
  (forall fuel elem,
     insert tg ly B key_of HASHER junk (S fuel) elem (@CBG_IMPL_default I) = UB).
Proof.
  intros HB Hly Halloc. split; [reflexivity|].
  split; [intros k; apply find_position_default|].
  split; [intros k; unfold count; apply bind_UB, find_position_default|].
  split; [intros k; unfold erase; apply bind_UB, find_position_default|].
  split; [apply clear_default; exact HB|].
  intros fuel elem. apply insert_default; assumption.
Qed.

Lemma default_constructed_table_out_of_bounds_witness :
  count Sample.tgt AoS 3 id Sample.H_id Z.eqb 7 (@CBG_IMPL_default Z) = UB /\
  insert Sample.tgt AoS 3 id Sample.H_id 0 1 7 (@CBG_IMPL_default Z) = UB.
Proof.
  destruct (default_constructed_table_out_of_bounds Sample.tgt AoS 3 id Sample.H_id
              Z.eqb 0) as (_ & _ & Hc & _ & _ & Hi).
  - lia.
  - exact I.
  - vm_compute. reflexivity.
  - split; [apply Hc|apply Hi].
Defined.

Section Instances.

Context {INSERT_TYPE KEY_TYPE : Type}.
Variable tg : Target.
Variable ly : Layout.
Variable B : Z.
Variable key_of : INSERT_TYPE -> KEY_TYPE.
Variable HASHER : KEY_TYPE -> Z * Z.
Variable EQ : KEY_TYPE -> KEY_TYPE -> bool.
Variable junk : INSERT_TYPE.

Abbreviation Tx := (CBG INSERT_TYPE).

(** X7: a position [find_position] returns, other than [SIZE_MAX], is
    a cell of the key's first bucket, or, the first anchor carrying the
    unlucky flag, of its second bucket; the cell is occupied, its key
    compares equal to the key looked up and, in the struct-of-arrays
    layout, its hash byte is the one a placement into that bucket
    stores. The table is not changed. *)
Theorem find_position_sound (elem : KEY_TYPE) (t t' : Tx) (pos : Z) :
  2 <= B <= 4 ->
  find_position tg ly B key_of HASHER EQ elem t = Ok (pos, t') ->
  pos <> SIZE_MAX tg ->
  let h0 := fst (hash_elem tg HASHER elem) in
  let h1 := snd (hash_elem tg HASHER elem) in
  let b1 := fastrange tg h0 (num_buckets t) in
  let b2 := fastrange tg h1 (num_buckets t) in
  t' = t /\
  ((exists k, 0 <= k < B /\ pos = probe_cell tg t b1 k) /\
   cell_matches ly key_of EQ h1 t pos elem
   \/
   Meta.Is_Unlucky_Bucket (word_at t b1) = true /\
   (exists k, 0 <= k < B /\ pos = probe_cell tg t b2 k) /\
   cell_matches ly key_of EQ h0 t pos elem).
Proof. apply find_position_hit. Qed.

(** X8: on a well-formed table a lookup that answers [SIZE_MAX] has
    found no matching cell among the [B] cells of the key's first
    bucket, nor, when the first anchor carries the unlucky flag, among
    those of its second bucket: an element stored where [try_insert]
    puts it cannot be missed. *)
Theorem find_position_miss (elem : KEY_TYPE) (t t' : Tx) :
  well_formed tg B t = true ->
  find_position tg ly B key_of HASHER EQ elem t = Ok (SIZE_MAX tg, t') ->
  let h0 := fst (hash_elem tg HASHER elem) in
  let h1 := snd (hash_elem tg HASHER elem) in
  let b1 := fastrange tg h0 (num_buckets t) in
  let b2 := fastrange tg h1 (num_buckets t) in
  (forall k, 0 <= k < B ->
     ~ cell_matches ly key_of EQ h1 t (probe_cell tg t b1 k) elem) /\
  (Meta.Is_Unlucky_Bucket (word_at t b1) = true ->
   forall k, 0 <= k < B ->
     ~ cell_matches ly key_of EQ h0 t (probe_cell tg t b2 k) elem).
Proof. apply find_position_no_match. Qed.

(** X10: insert, then look up. On a well-formed table below its
    maximum load, when the first bucket of the key has an empty cell
    (and the key compares equal to itself), [insert] returns having
    counted one element more and kept the capacity; the table is well
    formed again, and a lookup of the key now hits: [count] is 1 and
    the cell found holds an equal key. If the key was not found before,
    the cell found holds the very element inserted. *)
Theorem insert_then_find (fuel : nat) (elem : INSERT_TYPE) (t : Tx) (i : Z) :
  well_formed tg B t = true ->
  load_reached t = Ok (false, t) ->
  let k := key_of elem in
  let b1 := fastrange tg (fst (hash_elem tg HASHER k)) (num_buckets t) in
  0 <= i < B ->
  label_at t (bucket_init_of tg B b1 (Meta.Is_Bucket_Reversed (word_at t b1)) + i) = 0 ->
  EQ k k = true ->
  exists t' pos,
    insert tg ly B key_of HASHER junk (S fuel) elem t = Ok (tt, t') /\
    well_formed tg B t' = true /\
    num_elems t' = wrap tg (num_elems t + 1) /\
    num_buckets t' = num_buckets t /\
    find_position tg ly B key_of HASHER EQ k t' = Ok (pos, t') /\
    pos <> SIZE_MAX tg /\
    count tg ly B key_of HASHER EQ k t' = Ok (1, t') /\
    (exists el, read (elems t') pos = Some el /\ EQ (key_of el) k = true) /\
    (find_position tg ly B key_of HASHER EQ k t = Ok (SIZE_MAX tg, t) ->
     read (elems t') pos = Some elem).
Proof. apply insert_then_find_cell. Qed.

(** X16: [Find_Empty_Pos_Hopscotch] may move elements and reverse
    buckets, but it never changes the capacity, the sizes of the
    arrays, the parameters or the element count; and on a well-formed
    table without empty cells it answers [SIZE_MAX] and leaves the
    table untouched. *)
Theorem hopscotch_frame_and_full_table (t : Tx) (b : Z) :
  (forall bi pos t',
     Find_Empty_Pos_Hopscotch tg ly B b bi t = Ok (pos, t') ->
     table_shape t' = table_shape t /\ num_elems t' = num_elems t) /\
  (well_formed tg B t = true -> full_table t = true -> 0 <= b < num_buckets t ->
   Find_Empty_Pos_Hopscotch tg ly B b
     (bucket_init_of tg B b (Meta.Is_Bucket_Reversed (word_at t b))) t
   = Ok (SIZE_MAX tg, t)).
Proof.
  split.
  - intros bi pos t' H.
    apply (keeps_Find_Empty_Pos_Hopscotch tg ly B b bi) in H.
    split; [exact (f_equal fst H)|exact (f_equal snd H)].
  - apply hopscotch_on_full_table.
Qed.

End Instances.

(* ===================================================================== *)
(** * Instances on the sample tables *)
(* ===================================================================== *)

Lemma find_position_sound_witness :
  cell_matches AoS fst Z.eqb (2 ^ 61) Sample.dup_before_table 2 73.
Proof.
  destruct (find_position_sound Sample.tgt AoS 3 fst (Sample.H_anchor 3) Z.eqb 73
              Sample.dup_before_table Sample.dup_before_table 2)
    as [_ [[_ Hc] | (_ & _ & Hc)]].
  - lia.
  - vm_compute. reflexivity.
  - vm_compute. discriminate.
  - exact Hc.
  - exact Hc.
Defined.

Lemma find_position_miss_witness :
  find_position Sample.tgt AoS 3 fst (Sample.H_anchor 3) Z.eqb 8 Sample.dup_before_table
    = Ok (SIZE_MAX Sample.tgt, Sample.dup_before_table) /\
  (forall k, 0 <= k < 3 ->
     ~ cell_matches AoS fst Z.eqb 0 Sample.dup_before_table
         (probe_cell Sample.tgt Sample.dup_before_table 1 k) 8).
Proof.
  split; [vm_compute; reflexivity|].
  apply (find_position_miss Sample.tgt AoS 3 fst (Sample.H_anchor 3) Z.eqb 8
           Sample.dup_before_table Sample.dup_before_table).
  - vm_compute. reflexivity.
  - vm_compute. reflexivity.
Defined.

Lemma lookup_in_empty_table_witness :
  find_position Sample.tgt AoS 3 id Sample.H_id Z.eqb 7 Sample.fresh4
    = Ok (SIZE_MAX Sample.tgt, Sample.fresh4) /\
  count Sample.tgt AoS 3 id Sample.H_id Z.eqb 7 Sample.fresh4 = Ok (0, Sample.fresh4) /\
  erase Sample.tgt AoS 3 id Sample.H_id Z.eqb 7 Sample.fresh4 = Ok (0, Sample.fresh4).
Proof.
  apply (lookup_in_empty_table Sample.tgt AoS 3 id Sample.H_id Z.eqb 7 Sample.fresh4).
  - vm_compute. reflexivity.
  - apply no_cell_occupied_check. vm_compute. reflexivity.
Defined.

Lemma insert_then_find_witness :
  exists t' pos,
    insert Sample.tgt AoS 3 fst (Sample.H_anchor 3) (0, 0) 1 (8, 55)
      Sample.dup_before_table = Ok (tt, t') /\
    count Sample.tgt AoS 3 fst (Sample.H_anchor 3) Z.eqb 8 t' = Ok (1, t') /\
    read (elems t') pos = Some (8, 55).
Proof.
  destruct (insert_then_find Sample.tgt AoS 3 fst (Sample.H_anchor 3) Z.eqb (0, 0)
              0%nat (8, 55) Sample.dup_before_table 0)
    as (t' & pos & H1 & _ & _ & _ & _ & _ & H7 & _ & H9).
  - vm_compute. reflexivity.
  - vm_compute. reflexivity.
  - lia.
  - vm_compute. reflexivity.
  - reflexivity.
  - exists t', pos. split; [exact H1|]. split; [exact H7|].
    apply H9. vm_compute. reflexivity.
Defined.

Lemma erase_then_find_witness :
  exists t',
    erase Sample.tgt AoS 3 fst (Sample.H_anchor 3) Z.eqb 73 Sample.dup_before_table
      = Ok (1, t') /\
    label_at t' 2 = 0 /\
    count Sample.tgt AoS 3 fst (Sample.H_anchor 3) Z.eqb 73 t' = Ok (0, t').
Proof.
  destruct (erase_then_find Sample.tgt AoS 3 fst (Sample.H_anchor 3) Z.eqb 73
              Sample.dup_before_table 2)
    as (t' & H1 & _ & H3 & _ & _ & _ & _ & H8).
  - vm_compute. reflexivity.
  - vm_compute. reflexivity.
  - vm_compute. discriminate.
  - exists t'. split; [exact H1|]. split; [exact H3|].
    apply H8. intros q el Hq Hr He.
    pose proof (elems_check Sample.dup_before_table
                  (fun q el => (q =? 2) || negb (fst el =? 73)
                               || (label_at Sample.dup_before_table q =? 0))
                  eq_refl q el Hr) as HP.
    cbv beta in HP. rewrite He in HP.
    apply Z.eqb_neq in Hq. rewrite Hq in HP.
    apply Z.eqb_eq. exact HP.
Defined.

Lemma at_returns_found_value_witness :
  exists v, at_ Sample.tgt AoS 3 (Sample.H_anchor 3) Z.eqb 73 Sample.dup_before_table
            = Ok (Some v, Sample.dup_before_table).
Proof.
  destruct (at_returns_found_value Sample.tgt AoS 3 (Sample.H_anchor 3) Z.eqb 73
              Sample.dup_before_table)
    as (pos & Hf & [[Hp _] | (_ & k' & v & _ & _ & _ & Ha)]).
  - vm_compute. reflexivity.
  - exfalso. rewrite Hp in Hf. vm_compute in Hf. discriminate Hf.
  - exists v. exact Ha.
Defined.

Lemma map_insert_then_at_witness :
  exists t',
    map_insert Sample.tgt AoS 3 (Sample.H_anchor 3) (0, 0) 1 (8, 55)
      Sample.dup_before_table = Ok (tt, t') /\
    at_ Sample.tgt AoS 3 (Sample.H_anchor 3) Z.eqb 8 t' = Ok (Some 55, t') /\
    num_elems t' = wrap Sample.tgt (num_elems Sample.dup_before_table + 1).
Proof.
  apply (map_insert_then_at Sample.tgt AoS 3 (Sample.H_anchor 3) Z.eqb (0, 0) 0%nat
           8 55 Sample.dup_before_table 0).
  - vm_compute. reflexivity.
  - vm_compute. reflexivity.
  - lia.
  - vm_compute. reflexivity.
  - reflexivity.
  - vm_compute. reflexivity.
Defined.

Lemma index_inserts_default_value_witness :
  exists t' pos,
    index Sample.tgt AoS 3 (Sample.H_anchor 3) Z.eqb (0, 0) 0 1 8
      Sample.dup_before_table = Ok (pos, t') /\
    pos <> SIZE_MAX Sample.tgt /\
    read (elems t') pos = Some (8, 0) /\
    num_elems t' = wrap Sample.tgt (num_elems Sample.dup_before_table + 1).
Proof.
  apply (index_inserts_default_value Sample.tgt AoS 3 (Sample.H_anchor 3) Z.eqb (0, 0)
           0 0%nat 8 Sample.dup_before_table 0).
  - vm_compute. reflexivity.
  - vm_compute. reflexivity.
  - lia.
  - vm_compute. reflexivity.
  - reflexivity.
  - vm_compute. reflexivity.
Defined.

Lemma try_insert_keeps_shape_witness :
  table_shape Sample.tiny_at_end = table_shape Sample.tiny_at_max /\
  num_elems Sample.tiny_at_end = num_elems Sample.tiny_at_max.
Proof.
  apply (try_insert_keeps_shape Sample.tgt AoS 2 id (Sample.H_shift 2) 2 4 3
           Sample.tiny_at_max Sample.tiny_at_end false).
  vm_compute. reflexivity.
Defined.

Lemma hopscotch_frame_and_full_table_witness :
  Find_Empty_Pos_Hopscotch Sample.tgt AoS 2 0
    (bucket_init_of Sample.tgt 2 0
       (Meta.Is_Bucket_Reversed (word_at Sample.tiny_at_max 0)))
    Sample.tiny_at_max
  = Ok (SIZE_MAX Sample.tgt, Sample.tiny_at_max).
Proof.
  apply (hopscotch_frame_and_full_table Sample.tgt AoS 2 Sample.tiny_at_max 0).
  - vm_compute. reflexivity.
  - vm_compute. reflexivity.
  - vm_compute. split; [discriminate|reflexivity].
Defined.

Lemma try_insert_on_full_table_loses_nothing_witness :
  false = false /\
  3 :: elems Sample.tiny_at_end ≡ₚ 4 :: elems Sample.tiny_at_max /\
  well_formed Sample.tgt 2 Sample.tiny_at_end = true /\
  full_table Sample.tiny_at_end = true /\
  num_elems Sample.tiny_at_end = num_elems Sample.tiny_at_max /\
  table_shape Sample.tiny_at_end = table_shape Sample.tiny_at_max.
Proof.
  apply (try_insert_on_full_table_loses_nothing Sample.tgt AoS 2 id (Sample.H_shift 2)
           2 4 3 Sample.tiny_at_max Sample.tiny_at_end false).
  - vm_compute. reflexivity.
  - vm_compute. reflexivity.
  - vm_compute. reflexivity.
Defined.

Lemma get_grow_size_grows_witness :
  Sample.fresh4 = Sample.fresh4 /\
  num_buckets Sample.fresh4 <= 8 < SIZE_MOD Sample.tgt /\
  (num_buckets Sample.fresh4 + (2 * 3 - 2) < SIZE_MOD Sample.tgt ->
   num_buckets Sample.fresh4 + (2 * 3 - 2) <= 8 /\
   num_buckets Sample.fresh4 <= 8 - (3 - 1)).
Proof.
  apply (get_grow_size_grows Sample.tgt 3 Sample.fresh4 Sample.fresh4 8).
  - lia.
  - vm_compute. split; [discriminate|reflexivity].
  - vm_compute. reflexivity.
Defined.

Lemma placement_records_owner_bucket_witness :
  Belong_to_Bucket Sample.tgt 3 1 Sample.dup_table = Ok (1, Sample.dup_table).
Proof.
  eapply (placement_records_owner_bucket Sample.tgt AoS 3 Sample.dup_before_table
            Sample.dup_table 1 1 false 1 0 (73, 30)).
  - lia.
  - vm_compute. split; [discriminate|reflexivity].
  - discriminate.
  - simpl. lia.
  - vm_compute. reflexivity.
  - lia.
  - vm_compute. reflexivity.
Defined.

